(** * The web crawler: shallow embedding and properties

    The development follows the crawl engine of [app/crawler.py]
    ([WebCrawler.start_crawl_job], [WebCrawler._crawl] and
    [WebCrawler._process_url]; [flask_app.py] holds a second copy of the
    last two, which skips the rest of a turn whose batch gave no task, as
    the first copy does in effect),
    [app/models.py] ([CrawlStatus], [CrawlJob], [CrawledUrl]),
    [app/schemas.py] ([CrawlJobBase.validate_url]), the endpoints of
    [app/api.py] and of [flask_app.py], the periodic [cleanup_old_jobs], and
    the part of [urllib.parse] that the crawler calls ([urljoin],
    [urlparse], [ParseResult.geturl]).

    Python [str] values are lists of characters, a character outside ASCII
    standing as the bytes of its UTF-8 encoding (every character that
    [urllib.parse] looks for is ASCII); [int] values are [Z]; the
    [visited_urls] set is a [gset]; the frontier [urls_to_visit] is a list.
    Exceptions are values of a small error monad threaded through the
    session. *)

From Stdlib Require Import ZArith Ascii String.
From Stdlib Require Import Lia DecimalString DecimalNat.
From stdpp Require Import base decidable option list gmap strings sorting.

Open Scope Z_scope.

(** ** Python strings *)

Abbreviation str := (list ascii).

(** Keys of the visited set are encoded through [string]. *)
#[global] Instance str_countable : Countable str | 0 :=
  inj_countable' string_of_list_ascii list_ascii_of_string
    list_ascii_of_string_of_list_ascii.

(** A literal. *)
Definition lit (s : string) : str := list_ascii_of_string s.
Arguments lit : simpl never.

Definition chr_code (c : ascii) : N := N_of_ascii c.

Definition between (lo hi : N) (c : ascii) : bool :=
  ((lo <=? chr_code c) && (chr_code c <=? hi))%N.

(** [c.isascii() and c.isalpha()] *)
Definition is_ascii_alpha (c : ascii) : bool :=
  between 65 90 c || between 97 122 c.

Definition is_digit (c : ascii) : bool := between 48 57 c.

(** [c in scheme_chars] *)
Definition is_scheme_char (c : ascii) : bool :=
  is_ascii_alpha c || is_digit c
  || bool_decide (c = "+"%char) || bool_decide (c = "-"%char)
  || bool_decide (c = "."%char).

(** [c in _WHATWG_C0_CONTROL_OR_SPACE] *)
Definition is_c0_or_space (c : ascii) : bool := (chr_code c <=? 32)%N.

(** [c in _UNSAFE_URL_BYTES_TO_REMOVE] *)
Definition is_unsafe (c : ascii) : bool :=
  bool_decide (c = "009"%char) || bool_decide (c = "013"%char)
  || bool_decide (c = "010"%char).

Definition lower_char (c : ascii) : ascii :=
  if between 65 90 c then ascii_of_N (chr_code c + 32) else c.

(** [s.lower()] on ASCII text *)
Definition lower (s : str) : str := map lower_char s.

(** [s.lstrip(chars)] *)
Fixpoint lstrip (p : ascii -> bool) (s : str) : str :=
  match s with
  | c :: s' => if p c then lstrip p s' else s
  | [] => []
  end.

(** [s.strip(chars)] *)
Definition strip (p : ascii -> bool) (s : str) : str :=
  rev (lstrip p (rev (lstrip p s))).

(** [s.replace(b, "")] for each unsafe [b] *)
Definition remove_unsafe (s : str) : str :=
  filter (fun c => is_unsafe c = false) s.

(** [c in s] *)
Definition has (c : ascii) (s : str) : bool := bool_decide (c ∈ s).

(** [s.split(c, 1)] when [c] occurs in [s]; [None] when it does not *)
Fixpoint split_once (c : ascii) (s : str) : option (str * str) :=
  match s with
  | [] => None
  | x :: s' =>
      if decide (x = c) then Some ([], s')
      else match split_once c s' with
           | Some (a, b) => Some (x :: a, b)
           | None => None
           end
  end.

(** [a, b = s.split(c, 1)] when [c in s]; [(s, '')] when it is not *)
Definition cut (c : ascii) (s : str) : str * str :=
  match split_once c s with
  | Some ab => ab
  | None => (s, [])
  end.

(** [s.split(c)] *)
Fixpoint split_all (c : ascii) (s : str) : list str :=
  match s with
  | [] => [[]]
  | x :: s' =>
      if decide (x = c) then [] :: split_all c s'
      else match split_all c s' with
           | seg :: segs => (x :: seg) :: segs
           | [] => [[x]]
           end
  end.

(** [c.join(l)] *)
Definition join (c : ascii) (l : list str) : str :=
  match l with
  | [] => []
  | x :: xs => x ++ flat_map (cons c) xs
  end.

(** [(s[:i+1], s[i+1:])] for [i = s.rfind(c)]; the first part is empty when
    [c] does not occur *)
Fixpoint rsplit_after (c : ascii) (s : str) : str * str :=
  match s with
  | [] => ([], [])
  | x :: s' =>
      let '(a, b) := rsplit_after c s' in
      if has c s' then (x :: a, b)
      else if decide (x = c) then ([x], s')
      else ([], x :: s')
  end.

(** [s[:2] == '//'] *)
Definition starts_with_slashes (s : str) : bool :=
  match s with
  | c1 :: c2 :: _ => bool_decide (c1 = "/"%char) && bool_decide (c2 = "/"%char)
  | _ => false
  end.

(** [s[:1] == '/'] *)
Definition starts_with_slash (s : str) : bool :=
  match s with
  | c :: _ => bool_decide (c = "/"%char)
  | [] => false
  end.

(** Python truth value of a string *)
Definition nonempty (s : str) : bool :=
  match s with [] => false | _ => true end.

(** ** urllib.parse *)

Definition uses_relative : list str :=
  map lit [""; "ftp"; "http"; "gopher"; "nntp"; "imap";
           "wais"; "file"; "https"; "shttp"; "mms";
           "prospero"; "rtsp"; "rtspu"; "sftp";
           "svn"; "svn+ssh"; "ws"; "wss"]%string.

Definition uses_netloc : list str :=
  map lit [""; "ftp"; "http"; "gopher"; "nntp"; "telnet";
           "imap"; "wais"; "file"; "mms"; "https"; "shttp";
           "snews"; "prospero"; "rtsp"; "rtspu"; "rsync";
           "svn"; "svn+ssh"; "sftp"; "nfs"; "git"; "git+ssh";
           "ws"; "wss"]%string.

Definition uses_params : list str :=
  map lit [""; "ftp"; "hdl"; "prospero"; "http"; "imap";
           "https"; "shttp"; "rtsp"; "rtspu"; "sip"; "sips";
           "mms"; "sftp"; "tel"]%string.

Definition member (s : str) (l : list str) : bool := bool_decide (s ∈ l).

(** [SplitResult] *)
Record SplitResult := mkSplit {
  s_scheme : str; s_netloc : str; s_path : str;
  s_query : str; s_fragment : str }.

(** [ParseResult] *)
Record ParseResult := mkParse {
  scheme : str; netloc : str; path : str;
  params : str; query : str; fragment : str }.

(** [p._replace(fragment=f)] *)
Definition replace_fragment (p : ParseResult) (f : str) : ParseResult :=
  mkParse (scheme p) (netloc p) (path p) (params p) (query p) f.

(** [_splitnetloc(url, 2)] on a [url] that starts with two slashes *)
Fixpoint span_netloc (s : str) : str * str :=
  match s with
  | [] => ([], [])
  | c :: s' =>
      if bool_decide (c = "/"%char) || bool_decide (c = "?"%char)
         || bool_decide (c = "#"%char)
      then ([], s)
      else let '(a, b) := span_netloc s' in (c :: a, b)
  end.

Definition _splitnetloc (url : str) : str * str := span_netloc (drop 2 url).

(** the scheme test at the head of [urlsplit] *)
Definition split_scheme (dflt url : str) : str * str :=
  match split_once ":"%char url with
  | Some (c :: pre, rest) =>
      if is_ascii_alpha c && forallb is_scheme_char (c :: pre)
      then (lower (c :: pre), rest)
      else (dflt, url)
  | _ => (dflt, url)
  end.

(** [_splitparams] *)
Definition _splitparams (url : str) : str * str :=
  let '(dir, last_seg) := rsplit_after "/"%char url in
  match split_once ";"%char last_seg with
  | Some (a, b) => (dir ++ a, b)
  | None => (url, [])
  end.

(** [urlunsplit] *)
Definition urlunsplit (r : SplitResult) : str :=
  let url := s_path r in
  let url :=
    if nonempty (s_netloc r)
       || (nonempty (s_scheme r) && member (s_scheme r) uses_netloc
           && negb (starts_with_slashes url))
    then
      let url := if nonempty url && negb (starts_with_slash url)
                 then "/"%char :: url else url in
      lit "//" ++ s_netloc r ++ url
    else url in
  let url := if nonempty (s_scheme r) then s_scheme r ++ ":"%char :: url else url in
  let url := if nonempty (s_query r) then url ++ "?"%char :: s_query r else url in
  if nonempty (s_fragment r) then url ++ "#"%char :: s_fragment r else url.

(** [urlunparse] *)
Definition urlunparse (p : ParseResult) : str :=
  let url := if nonempty (params p) then path p ++ ";"%char :: params p
             else path p in
  urlunsplit (mkSplit (scheme p) (netloc p) url (query p) (fragment p)).

(** [ParseResult.geturl] *)
Definition geturl (p : ParseResult) : str := urlunparse p.

(** the segment loop of [urljoin]; the stack is kept reversed *)
Fixpoint resolve_segments (segs : list str) (stack : list str) : list str :=
  match segs with
  | [] => rev stack
  | seg :: segs' =>
      if decide (seg = lit "..") then resolve_segments segs' (tail stack)
      else if decide (seg = lit ".") then resolve_segments segs' stack
      else resolve_segments segs' (seg :: stack)
  end.

(** [segments[1:-1] = filter(None, segments[1:-1])] *)
Definition filter_middle (segs : list str) : list str :=
  match segs with
  | a :: (_ :: _) as rest =>
      a :: filter (fun s => nonempty s = true) (removelast rest)
        ++ match last rest with Some z => [z] | None => [] end
  | _ => segs
  end.

Section UrlLib.

(** [urlsplit] raises [ValueError] when the authority fails its checks
    (unbalanced brackets, [_check_bracketed_netloc], [_checknetloc]).  The
    checks read nothing but the authority, and the development is
    parametric in their verdict. *)
Variable valid_netloc : str -> bool.

(** [urlsplit(url, scheme)]; [None] is [ValueError] *)
Definition urlsplit (url dflt : str) : option SplitResult :=
  let url := lstrip is_c0_or_space url in
  let dflt := strip is_c0_or_space dflt in
  let url := remove_unsafe url in
  let dflt := remove_unsafe dflt in
  let '(sch, url) := split_scheme dflt url in
  let '(loc, url, ok) :=
    if starts_with_slashes url
    then let '(n, u) := _splitnetloc url in (n, u, valid_netloc n)
    else ([], url, true) in
  if ok then
    let '(url, frag) := cut "#"%char url in
    let '(url, qry) := cut "?"%char url in
    Some (mkSplit sch loc url qry frag)
  else None.

(** [urlparse(url, scheme)] *)
Definition urlparse (url dflt : str) : option ParseResult :=
  match urlsplit url dflt with
  | None => None
  | Some r =>
      let '(url, prm) :=
        if member (s_scheme r) uses_params && has ";"%char (s_path r)
        then _splitparams (s_path r)
        else (s_path r, []) in
      Some (mkParse (s_scheme r) (s_netloc r) url prm (s_query r) (s_fragment r))
  end.

(** [urljoin(base, url)]; [None] is [ValueError] *)
Definition urljoin (base url : str) : option str :=
  if negb (nonempty base) then Some url
  else if negb (nonempty url) then Some base
  else
    match urlparse base [] with
    | None => None
    | Some b =>
        match urlparse url (scheme b) with
        | None => None
        | Some p =>
            if negb (bool_decide (scheme p = scheme b))
               || negb (member (scheme p) uses_relative)
            then Some url
            else if member (scheme p) uses_netloc && nonempty (netloc p)
            then Some (urlunparse p)
            else
              let loc := if member (scheme p) uses_netloc then netloc b
                         else netloc p in
              if negb (nonempty (path p)) && negb (nonempty (params p))
              then
                let qry := if nonempty (query p) then query p else query b in
                Some (urlunparse
                        (mkParse (scheme p) loc (path b) (params b) qry
                                 (fragment p)))
              else
                let parts := split_all "/"%char (path b) in
                let base_parts :=
                  match last parts with
                  | Some [] => parts
                  | _ => removelast parts
                  end in
                let segments :=
                  if starts_with_slash (path p)
                  then split_all "/"%char (path p)
                  else filter_middle (base_parts ++ split_all "/"%char (path p)) in
                let resolved := resolve_segments segments [] in
                let resolved :=
                  match last segments with
                  | Some z =>
                      if bool_decide (z = lit ".") || bool_decide (z = lit "..")
                      then resolved ++ [[]] else resolved
                  | None => resolved
                  end in
                let joined := join "/"%char resolved in
                let joined := if nonempty joined then joined else lit "/" in
                Some (urlunparse
                        (mkParse (scheme p) loc joined (params p) (query p)
                                 (fragment p)))
        end
    end.

End UrlLib.

(** ** app/models.py *)

Inductive CrawlStatus := IN_PROGRESS | COMPLETED | FAILED.

#[global] Instance CrawlStatus_eq_dec : EqDecision CrawlStatus.
Proof. solve_decision. Defined.

(** a row of [crawl_jobs] *)
Record CrawlJob := mkCrawlJob {
  id : Z;
  seed_url : str;
  status : CrawlStatus;
  error_message : option str }.

(** a row of [crawled_urls] *)
Record CrawledUrl := mkCrawledUrl {
  url : str;
  title : option str;
  crawl_job_id : Z }.

(** ** Exceptions and the session *)

(** The exception classes that the two handlers of the crawler tell apart:
    [httpx.RequestError] (transport failures and timeouts) and every other
    [Exception].  [PendingRollbackError] is what SQLAlchemy raises when a
    session is used after one of its flushes failed and before
    [rollback()]; it carries the exception of that flush. *)
Inductive exn :=
  | RequestError (msg : str)
  | HTTPStatusError (msg : str)
  | ValueError (msg : str)
  | SQLAlchemyError (msg : str)
  | PendingRollbackError (orig : exn).

(** [str(e)].  The text of a [PendingRollbackError] quotes the exception of
    the failed flush; the library ends it with a pointer to its
    documentation, which is left out here. *)
Fixpoint str_of_exn (e : exn) : str :=
  match e with
  | RequestError m | HTTPStatusError m | ValueError m | SQLAlchemyError m => m
  | PendingRollbackError orig =>
      lit "This Session's transaction has been rolled back due to a previous exception during flush. To begin a new transaction with this Session, first issue Session.rollback(). Original exception was: "
      ++ str_of_exn orig
  end.

Inductive outcome (A : Type) :=
  | Ret (a : A)
  | Raise (e : exn).
Arguments Ret {A} a.
Arguments Raise {A} e.

(** The session [self.db] that one crawler shares between [_crawl] and
    every [_process_url].  What it has committed: the rows of
    [crawled_urls] written by the run, in commit order, and the status and
    error message of the job's row.  A job id is a fresh primary key, so a
    run starts with no row of its own in [crawled_urls].  [status_commits]
    is a history variable: the statuses that reached the job's row, in
    commit order.

    [rollback_exception] is the state of the session's transaction: [None]
    while it is active, and the exception of the flush that failed once a
    [commit()] has raised.  Only [rollback()] makes the transaction active
    again, and neither [_crawl] nor [_process_url] calls it. *)
Record Session := mkSession {
  crawled_urls : list CrawledUrl;
  committed_status : CrawlStatus;
  committed_error : option str;
  status_commits : list CrawlStatus;
  rollback_exception : option exn }.

(** [self.db.is_active] *)
Definition is_active (s : Session) : bool :=
  match rollback_exception s with None => true | Some _ => false end.

(** the session after a flush that raised [e] *)
Definition deactivate (e : exn) (s : Session) : Session :=
  mkSession (crawled_urls s) (committed_status s) (committed_error s)
            (status_commits s) (Some e).

(** Code that may raise and that reads and writes the session. *)
Definition M (A : Type) : Type := Session -> outcome A * Session.

#[global] Instance M_ret : MRet M := fun A a db => (Ret a, db).
#[global] Instance M_bind : MBind M := fun A B f m db =>
  match m db with
  | (Ret a, db') => f a db'
  | (Raise e, db') => (Raise e, db')
  end.

Definition raise {A} (e : exn) : M A := fun db => (Raise e, db).

(** [try: body  except Exception as e: handler(e)] *)
Definition try_except {A} (body : M A) (handler : exn -> M A) : M A :=
  fun db =>
    match body db with
    | (Ret a, db') => (Ret a, db')
    | (Raise e, db') => handler e db'
    end.

(** ** The collaborators *)

(** What [_process_url] reads from a response: [response.url] (the URL the
    transport ended on after following redirects), whether
    [raise_for_status] passes, and what [BeautifulSoup] finds in
    [response.text]: [soup.title.string] and the [href] of every
    [soup.find_all('a', href=True)]. *)
Record Response := mkResponse {
  response_url : str;
  is_success : bool;
  soup_title : option str;
  soup_links : list str }.

(** One run's environment: the transport, whether the store takes a row
    or a status ([None]) or the flush of its commit raises, and what the
    lookup of the job gives. *)
Record World := mkWorld {
  client_get : str -> outcome Response;
  commit_url : CrawledUrl -> option exn;
  commit_status : CrawlStatus -> option exn;
  query_job : Z -> outcome (option CrawlJob) }.

(** [self] of [WebCrawler] *)
Record WebCrawler := mkWebCrawler {
  max_workers : Z;
  max_depth : Z;
  timeout : Z }.

(** [WebCrawler(db)] *)
Definition default_crawler : WebCrawler := mkWebCrawler 10 2 10.

(** the literal of the loop test *)
Definition max_visited : nat := 1000.

(** the dict [{"url": ..., "depth": ...}] of the frontier *)
Record Item := mkItem { item_url : str; item_depth : Z }.

(** the dict [{"depth": ..., "new_urls": ...}] returned by [_process_url] *)
Record PageResult := mkPageResult { depth : Z; new_urls : list str }.

(** [l[:k]] *)
Definition slice_to {A} (l : list A) (k : Z) : list A :=
  if 0 <=? k then take (Z.to_nat k) l
  else take (length l - Z.to_nat (- k))%nat l.

(** [l[k:]] *)
Definition slice_from {A} (l : list A) (k : Z) : list A :=
  if 0 <=? k then drop (Z.to_nat k) l
  else drop (length l - Z.to_nat (- k))%nat l.

(** What [start_crawl_job] leaves before [_crawl] runs: the job's row with
    status [IN_PROGRESS], no crawled URL of the job, and a session whose
    transaction is active (the commit of the job's row went through, or no
    crawl was started). *)
Definition fresh_session : Session := mkSession [] IN_PROGRESS None [] None.

(** [list(set(l))]; the order is the set's own *)
Definition list_set (l : list str) : list str :=
  elements (list_to_set l : gset str).

Section Crawler.

Variable valid_netloc : str -> bool.
Variable w : World.
Variable self : WebCrawler.

(** *** _process_url *)

Definition parse_or_raise (u : str) : M ParseResult :=
  match urlparse valid_netloc u [] with
  | Some p => mret p
  | None => raise (ValueError (lit "Invalid URL"))
  end.

(** the body of [for link in links], lines 117-130: [None] is
    [ValueError], [Some None] a link that is not kept *)
Definition scope_link (base_url_parsed : ParseResult) (url href : str)
  : option (option str) :=
  absolute_url ← urljoin valid_netloc url href;
  parsed_url ← urlparse valid_netloc absolute_url [];
  Some (if (bool_decide (scheme parsed_url = lit "http")
            || bool_decide (scheme parsed_url = lit "https"))
           && bool_decide (netloc parsed_url = netloc base_url_parsed)
        then Some (geturl (replace_fragment parsed_url []))
        else None).

(** lines 113-130 *)
Fixpoint extract_links (base_url_parsed : ParseResult) (url : str)
    (links : list str) : option (list str) :=
  match links with
  | [] => Some []
  | href :: rest =>
      r ← scope_link base_url_parsed url href;
      urls ← extract_links base_url_parsed url rest;
      Some (match r with Some u => u :: urls | None => urls end)
  end.

(** [normalize_and_scope(base_url, href)] of the specification:
    [base_url_parsed = urlparse(url)] followed by the loop body *)
Definition normalize_and_scope (base_url href : str) : option (option str) :=
  base_url_parsed ← urlparse valid_netloc base_url [];
  scope_link base_url_parsed base_url href.

(** [client.get(url, follow_redirects=True)] *)
Definition get (u : str) : M Response :=
  fun db => (client_get w u, db).

(** [response.raise_for_status()] *)
Definition raise_for_status (r : Response) : M unit :=
  if is_success r then mret tt
  else raise (HTTPStatusError (lit "error response")).

(** [self.db.add(crawled_url); self.db.commit()].  In a session whose
    transaction is no longer active the commit raises
    [PendingRollbackError] and writes nothing; a flush that raises leaves
    the transaction inactive. *)
Definition db_add_commit (c : CrawledUrl) : M unit :=
  fun db =>
    match rollback_exception db with
    | Some orig => (Raise (PendingRollbackError orig), db)
    | None =>
        match commit_url w c with
        | None =>
            (Ret tt, mkSession (crawled_urls db ++ [c]) (committed_status db)
                               (committed_error db) (status_commits db) None)
        | Some e => (Raise e, deactivate e db)
        end
    end.

Definition empty_result (d : Z) : PageResult := mkPageResult d [].

(** the [try] block of [_process_url], lines 90-134 *)
Definition process_url_body (job_id : Z) (u : str) (d : Z) : M PageResult :=
  response ← get u;
  _ ← raise_for_status response;
  let title := soup_title response in
  _ ← db_add_commit (mkCrawledUrl u title job_id);
  if d <? max_depth self then
    let links := soup_links response in
    base_url_parsed ← parse_or_raise u;
    match extract_links base_url_parsed u links with
    | Some new_urls => mret (mkPageResult d (list_set new_urls))
    | None => raise (ValueError (lit "Invalid URL"))
    end
  else mret (empty_result d).

(** [_process_url], lines 87-141 *)
Definition _process_url (job_id : Z) (u : str) (d : Z) : M PageResult :=
  try_except (process_url_body job_id u d)
    (fun e =>
       match e with
       | RequestError _ => mret (empty_result d)
       | _ => mret (empty_result d)
       end).

(** *** _crawl *)

(** The variables of the loop.  [dequeued] and [scheduled] are history
    variables: every item that left the frontier and every item handed to
    [_process_url], in order.  The loop never reads them. *)
Record LoopState := mkLoop {
  visited_urls : gset str;
  urls_to_visit : list Item;
  db : Session;
  dequeued : list Item;
  scheduled : list Item }.

(** lines 57-61: the scan of the batch *)
Fixpoint schedule (visited : gset str) (batch : list Item)
  : gset str * list Item :=
  match batch with
  | [] => (visited, [])
  | item :: rest =>
      if decide (item_url item ∈ visited) then schedule visited rest
      else
        let '(v, tasks) := schedule ({[item_url item]} ∪ visited) rest in
        (v, item :: tasks)
  end.

(** line 64: [asyncio.gather] over the tasks, with [return_exceptions=True].  The tasks
    interleave only at their [await client.get]; what each one does to the
    session after its fetch is not interrupted, and the results come back
    in task order.  The tasks are run here one after the other, in the
    order of the list: the order in which they complete.  That order shows
    in the outcome only when the store refuses a row. *)
Fixpoint gather (job_id : Z) (tasks : list Item) (s : Session)
  : list (outcome PageResult) * Session :=
  match tasks with
  | [] => ([], s)
  | t :: rest =>
      let '(r, s1) := _process_url job_id (item_url t) (item_depth t) s in
      let '(rs, s2) := gather job_id rest s1 in
      (r :: rs, s2)
  end.

(** lines 73-75 *)
Definition enqueue_new (visited : gset str) (result : PageResult)
    (frontier : list Item) : list Item :=
  fold_left
    (fun fr u =>
       if bool_decide (u ∉ visited) && (depth result <? max_depth self)
       then fr ++ [mkItem u (depth result + 1)]
       else fr)
    (new_urls result) frontier.

(** lines 67-75; a result that is not an exception is a dict with both
    keys, for which the test of line 72 holds *)
Definition merge (visited : gset str) (results : list (outcome PageResult))
    (frontier : list Item) : list Item :=
  fold_left
    (fun fr r =>
       match r with
       | Raise _ => fr
       | Ret result => enqueue_new visited result fr
       end)
    results frontier.

(** line 51 *)
Definition loop_test (st : LoopState) : bool :=
  match urls_to_visit st with
  | [] => false
  | _ => bool_decide (size (visited_urls st) < max_visited)%nat
  end.

(** lines 53-75: one iteration *)
Definition loop_body (job_id : Z) (st : LoopState) : LoopState :=
  let batch := slice_to (urls_to_visit st) (max_workers self) in
  let rest := slice_from (urls_to_visit st) (max_workers self) in
  let '(visited, tasks) := schedule (visited_urls st) batch in
  let '(results, s) := gather job_id tasks (db st) in
  mkLoop visited (merge visited results rest) s
         (dequeued st ++ batch) (scheduled st ++ tasks).

(** lines 51-75; [None] when the fuel does not reach the loop's exit *)
Fixpoint crawl_loop (fuel : nat) (job_id : Z) (st : LoopState)
  : option LoopState :=
  if loop_test st then
    match fuel with
    | O => None
    | S n => crawl_loop n job_id (loop_body job_id st)
    end
  else Some st.

(** the state after [n] turns of the loop, or the loop's exit state when
    the exit comes first *)
Fixpoint iterate (n : nat) (job_id : Z) (st : LoopState) : LoopState :=
  match n with
  | O => st
  | S k => if loop_test st then iterate k job_id (loop_body job_id st) else st
  end.

(** lines 46-48 *)
Definition initial (seed : str) (s : Session) : LoopState :=
  mkLoop ∅ [mkItem seed 0] s [] [].

(** What a run of [_crawl] leaves behind: how the coroutine ended, the
    [status] and [error_message] attributes of the [job] object, the
    values assigned to [job.status] in order (a history variable), the
    loop's last state and the session. *)
Record CrawlRun := mkRun {
  ended : outcome unit;
  job_status : CrawlStatus;
  job_error : option str;
  status_writes : list CrawlStatus;
  last_state : option LoopState;
  final_db : Session }.

(** [job.status = st; (job.error_message = msg;) self.db.commit()], on the
    same session as the rows *)
Definition commit_job (st : CrawlStatus) (msg : option str) (s : Session)
  : outcome unit * Session :=
  match rollback_exception s with
  | Some orig => (Raise (PendingRollbackError orig), s)
  | None =>
      match commit_status w st with
      | None =>
          (Ret tt,
           mkSession (crawled_urls s) st msg (status_commits s ++ [st]) None)
      | Some e => (Raise e, deactivate e s)
      end
  end.

(** line 40: [self.db.query(CrawlJob).filter(CrawlJob.id == job_id).first()];
    a query too raises in a session whose transaction is no longer
    active *)
Definition lookup_job (job_id : Z) (s : Session) : outcome (option CrawlJob) :=
  match rollback_exception s with
  | Some orig => Raise (PendingRollbackError orig)
  | None => query_job w job_id
  end.

(** [_crawl], lines 38-85; [None] when the fuel does not reach the loop's
    exit *)
Definition _crawl (fuel : nat) (job_id : Z) (s : Session) : option CrawlRun :=
  match lookup_job job_id s with
  | Raise e =>
      Some (mkRun (Raise e) (committed_status s) (committed_error s) [] None s)
  | Ret None =>
      Some (mkRun (Ret tt) (committed_status s) (committed_error s) [] None s)
  | Ret (Some job) =>
      match crawl_loop fuel job_id (initial (seed_url job) s) with
      | None => None
      | Some st =>
          match commit_job COMPLETED (error_message job) (db st) with
          | (Ret _, s1) =>
              Some (mkRun (Ret tt) COMPLETED (error_message job) [COMPLETED]
                          (Some st) s1)
          | (Raise e, s1) =>
              let msg := Some (str_of_exn e) in
              match commit_job FAILED msg s1 with
              | (Ret _, s2) =>
                  Some (mkRun (Ret tt) FAILED msg [COMPLETED; FAILED]
                              (Some st) s2)
              | (Raise e', s2) =>
                  Some (mkRun (Raise e') FAILED msg [COMPLETED; FAILED]
                              (Some st) s2)
              end
          end
      end
  end.

End Crawler.

(** ** Vocabulary of the statements *)

(** the session after one more row of [crawled_urls] *)
Definition add_row (s : Session) (c : CrawledUrl) : Session :=
  mkSession (crawled_urls s ++ [c]) (committed_status s)
            (committed_error s) (status_commits s) (rollback_exception s).

(** the items that lines 73-75 append for one result *)
Definition new_items (self : WebCrawler) (visited : gset str)
    (result : PageResult) : list Item :=
  map (fun u => mkItem u (depth result + 1))
      (filter (fun u => u ∉ visited /\ depth result < max_depth self)
              (new_urls result)).

(** the items that lines 67-75 append for one entry of [results] *)
Definition items_of (self : WebCrawler) (visited : gset str)
    (r : outcome PageResult) : list Item :=
  match r with
  | Ret result => new_items self visited result
  | Raise _ => []
  end.

(** no tab, carriage return or line feed *)
Definition safe (s : str) : Prop := Forall (fun c => is_unsafe c = false) s.

(** the characters that end an authority *)
Definition is_delim (c : ascii) : Prop :=
  c = "/"%char \/ c = "?"%char \/ c = "#"%char.

(** What [urlsplit] guarantees of a result that has an authority. *)
Record wf_split (valid_netloc : str -> bool) (r : SplitResult) : Prop := {
  wfs_netloc_safe : safe (s_netloc r);
  wfs_path_safe : safe (s_path r);
  wfs_query_safe : safe (s_query r);
  wfs_netloc : Forall (fun c => ~ is_delim c) (s_netloc r);
  wfs_path : "?"%char ∉ s_path r /\ "#"%char ∉ s_path r;
  wfs_query : "#"%char ∉ s_query r;
  wfs_root : s_path r = [] \/ starts_with_slash (s_path r) = true;
  wfs_valid : valid_netloc (s_netloc r) = true }.

(** What [urlparse] guarantees of an [http] or [https] result that has an
    authority. *)
Record wf_parse (valid_netloc : str -> bool) (p : ParseResult) : Prop := {
  wf_netloc_safe : safe (netloc p);
  wf_path_safe : safe (path p);
  wf_params_safe : safe (params p);
  wf_query_safe : safe (query p);
  wf_netloc : Forall (fun c => ~ is_delim c) (netloc p);
  wf_path : "?"%char ∉ path p /\ "#"%char ∉ path p;
  wf_params : "?"%char ∉ params p /\ "#"%char ∉ params p
              /\ "/"%char ∉ params p;
  wf_query : "#"%char ∉ query p;
  wf_root : (path p = [] /\ params p = [])
            \/ starts_with_slash (path p) = true;
  wf_last : ";"%char ∉ (rsplit_after "/"%char (path p)).2;
  wf_valid : valid_netloc (netloc p) = true }.

(** Each URL is handed to [_process_url] once, when it leaves the frontier,
    and the rows of the job come from those calls. *)
Definition visit_inv (job_id : Z) (st : LoopState) : Prop :=
  visited_urls st = list_to_set (map item_url (scheduled st))
  /\ NoDup (map item_url (scheduled st))
  /\ scheduled st `sublist_of` dequeued st
  /\ map url (crawled_urls (db st)) `sublist_of` map item_url (scheduled st)
  /\ Forall (fun c => crawl_job_id c = job_id) (crawled_urls (db st)).

(** Depths never decrease along what was dequeued followed by the frontier,
    and the frontier spans at most two levels. *)
Definition order_inv (st : LoopState) : Prop :=
  StronglySorted Z.le (map item_depth (dequeued st ++ urls_to_visit st))
  /\ forall x y, x ∈ urls_to_visit st -> y ∈ urls_to_visit st ->
                 item_depth y <= item_depth x + 1.

(** ** Scenarios *)

(** The first of [urlsplit]'s checks of an authority: brackets come in
    pairs.  Its further checks concern bracketed and non-ASCII hosts only. *)
Definition balanced_brackets (n : str) : bool :=
  negb ((has "["%char n && negb (has "]"%char n))
        || (has "]"%char n && negb (has "["%char n))).

Definition no_response : outcome Response :=
  Raise (RequestError (lit "All connection attempts failed")).

Definition found_job (seed : str) (job_id : Z) : outcome (option CrawlJob) :=
  Ret (Some (mkCrawlJob job_id seed IN_PROGRESS None)).

(** [MOCK_HTML] of [tests/test_crawler.py] *)
Definition mock_page : Response :=
  mkResponse (lit "https://example.com") true (Some (lit "Test Page"))
    (map lit ["https://example.com/page1"; "https://example.com/page2";
              "https://example.com/page3"; "https://other-domain.com/page4";
              "/relative-link"]%string).

(** a site that serves [MOCK_HTML] at its root and nothing else *)
Definition mock_site : World :=
  mkWorld
    (fun u => if decide (u = lit "https://example.com") then Ret mock_page
              else no_response)
    (fun _ => None) (fun _ => None) (found_job (lit "https://example.com")).

(** [http://a.example/] redirects to [http://b.example/], whose page links
    to both hosts *)
Definition redirected_page : Response :=
  mkResponse (lit "http://b.example/") true None
    (map lit ["http://b.example/x"; "http://a.example/y"]%string).

Definition redirect_site : World :=
  mkWorld
    (fun u => if decide (u = lit "http://a.example/") then Ret redirected_page
              else no_response)
    (fun _ => None) (fun _ => None) (found_job (lit "http://a.example/")).

(** a front page served at [https://example.com/], whose only link is the
    anchor [#top] *)
Definition home_page : Response :=
  mkResponse (lit "https://example.com/") true (Some (lit "Home"))
    [lit "#top"].

Definition anchored_site : World :=
  mkWorld
    (fun u => if decide (u = lit "https://example.com/#top") then Ret home_page
              else if decide (u = lit "https://example.com/") then Ret home_page
              else no_response)
    (fun _ => None) (fun _ => None)
    (found_job (lit "https://example.com/#top")).

(** a front page with 1008 links to pages that do not answer *)
Definition decimal (n : nat) : str :=
  lit (NilEmpty.string_of_uint (Nat.to_uint n)).

Definition big_page : Response :=
  mkResponse (lit "http://h/") true None
    (map (fun n => lit "/p" ++ decimal n) (seq 0 1008)).

Definition big_site : World :=
  mkWorld
    (fun u => if decide (u = lit "http://h/") then Ret big_page
              else no_response)
    (fun _ => None) (fun _ => None) (found_job (lit "http://h/")).

(** the URLs that the links of [big_page] normalise to *)
Definition big_urls : list str :=
  map (fun n => lit "http://h/p" ++ decimal n) (seq 0 1008).

(** What holds of a run on [big_site] from its second turn on: the frontier
    holds pairwise distinct unvisited URLs of [big_urls], the visited set and
    the frontier together count 1009 URLs, and the visited set has grown by
    tens from one. *)
Definition big_inv (st : LoopState) : Prop :=
  (forall i, i ∈ urls_to_visit st -> item_url i ∈ big_urls)
  /\ NoDup (map item_url (urls_to_visit st))
  /\ (forall i, i ∈ urls_to_visit st -> item_url i ∉ visited_urls st)
  /\ (size (visited_urls st) + length (urls_to_visit st) = 1009)%nat
  /\ exists k, (size (visited_urls st) = 1 + 10 * k)%nat.

(** [mock_site] with a store that refuses the commit of [COMPLETED] *)
Definition flaky_store : World :=
  mkWorld (client_get mock_site) (fun _ => None)
    (fun st => match st with
               | COMPLETED => Some (SQLAlchemyError (lit "server closed the connection"))
               | _ => None
               end)
    (query_job mock_site).

(** [mock_site] with a store that refuses every row of [crawled_urls] *)
Definition readonly_store : World :=
  mkWorld (client_get mock_site)
    (fun _ => Some (SQLAlchemyError (lit "value too long for type")))
    (fun _ => None) (query_job mock_site).

(** [mock_site] with a store that is gone when [_crawl] looks its job up *)
Definition lost_connection : World :=
  mkWorld (client_get mock_site) (fun _ => None) (fun _ => None)
    (fun _ => Raise (SQLAlchemyError (lit "server closed the connection"))).

(** [anchored_site] with a store that refuses the row of
    [https://example.com/] *)
Definition picky_store : World :=
  mkWorld (client_get anchored_site)
    (fun c => if decide (url c = lit "https://example.com/")
              then Some (SQLAlchemyError (lit "value too long for type"))
              else None)
    (fun _ => None) (query_job anchored_site).

(** ** Vocabulary of the exploration properties *)


(** What [_process_url] returns for an item in a session whose transaction
    is active.  The call reads the transport and the verdict of the store
    on the page's row, never the rows already stored; in a session whose
    transaction is no longer active it returns no URL. *)
Definition page_result (vn : str -> bool) (w : World) (self : WebCrawler)
    (job_id : Z) (t : Item) : outcome PageResult :=
  (_process_url vn w self job_id (item_url t) (item_depth t) fresh_session).1.

(** [urlparse(u).netloc == h] *)
Definition on_host (vn : str -> bool) (h u : str) : Prop :=
  exists q, urlparse vn u [] = Some q /\ netloc q = h.

(** What the loop keeps of its bookkeeping, from any session [s0]: the
    visited set is the set of the URLs handed to [_process_url], each handed
    once; every dequeued URL is visited; the rows of [s0] are kept, and the
    rows added carry the job's id and URLs that were handed on, in that
    order. *)
Definition books (job_id : Z) (s0 : Session) (st : LoopState) : Prop :=
  visited_urls st = list_to_set (map item_url (scheduled st))
  /\ NoDup (map item_url (scheduled st))
  /\ scheduled st `sublist_of` dequeued st
  /\ (forall i, i ∈ dequeued st -> item_url i ∈ visited_urls st)
  /\ exists rows,
       crawled_urls (db st) = crawled_urls s0 ++ rows
       /\ map url rows `sublist_of` map item_url (scheduled st)
       /\ Forall (fun c => crawl_job_id c = job_id) rows.

(** the bounds of the depth of an item *)
Definition depth_ok (self : WebCrawler) (i : Item) : Prop :=
  0 <= item_depth i <= Z.max 0 (max_depth self).

(** An item other than the seed: its URL parses to an http or https URL of
    the host [h], without a fragment. *)
Definition kept_on_host (vn : str -> bool) (h : str) (u : str) : Prop :=
  exists q, urlparse vn u [] = Some q /\ netloc q = h
            /\ (scheme q = lit "http" \/ scheme q = lit "https")
            /\ fragment q = [].

(** ** app/schemas.py *)

(** [s.startswith(pre)] *)
Definition startswith (s pre : str) : bool := bool_decide (pre `prefix_of` s).

(** [CrawlJobBase.validate_url] *)
Definition validate_url (v : str) : outcome str :=
  if startswith v (lit "http://") || startswith v (lit "https://") then Ret v
  else Raise (ValueError (lit "URL must start with http:// or https://")).

(** ** The tables behind the endpoints *)

(** A row of [crawl_jobs] with its [created_at], in microseconds; the
    engine never reads that column. *)
Record JobRow := mkJobRow { job_row : CrawlJob; created_at : Z }.

(** A row of [crawled_urls] with its primary key. *)
Record UrlRow := mkUrlRow { url_id : Z; url_row : CrawledUrl }.

(** The two tables, each as the list of its rows in the order in which the
    store returns them to a query that asks for no order; the order is
    taken to be the same from one query to the next. *)
Record Store := mkStore {
  crawl_jobs : list JobRow;
  crawled_url_rows : list UrlRow }.

(** [.filter(CrawlJob.id == job_id).first()] and [CrawlJob.query.get(job_id)] *)
Definition first_job (db : Store) (job_id : Z) : option JobRow :=
  head (filter (fun j => id (job_row j) = job_id) (crawl_jobs db)).

(** [.filter(CrawledUrl.crawl_job_id == job_id)] and
    [.filter_by(crawl_job_id=job_id)] *)
Definition urls_of_job (db : Store) (job_id : Z) : list UrlRow :=
  filter (fun r => crawl_job_id (url_row r) = job_id) (crawled_url_rows db).

(** the largest integer that the store takes as an OFFSET or a LIMIT *)
Definition max_int64 : Z := 2 ^ 63 - 1.

(** [.offset(offset).limit(limit).all()], for the offsets and limits that
    the endpoints pass, which are not negative.  Python's integers are
    unbounded and the store's are 64-bit: [None] is the exception that the
    query raises for a number beyond them. *)
Definition offset_limit {A} (offset limit : Z) (rows : list A)
  : option (list A) :=
  if (offset <=? max_int64) && (limit <=? max_int64)
  then Some (take (Z.to_nat limit) (drop (Z.to_nat offset) rows))
  else None.

(** [.count()] *)
Definition count {A} (rows : list A) : Z := Z.of_nat (length rows).

(** [f"{n}"] for an [int] *)
Definition str_of_int (n : Z) : str :=
  if n <? 0 then "-"%char :: decimal (Z.to_nat (- n))
  else decimal (Z.to_nat n).

(** A query parameter of integer type as the framework at hand reads it:
    missing, present with a text that it does not take for an integer, or
    present with an integer.  FastAPI and Werkzeug each have their own
    reader, and the two need not take the same texts for integers. *)
Inductive QueryParam := Absent | NotInt | Int (v : Z).

(** [PaginatedUrlsResponse], and the dict of the same keys that
    [flask_app.get_crawled_urls] returns *)
Record PaginatedUrls := mkPaginatedUrls {
  urls_total : Z;
  urls_page : Z;
  urls_page_size : Z;
  urls_items : list UrlRow }.

(** [CrawlJobWithUrls], and the dict of the same keys that
    [flask_app.get_crawl_status] returns *)
Record CrawlJobWithUrls := mkCrawlJobWithUrls {
  with_job : JobRow;
  with_crawled_urls : list UrlRow }.

(** What the store does with the job that [start_crawl_job] adds: whether
    [commit] and [refresh] go through, and the primary key and the
    [created_at] that it assigns. *)
Record Insert := mkInsert {
  insert_commit : option exn;
  insert_refresh : option exn;
  insert_id : Z;
  insert_created_at : Z }.

(** [WebCrawler.start_crawl_job], app/crawler.py lines 25-36: the job that
    is returned and the id for which [asyncio.create_task(self._crawl(job.id))]
    creates the task *)
Definition start_crawl_job (ins : Insert) (seed : str) (db : Store)
  : outcome (JobRow * Z) * Store :=
  let job := mkJobRow (mkCrawlJob (insert_id ins) seed IN_PROGRESS None)
                      (insert_created_at ins) in
  match insert_commit ins with
  | Some e => (Raise e, db)
  | None =>
      let db' := mkStore (crawl_jobs db ++ [job]) (crawled_url_rows db) in
      match insert_refresh ins with
      | Some e => (Raise e, db')
      | None => (Ret (job, id (job_row job)), db')
      end
  end.

(** ** app/api.py *)

Module api.

(** What an endpoint answers: its value with the status code of the route,
    an [HTTPException], FastAPI's own 422 for a request that fails the
    declared parameters, or the 500 with which the application answers an
    exception that leaves the route. *)
Inductive reply (A : Type) :=
  | Json (status_code : Z) (content : A)
  | HTTPException (status_code : Z) (detail : str)
  | RequestValidationError
  | InternalServerError.
Arguments Json {A} status_code content.
Arguments HTTPException {A} status_code detail.
Arguments RequestValidationError {A}.
Arguments InternalServerError {A}.

(** [x: int = Query(default, ge=ge, le=le)]; [None] is the 422 *)
Definition Query (default ge : Z) (le : option Z) (q : QueryParam)
  : option Z :=
  match q with
  | Absent => Some default
  | NotInt => None
  | Int v =>
      if (ge <=? v) && match le with Some hi => v <=? hi | None => true end
      then Some v else None
  end.

Definition not_found (job_id : Z) : str :=
  lit "Crawl job with id " ++ str_of_int job_id ++ lit " not found".

(** [start_crawl], lines 25-41: the reply, the id of the crawl task that
    was created, and the store *)
Definition start_crawl (ins : Insert) (seed_url : str) (db : Store)
  : reply JobRow * option Z * Store :=
  match validate_url seed_url with
  | Raise _ => (RequestValidationError, None, db)
  | Ret v =>
      match start_crawl_job ins v db with
      | (Ret (job, task), db') => (Json 201 job, Some task, db')
      | (Raise e, db') =>
          (HTTPException 500
             (lit "Failed to start crawl job: " ++ str_of_exn e), None, db')
      end
  end.

(** [get_crawl_status], lines 43-57 *)
Definition get_crawl_status (db : Store) (job_id : Z)
  : reply CrawlJobWithUrls :=
  match first_job db job_id with
  | None => HTTPException 404 (not_found job_id)
  | Some job =>
      Json 200 (mkCrawlJobWithUrls job (urls_of_job db (id (job_row job))))
  end.

(** [get_crawled_urls], lines 59-89 *)
Definition get_crawled_urls (db : Store) (job_id : Z)
    (page page_size : QueryParam) : reply PaginatedUrls :=
  match Query 1 1 None page, Query 50 1 (Some 100) page_size with
  | Some page, Some page_size =>
      match first_job db job_id with
      | None => HTTPException 404 (not_found job_id)
      | Some _ =>
          let offset := (page - 1) * page_size in
          let total := count (urls_of_job db job_id) in
          match offset_limit offset page_size (urls_of_job db job_id) with
          | Some urls => Json 200 (mkPaginatedUrls total page page_size urls)
          | None => InternalServerError
          end
      end
  | _, _ => RequestValidationError
  end.

(** [list_crawl_jobs], lines 91-101; [order_by] is the store's answer to
    [.order_by(CrawlJob.created_at.desc())] *)
Definition list_crawl_jobs (order_by : list JobRow -> list JobRow)
    (db : Store) (limit offset : QueryParam) : reply (list JobRow) :=
  match Query 10 1 (Some 100) limit, Query 0 0 None offset with
  | Some limit, Some offset =>
      match offset_limit offset limit (order_by (crawl_jobs db)) with
      | Some jobs => Json 200 jobs
      | None => InternalServerError
      end
  | _, _ => RequestValidationError
  end.

End api.

(** ** flask_app.py *)

Module flask_app.

(** [jsonify(content), status_code], [jsonify({"error": error}), status_code],
    and the 500 with which Flask answers an exception that leaves the view *)
Inductive reply (A : Type) :=
  | Json (status_code : Z) (content : A)
  | Error (status_code : Z) (error : str)
  | InternalServerError.
Arguments Json {A} status_code content.
Arguments Error {A} status_code error.
Arguments InternalServerError {A}.

(** [request.args.get(name, default, type=int)]: a text that is no integer
    gives the default *)
Definition args_get (default : Z) (q : QueryParam) : Z :=
  match q with
  | Int v => v
  | _ => default
  end.

(** The JSON body of [POST /api/crawl] as [start_crawl] reads it: no body,
    an empty one or one without [seed_url]; a [seed_url] that is no
    string; a [seed_url] that is a string. *)
Inductive Body := NoSeedUrl | NotAString | SeedUrl (seed_url : str).

(** [start_crawl], lines 376-388: the checks of the request; [None] when
    they pass *)
Definition check_request (vn : str -> bool) (data : Body)
  : option (reply unit) :=
  match data with
  | NoSeedUrl => Some (Error 400 (lit "Invalid request data"))
  | NotAString => Some (Error 400 (lit "Invalid URL format"))
  | SeedUrl seed_url =>
      match urlparse vn seed_url [] with
      | Some parsed_url =>
          if nonempty (scheme parsed_url) && nonempty (netloc parsed_url)
          then None
          else Some (Error 400 (lit "Invalid URL format"))
      | None => Some (Error 400 (lit "Invalid URL format"))
      end
  end.

(** [get_crawl_status], lines 409-433 *)
Definition get_crawl_status (db : Store) (job_id : Z)
  : reply CrawlJobWithUrls :=
  match first_job db job_id with
  | None => Error 404 (lit "Crawl job not found")
  | Some job => Json 200 (mkCrawlJobWithUrls job (urls_of_job db job_id))
  end.

(** [get_crawled_urls], lines 435-471 *)
Definition get_crawled_urls (db : Store) (job_id : Z)
    (page page_size : QueryParam) : reply PaginatedUrls :=
  match first_job db job_id with
  | None => Error 404 (lit "Crawl job not found")
  | Some _ =>
      let page := args_get 1 page in
      let page_size := args_get 50 page_size in
      let page := if page <? 1 then 1 else page in
      let page_size :=
        if (page_size <? 1) || (100 <? page_size) then 50 else page_size in
      let offset := (page - 1) * page_size in
      let total := count (urls_of_job db job_id) in
      match offset_limit offset page_size (urls_of_job db job_id) with
      | Some urls => Json 200 (mkPaginatedUrls total page page_size urls)
      | None => InternalServerError
      end
  end.

(** the dict that [list_crawl_jobs] returns *)
Record PaginatedJobs := mkPaginatedJobs {
  jobs_total : Z;
  jobs_limit : Z;
  jobs_offset : Z;
  jobs_items : list JobRow }.

(** [list_crawl_jobs], lines 473-503 *)
Definition list_crawl_jobs (db : Store) (limit offset : QueryParam)
  : reply PaginatedJobs :=
  let limit := args_get 10 limit in
  let offset := args_get 0 offset in
  let limit := if (limit <? 1) || (100 <? limit) then 10 else limit in
  let offset := if offset <? 0 then 0 else offset in
  let total := count (crawl_jobs db) in
  match offset_limit offset limit (crawl_jobs db) with
  | Some jobs => Json 200 (mkPaginatedJobs total limit offset jobs)
  | None => InternalServerError
  end.

(** [timedelta(days=7)], in microseconds *)
Definition seven_days : Z := 7 * 24 * 60 * 60 * 1000000.

(** [db.session.delete(job)]: the row of the job goes, and with it, by the
    cascade of the [crawled_urls] relationship, the rows of its URLs *)
Definition delete (job : JobRow) (db : Store) : Store :=
  mkStore
    (filter (fun j => id (job_row j) <> id (job_row job)) (crawl_jobs db))
    (filter (fun r => crawl_job_id (url_row r) <> id (job_row job))
            (crawled_url_rows db)).

(** [cleanup_old_jobs], lines 197-211, at the time [utcnow] *)
Definition cleanup_old_jobs (utcnow : Z) (db : Store) : Store :=
  let cutoff_date := utcnow - seven_days in
  let old_jobs := filter (fun j => created_at j < cutoff_date) (crawl_jobs db) in
  let '(session, count) :=
    fold_left (fun '(session, count) job => (delete job session, count + 1))
              old_jobs (db, 0) in
  if 0 <? count then session else db.

End flask_app.

(** a site that does not answer *)
Definition unreachable_site : World :=
  mkWorld (fun _ => no_response) (fun _ => None) (fun _ => None)
    (found_job (lit "https://example.com")).

(** [WebCrawler(db, max_workers=0)] *)
Definition idle_crawler : WebCrawler := mkWebCrawler 0 2 10.

(** [WebCrawler(db, max_depth=0)] *)
Definition shallow_crawler : WebCrawler := mkWebCrawler 10 0 10.

(** a store with a finished job of three URLs and, ten minutes younger, a
    running job of one URL, newest first *)
Definition sample_store : Store :=
  mkStore
    [mkJobRow (mkCrawlJob 2 (lit "https://example.org") IN_PROGRESS None)
              1700000600000000;
     mkJobRow (mkCrawlJob 1 (lit "https://example.com") COMPLETED None)
              1700000000000000]
    [mkUrlRow 1 (mkCrawledUrl (lit "https://example.com")
                              (Some (lit "Test Page")) 1);
     mkUrlRow 2 (mkCrawledUrl (lit "https://example.com/page1") None 1);
     mkUrlRow 3 (mkCrawledUrl (lit "https://example.org") None 2);
     mkUrlRow 4 (mkCrawledUrl (lit "https://example.com/page2") None 1)].

(** a store that accepts the new job and gives it the id 3 *)
Definition sample_insert : Insert := mkInsert None None 3 1700001200000000.

Set Default Proof Using "Type".

(** * Facts about the string helpers *)

Lemma split_once_Some c s a b :
  split_once c s = Some (a, b) -> s = a ++ c :: b /\ c ∉ a.
Proof.
  revert a. induction s as [|x s IH]; intros a; simpl; [done|].
  destruct (decide (x = c)) as [->|Hne].
  - intros [= <- <-]. split; [done|]. apply not_elem_of_nil.
  - destruct (split_once c s) as [[a' b']|]; [|done].
    intros [= <- <-]. destruct (IH a' eq_refl) as [-> Hnot].
    split; [done|]. intros [->|?]%elem_of_cons; [done|auto].
Qed.

Lemma split_once_None c s : split_once c s = None -> c ∉ s.
Proof.
  induction s as [|x s IH]; simpl; [intros _; apply not_elem_of_nil|].
  destruct (decide (x = c)) as [->|Hne]; [done|].
  destruct (split_once c s) as [[a' b']|]; [done|].
  intros _ [->|?]%elem_of_cons; [done|]. by apply IH.
Qed.

Lemma split_once_app c a b : c ∉ a -> split_once c (a ++ c :: b) = Some (a, b).
Proof.
  induction a as [|x a IH]; simpl; intros Hc.
  - by rewrite decide_True.
  - apply not_elem_of_cons in Hc as [Hne Hc].
    rewrite decide_False by done. by rewrite IH.
Qed.

Lemma split_once_notin c s : c ∉ s -> split_once c s = None.
Proof.
  induction s as [|x s IH]; simpl; [done|]. intros [Hne Hc]%not_elem_of_cons.
  rewrite decide_False by done. by rewrite IH.
Qed.

Lemma span_netloc_spec s a b :
  span_netloc s = (a, b) ->
  s = a ++ b /\ Forall (fun c => ~ is_delim c) a
  /\ (b = [] \/ exists c b', b = c :: b' /\ is_delim c).
Proof.
  revert a. induction s as [|x s IH]; intros a; simpl.
  - intros [= <- <-]. split_and!; [done|constructor|by left].
  - destruct (bool_decide (x = "/"%char) || bool_decide (x = "?"%char)
              || bool_decide (x = "#"%char)) eqn:E.
    + intros [= <- <-]. split_and!; [done|constructor|right].
      exists x, s. split; [done|]. unfold is_delim.
      repeat (apply orb_true_iff in E as [E|E]);
        apply bool_decide_eq_true in E; auto.
    + destruct (span_netloc s) as [a' b']. intros [= <- <-].
      destruct (IH a' eq_refl) as (-> & Ha & Hb).
      split_and!; [done| |done]. constructor; [|done].
      apply orb_false_iff in E as [E E3]. apply orb_false_iff in E as [E1 E2].
      apply bool_decide_eq_false in E1, E2, E3. unfold is_delim. tauto.
Qed.

Lemma span_netloc_app a b :
  Forall (fun c => ~ is_delim c) a ->
  (b = [] \/ exists c b', b = c :: b' /\ is_delim c) ->
  span_netloc (a ++ b) = (a, b).
Proof.
  intros Ha Hb. induction Ha as [|x a Hx Ha IH]; simpl.
  - destruct Hb as [->|(c & b' & -> & Hc)]; [done|]. simpl.
    destruct Hc as [->|[->| ->]]; reflexivity.
  - rewrite IH. unfold is_delim in Hx.
    rewrite !bool_decide_eq_false_2 by tauto. done.
Qed.

Lemma rsplit_after_spec c s :
  s = (rsplit_after c s).1 ++ (rsplit_after c s).2 /\ c ∉ (rsplit_after c s).2.
Proof.
  induction s as [|x s [IH1 IH2]]; simpl; [split; [done|apply not_elem_of_nil]|].
  destruct (rsplit_after c s) as [a b]. simpl in *. unfold has.
  destruct (decide (c ∈ s)) as [Hin|Hin].
  - rewrite bool_decide_eq_true_2 by done. simpl. split; [by f_equal|done].
  - rewrite bool_decide_eq_false_2 by done.
    destruct (decide (x = c)) as [->|Hne]; simpl; [done|].
    split; [done|]. intros [->|?]%elem_of_cons; done.
Qed.

Lemma rsplit_after_notin c s : c ∉ s -> rsplit_after c s = ([], s).
Proof.
  induction s as [|x s IH]; simpl; [done|]. intros [Hne Hc]%not_elem_of_cons.
  rewrite IH by done. unfold has. rewrite bool_decide_eq_false_2 by done.
  by rewrite decide_False by done.
Qed.

Lemma rsplit_after_app c a b :
  c ∉ b ->
  rsplit_after c (a ++ b) = ((rsplit_after c a).1, (rsplit_after c a).2 ++ b).
Proof.
  intros Hb. induction a as [|x a IH]; simpl.
  - by rewrite rsplit_after_notin.
  - rewrite IH. destruct (rsplit_after c a) as [a1 a2]. simpl. unfold has.
    destruct (decide (c ∈ a)) as [Hin|Hin].
    + rewrite !bool_decide_eq_true_2; [done|done|]. apply elem_of_app. by left.
    + rewrite !bool_decide_eq_false_2; [|done|].
      * by destruct (decide (x = c)).
      * intros [?|?]%elem_of_app; done.
Qed.

Lemma rsplit_after_fst c s :
  (rsplit_after c (rsplit_after c s).1).2 = [].
Proof.
  induction s as [|x s IH]; simpl; [done|].
  pose proof (rsplit_after_spec c s) as [Hs Hnot].
  destruct (rsplit_after c s) as [a b]. simpl in *. unfold has.
  destruct (decide (c ∈ s)) as [Hin|Hin].
  - rewrite bool_decide_eq_true_2 by done. simpl.
    destruct (rsplit_after c a) as [a1 a2]. simpl in *. subst a2.
    assert (c ∈ a) by (rewrite Hs in Hin; apply elem_of_app in Hin as [?|?]; done).
    unfold has. by rewrite bool_decide_eq_true_2.
  - rewrite bool_decide_eq_false_2 by done.
    destruct (decide (x = c)) as [->|Hne]; simpl; [|done].
    by rewrite decide_True.
Qed.

Lemma lstrip_keeps p c s : p c = false -> lstrip p (c :: s) = c :: s.
Proof. intros H. simpl. by rewrite H. Qed.

Lemma remove_unsafe_safe s : safe (remove_unsafe s).
Proof.
  unfold safe, remove_unsafe. apply Forall_forall.
  by intros c [? _]%list_elem_of_filter.
Qed.

Lemma remove_unsafe_id s : safe s -> remove_unsafe s = s.
Proof.
  unfold safe, remove_unsafe. induction 1 as [|c s Hc Hs IH]; [done|].
  rewrite filter_cons, decide_True by done. by rewrite IH.
Qed.

Lemma split_scheme_spec d s sch rest :
  split_scheme d s = (sch, rest) ->
  (sch = d /\ rest = s) \/ (exists pre, s = pre ++ ":"%char :: rest).
Proof.
  unfold split_scheme.
  destruct (split_once ":"%char s) as [[[|c pre] r]|] eqn:E;
    try (intros [= <- <-]; by left).
  destruct (is_ascii_alpha c && forallb is_scheme_char (c :: pre));
    intros [= <- <-]; [right|by left].
  apply split_once_Some in E as [-> _]. by eexists.
Qed.

Lemma cut_spec c s a b :
  cut c s = (a, b) -> c ∉ a /\ (s = a ++ c :: b \/ (s = a /\ b = [])).
Proof.
  unfold cut. destruct (split_once c s) as [[a' b']|] eqn:E.
  - intros [= <- <-]. apply split_once_Some in E as [-> ?]. auto.
  - intros [= <- <-]. apply split_once_None in E. auto.
Qed.

Lemma cut_head c h t a b :
  cut c (h :: t) = (a, b) ->
  (h = c /\ a = []) \/ (h <> c /\ exists t', a = h :: t').
Proof.
  unfold cut. simpl. destruct (decide (h = c)) as [->|Hne].
  - intros [= <- <-]. by left.
  - destruct (split_once c t) as [[a' b']|]; intros [= <- <-]; right; eauto.
Qed.

Lemma cut_nil c : cut c [] = ([], []).
Proof. done. Qed.

Lemma cut_notin c s : c ∉ s -> cut c s = (s, []).
Proof. intros H. unfold cut. by rewrite split_once_notin. Qed.

Lemma cut_app c a b : c ∉ a -> cut c (a ++ c :: b) = (a, b).
Proof. intros H. unfold cut. by rewrite split_once_app. Qed.

Lemma safe_app a b : safe (a ++ b) <-> safe a /\ safe b.
Proof. unfold safe. by rewrite Forall_app. Qed.

Lemma safe_cons c s : safe (c :: s) <-> is_unsafe c = false /\ safe s.
Proof. unfold safe. by rewrite Forall_cons. Qed.

Lemma starts_with_slash_rsplit s :
  starts_with_slash s = true ->
  starts_with_slash ((rsplit_after "/"%char s).1 ++ []) = true
  /\ (rsplit_after "/"%char s).1 <> [].
Proof.
  destruct s as [|x s]; simpl; [done|]. intros ->%bool_decide_eq_true.
  destruct (rsplit_after "/"%char s) as [a b].
  destruct (has "/"%char s); simpl; done.
Qed.

Ltac split_notin :=
  repeat match goal with
    | H : _ ∉ _ ++ _ |- _ => apply not_elem_of_app in H as [? ?]
    | H : _ ∉ _ :: _ |- _ => apply not_elem_of_cons in H as [? ?]
    end.

(** * Facts about [urlsplit] and [urlparse] *)

Section UrlFacts.

Variable valid_netloc : str -> bool.

Lemma urlsplit_wf x d r :
urlsplit valid_netloc x d = Some r -> s_netloc r <> [] -> wf_split valid_netloc r.
Proof.
unfold urlsplit.
pose proof (remove_unsafe_safe (lstrip is_c0_or_space x)) as Hx2.
set (x2 := remove_unsafe (lstrip is_c0_or_space x)) in *.
destruct (split_scheme _ x2) as [sch x3] eqn:Es.
assert (Hx3 : safe x3).
{ apply split_scheme_spec in Es as [[_ ->]|[pre ->]]; [done|].
  apply safe_app in Hx2 as [_ Hx2]. by apply safe_cons in Hx2 as [_ ?]. }
destruct (starts_with_slashes x3) eqn:Ess.
2:{ simpl. destruct (cut "#"%char x3) as [a f].
    destruct (cut "?"%char a) as [pth q]. intros [= <-] Hne. by destruct Hne. }
unfold _splitnetloc. destruct (span_netloc (drop 2 x3)) as [n x4] eqn:En.
destruct (valid_netloc n) eqn:Ev; [|done].
apply span_netloc_spec in En as (Hdrop & Hn & Hx4).
assert (Hsafe : safe (n ++ x4)) by (rewrite <- Hdrop; by apply Forall_drop).
apply safe_app in Hsafe as [Hsn Hs4].
destruct (cut "#"%char x4) as [a f] eqn:Ef.
destruct (cut "?"%char a) as [pth q] eqn:Eq.
intros [= <-] _.
pose proof (cut_spec _ _ _ _ Ef) as [Hfa Hf].
pose proof (cut_spec _ _ _ _ Eq) as [Hqp Hq].
assert (Hsa : safe a /\ safe f).
{ destruct Hf as [->|[-> ->]]; [|by split; [|constructor]].
  apply safe_app in Hs4 as [? [_ ?]%safe_cons]. done. }
destruct Hsa as [Hsa Hsf].
assert (Hsp : safe pth /\ safe q /\ "#"%char ∉ pth /\ "#"%char ∉ q).
{ destruct Hq as [->|[-> ->]].
  - apply safe_app in Hsa as [? [_ ?]%safe_cons].
    rewrite not_elem_of_app, not_elem_of_cons in Hfa. tauto.
  - split_and!; [done|constructor|done|apply not_elem_of_nil]. }
destruct Hsp as (Hspth & Hsq & Hpf & Hqf).
constructor; simpl; try done.
destruct Hx4 as [->|(c & x4' & -> & Hc)].
- rewrite cut_nil in Ef. injection Ef as <- <-.
  rewrite cut_nil in Eq. injection Eq as <- <-. by left.
- destruct (cut_head _ _ _ _ _ Ef) as [[-> ->]|[Hne [a' ->]]].
  + rewrite cut_nil in Eq. injection Eq as <- <-. by left.
  + destruct (cut_head _ _ _ _ _ Eq) as [[-> ->]|[Hne' [p' ->]]]; [by left|].
    right. destruct Hc as [->|[->| ->]]; done.
Qed.

Lemma urlsplit_urlunsplit r d :
wf_split valid_netloc r ->
s_scheme r = lit "http" \/ s_scheme r = lit "https" ->
s_netloc r <> [] ->
s_fragment r = [] ->
urlsplit valid_netloc (urlunsplit r) d = Some r.
Proof.
destruct r as [sch n pth q f]. intros [Hsn Hsp Hsq Hn [Hpq Hpf] Hqf Hroot Hv].
simpl in *. intros Hsch Hne ->.
set (tail := pth ++ if nonempty q then "?"%char :: q else []).
assert (Hun : urlunsplit (mkSplit sch n pth q [])
              = sch ++ ":"%char :: "/"%char :: "/"%char :: n ++ tail).
{ unfold urlunsplit, tail. simpl.
  assert (nonempty n = true) as -> by (by destruct n).
  assert (nonempty pth && negb (starts_with_slash pth) = false) as ->.
  { destruct Hroot as [->| ->]; [done|]. by rewrite andb_false_r. }
  assert (nonempty sch = true) as -> by (by destruct Hsch as [->| ->]).
  simpl. destruct (nonempty q); simpl.
  - rewrite <- app_assoc. simpl. by rewrite <- app_assoc.
  - by rewrite app_nil_r. }
assert (Htail_safe : safe tail).
{ unfold tail. apply safe_app. split; [done|].
  destruct (nonempty q); [|constructor]. by apply safe_cons. }
assert (Htail_frag : "#"%char ∉ tail).
{ unfold tail. rewrite not_elem_of_app. split; [done|].
  destruct (nonempty q); [|apply not_elem_of_nil].
  by apply not_elem_of_cons. }
assert (Htail_head : tail = [] \/ exists c t, tail = c :: t /\ is_delim c).
{ unfold tail. destruct Hroot as [->|Hroot]; simpl.
  - destruct (nonempty q); [right|by left].
    eexists _, _. split; [done|]. unfold is_delim. auto.
  - destruct pth as [|c pth']; [done|]. simpl in Hroot.
    apply bool_decide_eq_true in Hroot as ->. right.
    eexists _, _. split; [done|]. unfold is_delim. auto. }
assert (Htail_cut : cut "?"%char tail = (pth, q)).
{ unfold tail. destruct q as [|c q']; simpl.
  - rewrite app_nil_r. by apply cut_notin.
  - by apply cut_app. }
rewrite Hun. unfold urlsplit.
assert (Hstrip : lstrip is_c0_or_space
                   (sch ++ ":"%char :: "/"%char :: "/"%char :: n ++ tail)
                 = sch ++ ":"%char :: "/"%char :: "/"%char :: n ++ tail)
  by (by destruct Hsch as [->| ->]).
rewrite Hstrip.
rewrite (remove_unsafe_id
           (sch ++ ":"%char :: "/"%char :: "/"%char :: n ++ tail)).
2:{ apply safe_app. split.
    - destruct Hsch as [->| ->]; by repeat constructor.
    - repeat (apply safe_cons; split; [done|]). apply safe_app. by split. }
assert (Hscheme : forall d',
           split_scheme d'
             (sch ++ ":"%char :: "/"%char :: "/"%char :: n ++ tail)
           = (sch, "/"%char :: "/"%char :: n ++ tail)).
{ intros d'. unfold split_scheme. rewrite split_once_app.
  - by destruct Hsch as [->| ->].
  - destruct Hsch as [->| ->]; unfold lit; simpl; rewrite !not_elem_of_cons;
      split_and!; try done; apply not_elem_of_nil. }
rewrite Hscheme. simpl. unfold _splitnetloc. simpl. rewrite drop_0.
rewrite span_netloc_app by done. rewrite Hv.
rewrite cut_notin by done. by rewrite Htail_cut.
Qed.

Lemma urlparse_wf x d p :
urlparse valid_netloc x d = Some p ->
netloc p <> [] ->
member (scheme p) uses_params = true ->
wf_parse valid_netloc p.
Proof.
unfold urlparse. destruct (urlsplit valid_netloc x d) as [r|] eqn:E; [|done].
destruct (member (s_scheme r) uses_params && has ";"%char (s_path r)) eqn:Ep.
- unfold _splitparams.
  pose proof (rsplit_after_spec "/"%char (s_path r)) as [Hsplit Hlast].
  pose proof (rsplit_after_fst "/"%char (s_path r)) as Hdir.
  destruct (rsplit_after "/"%char (s_path r)) as [dir last] eqn:Er.
  simpl in *.
  destruct (split_once ";"%char last) as [[a b]|] eqn:Es.
  + intros [= <-]. simpl. intros Hne _.
    destruct (urlsplit_wf _ _ _ E Hne) as [Hsn Hsp Hsq Hn [Hpq Hpf] Hqf Hroot Hv].
    apply split_once_Some in Es as [-> Ha].
    rewrite Hsplit in Hsp, Hpq, Hpf.
    split_notin.
    apply safe_app in Hsp as [Hsdir [Hsa [_ Hsb]%safe_cons]%safe_app].
    constructor; simpl; try done.
    * apply safe_app. by split.
    * rewrite !not_elem_of_app. tauto.
    * right. destruct Hroot as [Hnil|Hroot].
      { rewrite Hnil in Hsplit. apply (f_equal length) in Hsplit.
        rewrite !length_app in Hsplit. simpl in Hsplit. lia. }
      pose proof (starts_with_slash_rsplit _ Hroot) as [_ Hd].
      rewrite Er in Hd. simpl in Hd.
      rewrite Hsplit in Hroot. by destruct dir.
    * rewrite rsplit_after_app by tauto. simpl. by rewrite Hdir.
  + intros [= <-]. simpl. intros Hne _.
    destruct (urlsplit_wf _ _ _ E Hne) as [Hsn Hsp Hsq Hn [Hpq Hpf] Hqf Hroot Hv].
    apply split_once_None in Es.
    constructor; simpl; try done.
    * constructor.
    * split_and!; apply not_elem_of_nil.
    * destruct Hroot; auto.
    * by rewrite Er.
- intros [= <-]. simpl. intros Hne Hmem.
  destruct (urlsplit_wf _ _ _ E Hne) as [Hsn Hsp Hsq Hn [Hpq Hpf] Hqf Hroot Hv].
  rewrite Hmem in Ep. simpl in Ep. apply bool_decide_eq_false in Ep.
  pose proof (rsplit_after_spec "/"%char (s_path r)) as [Hsplit Hlast].
  constructor; simpl; try done.
  + constructor.
  + split_and!; apply not_elem_of_nil.
  + destruct Hroot; auto.
  + intros Hin. apply Ep. rewrite Hsplit. apply elem_of_app. by right.
Qed.

Lemma urlparse_urlunparse p d :
wf_parse valid_netloc p ->
scheme p = lit "http" \/ scheme p = lit "https" ->
netloc p <> [] ->
fragment p = [] ->
urlparse valid_netloc (urlunparse p) d = Some p.
Proof.
destruct p as [sch n pth prm q f].
intros [Hsn Hsp Hsprm Hsq Hn [Hpq Hpf] (Hmq & Hmf & Hms) Hqf Hroot Hlast Hv].
simpl in *. intros Hsch Hne ->.
unfold urlunparse, urlparse. simpl.
set (url := if nonempty prm then pth ++ ";"%char :: prm else pth).
rewrite urlsplit_urlunsplit; simpl; try done.
2:{ constructor; simpl; try done.
    - unfold url. destruct (nonempty prm); [|done].
      apply safe_app. split; [done|]. by apply safe_cons.
    - unfold url. destruct (nonempty prm); [|done].
      rewrite !not_elem_of_app, !not_elem_of_cons. done.
    - unfold url. destruct Hroot as [[-> ->]|Hroot]; [by left|right].
      destruct (nonempty prm); [|done]. by destruct pth. }
assert (member sch uses_params = true) as ->
  by (by destruct Hsch as [->| ->]).
simpl. unfold url. destruct prm as [|c prm']; simpl.
- destruct (has ";"%char pth) eqn:Eh; [|done].
  unfold _splitparams. destruct (rsplit_after "/"%char pth) as [dir last].
  simpl in Hlast. by rewrite split_once_notin.
- assert (has ";"%char (pth ++ ";"%char :: c :: prm') = true) as ->.
  { apply bool_decide_eq_true. apply elem_of_app. right. by left. }
  unfold _splitparams. rewrite rsplit_after_app.
  2:{ rewrite not_elem_of_cons. done. }
  pose proof (rsplit_after_spec "/"%char pth) as [Hsplit _].
  destruct (rsplit_after "/"%char pth) as [dir last]. simpl in *.
  rewrite split_once_app by done. by rewrite <- Hsplit.
Qed.

End UrlFacts.

(** * Facts about link normalisation *)

Lemma scope_link_Some vn b u href x :
  scope_link vn b u href = Some (Some x) <->
  exists abs p,
    urljoin vn u href = Some abs
    /\ urlparse vn abs [] = Some p
    /\ (scheme p = lit "http" \/ scheme p = lit "https")
    /\ netloc p = netloc b
    /\ x = geturl (replace_fragment p []).
Proof.
  unfold scope_link.
  destruct (urljoin vn u href) as [abs|]; simpl;
    [|split; [done|by intros (? & ? & [=] & _)]].
  destruct (urlparse vn abs []) as [p|] eqn:Ep; simpl;
    [|split; [done|intros (? & ? & [= <-] & ? & _); congruence]].
  split.
  - destruct ((bool_decide (scheme p = lit "http")
               || bool_decide (scheme p = lit "https"))
              && bool_decide (netloc p = netloc b)) eqn:E; [|done].
    intros [= <-]. apply andb_true_iff in E as [Hs Hn].
    apply bool_decide_eq_true in Hn. exists abs, p. split_and!; try done.
    apply orb_true_iff in Hs as [Hs|Hs]; apply bool_decide_eq_true in Hs; auto.
  - intros (abs' & p' & [= <-] & Hp' & Hs & Hn & ->).
    rewrite Ep in Hp'. injection Hp' as <-.
    rewrite (bool_decide_eq_true_2 _ Hn), andb_true_r.
    destruct Hs as [Hs|Hs]; rewrite (bool_decide_eq_true_2 _ Hs); simpl;
      by rewrite ?orb_true_r.
Qed.

Lemma scope_link_None_kept vn b u href abs p :
  urljoin vn u href = Some abs ->
  urlparse vn abs [] = Some p ->
  ~ ((scheme p = lit "http" \/ scheme p = lit "https") /\ netloc p = netloc b) ->
  scope_link vn b u href = Some None.
Proof.
  intros Hj Hp Hn. unfold scope_link. rewrite Hj. simpl. rewrite Hp. simpl.
  destruct (bool_decide (scheme p = lit "http")) eqn:E1;
    destruct (bool_decide (scheme p = lit "https")) eqn:E2;
    destruct (bool_decide (netloc p = netloc b)) eqn:E3; simpl; try done;
    try apply bool_decide_eq_true in E1; try apply bool_decide_eq_true in E2;
    try apply bool_decide_eq_true in E3; tauto.
Qed.

Lemma extract_links_Some vn b u links l :
  extract_links vn b u links = Some l ->
  forall x, x ∈ l <-> exists href, href ∈ links
                                   /\ scope_link vn b u href = Some (Some x).
Proof.
  revert l. induction links as [|href rest IH]; intros l; simpl.
  - intros [= <-] x. split; [by intros ?%elem_of_nil|].
    by intros (? & ?%elem_of_nil & _).
  - destruct (scope_link vn b u href) as [r|] eqn:E; simpl; [|done].
    destruct (extract_links vn b u rest) as [urls|]; simpl; [|done].
    intros [= <-] x. specialize (IH urls eq_refl x).
    destruct r as [y|].
    + rewrite elem_of_cons, IH. split.
      * intros [->|(h & ? & ?)]; [exists href|exists h];
          (split; [by constructor|done]).
      * intros (h & [->|?]%elem_of_cons & Hh); [left; congruence|right; eauto].
    + rewrite IH. split.
      * intros (h & ? & ?). exists h. split; [by constructor|done].
      * intros (h & [->|?]%elem_of_cons & Hh); [congruence|eauto].
Qed.

Lemma extract_links_total vn b u links :
  (forall href, href ∈ links -> scope_link vn b u href <> None) ->
  exists l, extract_links vn b u links = Some l.
Proof.
  induction links as [|href rest IH]; intros Hall; simpl; [by eauto|].
  destruct (scope_link vn b u href) as [r|] eqn:E; simpl.
  - destruct IH as [l ->]; [|simpl; eauto].
    intros h Hh. apply Hall. by constructor.
  - destruct (Hall href); [by constructor|done].
Qed.

(** [extract_links] raises exactly when [urllib] raises on one of the
    links. *)
Lemma extract_links_None vn b u links :
  extract_links vn b u links = None ->
  exists href, href ∈ links /\ scope_link vn b u href = None.
Proof.
  induction links as [|href rest IH]; simpl; [done|].
  destruct (scope_link vn b u href) as [r|] eqn:E; simpl.
  - destruct (extract_links vn b u rest) as [urls|]; simpl; [done|].
    intros _. destruct IH as (h & ? & ?); [done|].
    exists h. split; [by constructor|done].
  - intros _. exists href. split; [by constructor|done].
Qed.

Lemma elem_of_list_set x l : x ∈ list_set l <-> x ∈ l.
Proof. unfold list_set. by rewrite elem_of_elements, elem_of_list_to_set. Qed.

Lemma replace_fragment_idem p : replace_fragment (replace_fragment p []) []
                                = replace_fragment p [].
Proof. done. Qed.

(** Normalising a kept URL against itself gives it back, when it has an
    authority. *)
Lemma scope_link_self vn x d p :
  urlparse vn x d = Some p ->
  scheme p = lit "http" \/ scheme p = lit "https" ->
  netloc p <> [] ->
  let kept := replace_fragment p [] in
  (forall d', urlparse vn (geturl kept) d' = Some kept)
  /\ scope_link vn kept (geturl kept) (geturl kept) = Some (Some (geturl kept)).
Proof.
  intros Hp Hsch Hne kept.
  assert (Hwf : wf_parse vn kept).
  { assert (Hmem : member (scheme p) uses_params = true)
      by (by destruct Hsch as [->| ->]).
    destruct (urlparse_wf vn _ _ _ Hp Hne Hmem). by constructor. }
  assert (Hround : forall d', urlparse vn (geturl kept) d' = Some kept).
  { intros d'. by apply urlparse_urlunparse. }
  split; [done|].
  assert (Hnonempty : nonempty (geturl kept) = true).
  { destruct (geturl kept) eqn:Eg; [|done].
    specialize (Hround []).
    pose proof (f_equal (fmap netloc) Hround) as Hk. simpl in Hk.
    injection Hk as Hk. congruence. }
  assert (Hjoin : urljoin vn (geturl kept) (geturl kept) = Some (geturl kept)).
  { unfold urljoin. rewrite Hnonempty. simpl. rewrite !Hround.
    rewrite bool_decide_eq_true_2 by done. simpl.
    assert (member (scheme p) uses_relative = true) as ->
      by (by destruct Hsch as [->| ->]).
    assert (member (scheme p) uses_netloc = true) as ->
      by (by destruct Hsch as [->| ->]).
    assert (nonempty (netloc p) = true) as -> by (by destruct (netloc p)).
    done. }
  unfold scope_link. rewrite Hjoin. simpl. rewrite Hround. simpl.
  assert (bool_decide (scheme p = lit "http")
          || bool_decide (scheme p = lit "https") = true) as ->.
  { destruct Hsch as [->| ->]; done. }
  by rewrite bool_decide_eq_true_2.
Qed.

(** * Facts about [_process_url] *)

Section ProcessFacts.

Variable valid_netloc : str -> bool.
Variable w : World.
Variable self : WebCrawler.

(** What [_process_url] computes, branch by branch. *)
Lemma process_url_unfold job_id u d s :
  _process_url valid_netloc w self job_id u d s =
  match client_get w u with
  | Raise _ => (Ret (empty_result d), s)
  | Ret response =>
      if is_success response then
        let row := mkCrawledUrl u (soup_title response) job_id in
        match rollback_exception s with
        | Some _ => (Ret (empty_result d), s)
        | None =>
            match commit_url w row with
            | Some e => (Ret (empty_result d), deactivate e s)
            | None =>
                if d <? max_depth self then
                  match urlparse valid_netloc u [] with
                  | None => (Ret (empty_result d), add_row s row)
                  | Some b =>
                      match extract_links valid_netloc b u (soup_links response) with
                      | None => (Ret (empty_result d), add_row s row)
                      | Some new => (Ret (mkPageResult d (list_set new)), add_row s row)
                      end
                  end
                else (Ret (empty_result d), add_row s row)
            end
        end
      else (Ret (empty_result d), s)
  end.
Proof.
  unfold _process_url, try_except, process_url_body, get, raise_for_status,
    db_add_commit, parse_or_raise, mbind, M_bind, mret, M_ret, raise, add_row.
  destruct (client_get w u) as [response|e]; [|by destruct e].
  destruct (is_success response); [|done].
  destruct (rollback_exception s) as [orig|] eqn:Es; [done|].
  destruct (commit_url w _) as [e|]; [by destruct e|].
  destruct (d <? max_depth self); [|done].
  destruct (urlparse valid_netloc u []) as [b|]; [|done].
  by destruct (extract_links valid_netloc b u (soup_links response)).
Qed.

Lemma process_url_returns job_id u d s :
  exists r s', _process_url valid_netloc w self job_id u d s = (Ret r, s')
               /\ depth r = d.
Proof.
  rewrite process_url_unfold.
  cbv zeta.
  destruct (client_get w u) as [response|e]; [|by eauto].
  destruct (is_success response); [|by eauto].
  destruct (rollback_exception s); [by eauto|].
  destruct (commit_url w _); [by eauto|].
  destruct (d <? max_depth self); [|by eauto].
  destruct (urlparse valid_netloc u []) as [b|]; [|by eauto].
  destruct (extract_links valid_netloc b u _); by eauto.
Qed.

(** In a session whose transaction is no longer active, a call returns no
    URL and leaves the session as it was. *)
Lemma process_url_inactive job_id u d s :
  is_active s = false ->
  _process_url valid_netloc w self job_id u d s = (Ret (empty_result d), s).
Proof.
  unfold is_active. intros Hs. rewrite process_url_unfold. cbv zeta.
  destruct (client_get w u) as [response|e]; [|done].
  destruct (is_success response); [|done].
  by destruct (rollback_exception s).
Qed.

(** In an active session the result of a call is the same whatever the
    session has stored. *)
Lemma process_url_active job_id u d s1 s2 :
  is_active s1 = true -> is_active s2 = true ->
  (_process_url valid_netloc w self job_id u d s1).1
  = (_process_url valid_netloc w self job_id u d s2).1.
Proof.
  unfold is_active. intros H1 H2. rewrite !process_url_unfold. cbv zeta.
  destruct (client_get w u) as [response|e]; [|done].
  destruct (is_success response); [|done].
  destruct (rollback_exception s1); [done|].
  destruct (rollback_exception s2); [done|].
  destruct (commit_url w _); [done|].
  destruct (d <? max_depth self); [|done].
  destruct (urlparse valid_netloc u []) as [b|]; [|done].
  by destruct (extract_links valid_netloc b u _).
Qed.

(** A session that is active after a call was active before it. *)
Lemma process_url_stays_inactive job_id u d s :
  is_active (_process_url valid_netloc w self job_id u d s).2 = true ->
  is_active s = true.
Proof.
  destruct (is_active s) eqn:Hs; [done|].
  rewrite process_url_inactive by done. simpl. by rewrite Hs.
Qed.

Lemma lookup_job_active job_id s :
  is_active s = true -> lookup_job w job_id s = query_job w job_id.
Proof.
  unfold is_active, lookup_job. by destruct (rollback_exception s).
Qed.

Lemma lookup_job_inactive job_id s :
  is_active s = false -> exists e, lookup_job w job_id s = Raise e.
Proof.
  unfold is_active, lookup_job.
  destruct (rollback_exception s); [by eauto|done].
Qed.

End ProcessFacts.

(** * Facts about one iteration of the loop *)

Lemma schedule_spec batch : forall visited v tasks,
  schedule visited batch = (v, tasks) ->
  v = visited ∪ list_to_set (map item_url tasks)
  /\ NoDup (map item_url tasks)
  /\ (forall u, u ∈ map item_url tasks -> u ∉ visited)
  /\ tasks `sublist_of` batch.
Proof.
  induction batch as [|item rest IH]; intros visited v tasks; simpl.
  - intros [= <- <-]. simpl. split_and!; [set_solver|constructor|set_solver|constructor].
  - destruct (decide (item_url item ∈ visited)) as [Hin|Hin].
    + intros H. destruct (IH _ _ _ H) as (-> & ? & ? & ?).
      split_and!; auto. by apply sublist_cons.
    + destruct (schedule _ rest) as [v' tasks'] eqn:E. intros [= <- <-].
      destruct (IH _ _ _ E) as (-> & Hnd & Hfresh & Hsub). simpl.
      split_and!.
      * set_solver.
      * constructor; [|done]. intros Hu. apply Hfresh in Hu. set_solver.
      * intros u [->|Hu]%elem_of_cons; [done|]. apply Hfresh in Hu. set_solver.
      * by apply sublist_skip.
Qed.

Lemma schedule_size batch visited v tasks :
  schedule visited batch = (v, tasks) ->
  size v = (size visited + length tasks)%nat.
Proof.
  intros (-> & Hnd & Hfresh & _)%schedule_spec.
  rewrite size_union.
  - by rewrite size_list_to_set, length_map.
  - intros u Hu Hu'. apply elem_of_list_to_set in Hu'. by apply Hfresh in Hu'.
Qed.


Section LoopFacts.

Variable valid_netloc : str -> bool.
Variable w : World.
Variable self : WebCrawler.
Variable job_id : Z.

(** Rows that one call of [_process_url] adds. *)
Lemma process_url_session u d s r s' :
  _process_url valid_netloc w self job_id u d s = (r, s') ->
  exists rows,
    crawled_urls s' = crawled_urls s ++ rows
    /\ (rows = [] \/ exists t, rows = [mkCrawledUrl u t job_id])
    /\ committed_status s' = committed_status s
    /\ committed_error s' = committed_error s
    /\ status_commits s' = status_commits s.
Proof.
  rewrite process_url_unfold. cbv zeta.
  assert (Hsame : forall s0,
             crawled_urls s0 = crawled_urls s ->
             committed_status s0 = committed_status s ->
             committed_error s0 = committed_error s ->
             status_commits s0 = status_commits s ->
             exists rows, crawled_urls s0 = crawled_urls s ++ rows
             /\ (rows = [] \/ exists t, rows = [mkCrawledUrl u t job_id])
             /\ committed_status s0 = committed_status s
             /\ committed_error s0 = committed_error s
             /\ status_commits s0 = status_commits s).
  { intros s0 ? ? ? ?. exists []. rewrite app_nil_r. auto. }
  assert (Hadd : forall t, exists rows,
             crawled_urls (add_row s (mkCrawledUrl u t job_id))
             = crawled_urls s ++ rows
             /\ (rows = [] \/ exists t, rows = [mkCrawledUrl u t job_id])
             /\ committed_status (add_row s (mkCrawledUrl u t job_id))
                = committed_status s
             /\ committed_error (add_row s (mkCrawledUrl u t job_id))
                = committed_error s
             /\ status_commits (add_row s (mkCrawledUrl u t job_id))
                = status_commits s).
  { intros t. exists [mkCrawledUrl u t job_id]. simpl. eauto 10. }
  destruct (client_get w u) as [response|e]; [|by intros [= <- <-]; apply Hsame].
  destruct (is_success response); [|by intros [= <- <-]; apply Hsame].
  destruct (rollback_exception s); [by intros [= <- <-]; apply Hsame|].
  destruct (commit_url w _); [by intros [= <- <-]; apply Hsame|].
  destruct (d <? max_depth self); [|by intros [= <- <-]].
  destruct (urlparse valid_netloc u []) as [b|]; [|by intros [= <- <-]].
  destruct (extract_links valid_netloc b u _); by intros [= <- <-].
Qed.

Lemma gather_spec tasks : forall s rs s',
  gather valid_netloc w self job_id tasks s = (rs, s') ->
  Forall2 (fun t r => exists pr, r = Ret pr /\ depth pr = item_depth t) tasks rs
  /\ exists rows,
       crawled_urls s' = crawled_urls s ++ rows
       /\ map url rows `sublist_of` map item_url tasks
       /\ Forall (fun c => crawl_job_id c = job_id) rows
       /\ committed_status s' = committed_status s
       /\ committed_error s' = committed_error s
       /\ status_commits s' = status_commits s.
Proof.
  induction tasks as [|t rest IH]; intros s rs s'; simpl.
  - intros [= <- <-]. split; [constructor|]. exists []. rewrite app_nil_r.
    split_and!; auto.
  - destruct (_process_url _ _ _ _ _ _ s) as [r s1] eqn:E1.
    destruct (gather _ _ _ _ rest s1) as [rs' s2] eqn:E2.
    intros [= <- <-].
    destruct (process_url_returns valid_netloc w self job_id (item_url t)
                (item_depth t) s) as (pr & s1' & Hr & Hd).
    rewrite E1 in Hr. injection Hr as -> <-.
    destruct (process_url_session _ _ _ _ _ E1)
      as (rows1 & Hrows1 & Hshape & Hst1 & Her1 & Hlog1).
    destruct (IH _ _ _ E2)
      as (Hall & rows2 & Hrows2 & Hsub & Hjob & Hst2 & Her2 & Hlog2).
    split; [constructor; eauto|].
    exists (rows1 ++ rows2). split_and!.
    + by rewrite Hrows2, Hrows1, app_assoc.
    + destruct Hshape as [->|[ti ->]]; simpl.
      * by apply sublist_cons.
      * by apply sublist_skip.
    + apply Forall_app. split; [|done].
      destruct Hshape as [->|[ti ->]]; repeat constructor.
    + congruence.
    + congruence.
    + congruence.
Qed.

End LoopFacts.

Lemma enqueue_new_spec self visited result frontier :
  enqueue_new self visited result frontier
  = frontier ++ new_items self visited result.
Proof.
  unfold enqueue_new, new_items.
  revert frontier. induction (new_urls result) as [|u us IH]; intros fr; simpl.
  - by rewrite app_nil_r.
  - rewrite IH. rewrite filter_cons.
    destruct (decide (u ∉ visited /\ depth result < max_depth self)) as [[H1 H2]|Hn].
    + rewrite bool_decide_eq_true_2 by done.
      apply Z.ltb_lt in H2. rewrite H2. simpl. by rewrite <- app_assoc.
    + destruct (bool_decide (u ∉ visited)) eqn:E1; simpl; [|done].
      destruct (depth result <? max_depth self) eqn:E2; [|done].
      apply bool_decide_eq_true in E1. apply Z.ltb_lt in E2. tauto.
Qed.

Lemma merge_spec self visited results : forall frontier,
  merge self visited results frontier
  = frontier ++ concat (map (items_of self visited) results).
Proof.
  unfold merge.
  induction results as [|r rs IH]; intros fr; simpl.
  - by rewrite app_nil_r.
  - rewrite IH. destruct r as [result|e]; simpl.
    + by rewrite enqueue_new_spec, <- app_assoc.
    + done.
Qed.



Lemma StronglySorted_sublist {A} (R : relation A) (l1 l2 : list A) :
l1 `sublist_of` l2 -> StronglySorted R l2 -> StronglySorted R l1.
Proof.
induction 1 as [|x l1 l2 Hsub IH|x l1 l2 Hsub IH];
  rewrite ?StronglySorted_cons; [done| |].
- intros [Hall Hss]. split; [|by apply IH].
  rewrite Forall_forall in *. intros y Hy. apply Hall.
  by eapply elem_of_sublist.
- intros [_ Hss]. by apply IH.
Qed.

(** the depths of the items appended after a batch *)
Lemma new_items_depths self visited tasks results :
Forall2 (fun t r => exists pr, r = Ret pr /\ depth pr = item_depth t)
        tasks results ->
forall i, i ∈ concat (map (items_of self visited) results) ->
          exists t, t ∈ tasks /\ item_depth i = item_depth t + 1.
Proof.
induction 1 as [|t r tasks results (pr & -> & Hd) _ IH]; simpl; intros i.
- by intros ?%elem_of_nil.
- intros [Hi|Hi]%elem_of_app.
  + unfold new_items in Hi. apply list_elem_of_fmap in Hi as (u & -> & _).
    exists t. simpl. split; [left|lia].
  + destruct (IH i Hi) as (t' & ? & ?). exists t'. split; [by right|done].
Qed.

Lemma new_items_sorted self visited tasks results :
Forall2 (fun t r => exists pr, r = Ret pr /\ depth pr = item_depth t)
        tasks results ->
StronglySorted Z.le (map item_depth tasks) ->
StronglySorted Z.le
  (map item_depth (concat (map (items_of self visited) results))).
Proof.
induction 1 as [|t r tasks results (pr & -> & Hd) Hall IH]; simpl.
- constructor.
- rewrite StronglySorted_cons. intros [Hle Hss].
  rewrite map_app. apply StronglySorted_app. split_and!.
  + intros x1 x2 Hx1 Hx2.
    apply list_elem_of_fmap in Hx1 as (i1 & -> & Hi1).
    apply list_elem_of_fmap in Hx2 as (i2 & -> & Hi2).
    unfold new_items in Hi1. apply list_elem_of_fmap in Hi1 as (u & -> & _).
    destruct (new_items_depths _ _ _ _ Hall i2 Hi2) as (t' & Ht' & ->).
    rewrite Forall_forall in Hle.
    assert (item_depth t <= item_depth t')
      by (apply Hle; apply list_elem_of_fmap; eauto).
    simpl. lia.
  + unfold new_items.
    match goal with |- context [filter ?P ?l] => generalize (filter P l) end.
    intros l. induction l as [|u us IHl]; simpl; [constructor|].
    apply StronglySorted_cons. split; [|done].
    apply Forall_forall.
    intros x (i & -> & (u' & -> & _)%list_elem_of_fmap)%list_elem_of_fmap.
    simpl. lia.
  + by apply IH.
Qed.

(** * Runs of the loop *)

Lemma slices_app {A} (l : list A) k : slice_to l k ++ slice_from l k = l.
Proof. unfold slice_to, slice_from. destruct (0 <=? k); apply take_drop. Qed.

Lemma slice_to_nonneg {A} (l : list A) k :
  0 <= k -> slice_to l k = take (Nat.min (Z.to_nat k) (length l)) l.
Proof.
  intros Hk. unfold slice_to. rewrite (proj2 (Z.leb_le 0 k)) by done.
  destruct (Nat.min_spec (Z.to_nat k) (length l)) as [[? ->]|[? ->]]; [done|].
  by rewrite !take_ge by lia.
Qed.

Lemma slice_from_nonneg {A} (l : list A) k :
  0 <= k -> slice_from l k = drop (Nat.min (Z.to_nat k) (length l)) l.
Proof.
  intros Hk. unfold slice_from. rewrite (proj2 (Z.leb_le 0 k)) by done.
  destruct (Nat.min_spec (Z.to_nat k) (length l)) as [[? ->]|[? ->]]; [done|].
  by rewrite !drop_ge by lia.
Qed.


Section Runs.

Variable valid_netloc : str -> bool.
Variable w : World.
Variable self : WebCrawler.
Variable job_id : Z.

Notation body := (loop_body valid_netloc w self job_id).
Notation loop := (crawl_loop valid_netloc w self).

Notation iterate n st := (iterate valid_netloc w self n job_id st).

Lemma crawl_loop_iterate fuel : forall st st',
  loop fuel job_id st = Some st' ->
  st' = iterate fuel st /\ loop_test st' = false.
Proof.
  induction fuel as [|n IH]; intros st st'; simpl.
  - destruct (loop_test st) eqn:E; [done|]. by intros [= <-].
  - destruct (loop_test st) eqn:E; [by apply IH|]. by intros [= <-].
Qed.

Lemma iterate_crawl_loop n : forall st,
  loop_test (iterate n st) = false ->
  loop n job_id st = Some (iterate n st).
Proof.
  induction n as [|n IH]; intros st; simpl.
  - by intros ->.
  - destruct (loop_test st) eqn:E; [by apply IH|done].
Qed.

(** An invariant of the loop holds after any number of turns. *)
Lemma iterate_invariant (P : LoopState -> Prop) :
  (forall st, P st -> loop_test st = true -> P (body st)) ->
  forall n st, P st -> P (iterate n st).
Proof.
  intros Hstep. induction n as [|n IH]; intros st Hst; simpl; [done|].
  destruct (loop_test st) eqn:E; auto.
Qed.

(** ** One turn, spelled out *)

Lemma loop_body_unfold st :
  exists tasks results s,
    schedule (visited_urls st) (slice_to (urls_to_visit st) (max_workers self))
    = (visited_urls (body st), tasks)
    /\ gather valid_netloc w self job_id tasks (db st) = (results, s)
    /\ db (body st) = s
    /\ urls_to_visit (body st)
       = slice_from (urls_to_visit st) (max_workers self)
         ++ concat (map (items_of self (visited_urls (body st))) results)
    /\ dequeued (body st)
       = dequeued st ++ slice_to (urls_to_visit st) (max_workers self)
    /\ scheduled (body st) = scheduled st ++ tasks.
Proof.
  unfold loop_body.
  destruct (schedule _ _) as [v tasks] eqn:E1.
  destruct (gather _ _ _ _ tasks _) as [results s] eqn:E2.
  exists tasks, results, s. simpl. by rewrite merge_spec.
Qed.

(** ** At most one fetch per URL *)

Notation visit_inv := (visit_inv job_id).

Lemma visit_inv_initial seed : visit_inv (initial seed fresh_session).
Proof. repeat split; simpl; constructor. Qed.

Lemma visit_inv_step st :
  visit_inv st -> visit_inv (body st).
Proof.
  intros (Hv & Hnd & Hsub & Hrows & Hjob).
  destruct (loop_body_unfold st)
    as (tasks & results & s & Hsched & Hgather & Hdb & _ & Hdeq & Htasks).
  destruct (schedule_spec _ _ _ _ Hsched) as (Hv' & Hnd' & Hfresh & Hsub').
  destruct (gather_spec _ _ _ _ _ _ _ _ Hgather)
    as (_ & rows & Hrows' & Hsubrows & Hjob' & _).
  unfold visit_inv. rewrite Hdb, Hdeq, Htasks, Hv', Hrows', !map_app.
  split_and!.
  - by rewrite Hv, list_to_set_app_L.
  - apply NoDup_app. split_and!; [done| |done].
    intros u Hu Hu'. apply Hfresh in Hu'. apply Hu'. rewrite Hv.
    by apply elem_of_list_to_set.
  - by apply sublist_app.
  - by apply sublist_app.
  - apply Forall_app. by split.
Qed.

Lemma visit_inv_iterate n seed :
  visit_inv (iterate n (initial seed fresh_session)).
Proof.
  apply iterate_invariant; [|apply visit_inv_initial].
  intros st Hst _. by apply visit_inv_step.
Qed.

(** ** The cap on the visited set *)

Lemma visited_size_step st :
  0 <= max_workers self ->
  (size (visited_urls (body st))
   <= size (visited_urls st) + Z.to_nat (max_workers self))%nat.
Proof.
  intros Hk.
  destruct (loop_body_unfold st) as (tasks & _ & _ & Hsched & _).
  rewrite (schedule_size _ _ _ _ Hsched).
  destruct (schedule_spec _ _ _ _ Hsched) as (_ & _ & _ & Hsub).
  apply sublist_length in Hsub. rewrite slice_to_nonneg in Hsub by done.
  rewrite length_take in Hsub. lia.
Qed.

Lemma visited_size_iterate n seed s :
  0 <= max_workers self ->
  (size (visited_urls (iterate n (initial seed s)))
   <= max_visited - 1 + Z.to_nat (max_workers self))%nat.
Proof.
  intros Hk.
  apply (iterate_invariant
           (fun st => (size (visited_urls st)
                       <= max_visited - 1 + Z.to_nat (max_workers self))%nat)).
  - intros st _ Htest. pose proof (visited_size_step st Hk) as Hstep.
    unfold loop_test in Htest. destruct (urls_to_visit st); [done|].
    apply bool_decide_eq_true in Htest. unfold max_visited in *. lia.
  - cbn [initial visited_urls]. rewrite size_empty. unfold max_visited. lia.
Qed.


(** ** Termination *)

Lemma body_progress st :
  0 < max_workers self ->
  loop_test st = true ->
  (size (visited_urls st) < size (visited_urls (body st)))%nat
  \/ (size (visited_urls (body st)) = size (visited_urls st)
      /\ length (urls_to_visit (body st)) < length (urls_to_visit st))%nat.
Proof.
  intros Hk Htest.
  destruct (loop_body_unfold st)
    as (tasks & results & s & Hsched & Hgather & _ & Hfr & _).
  rewrite (schedule_size _ _ _ _ Hsched).
  destruct tasks as [|t tasks]; [right|left; simpl; lia].
  simpl in Hgather. injection Hgather as <- <-.
  rewrite Hfr. simpl. rewrite app_nil_r, slice_from_nonneg by lia.
  rewrite length_drop. split; [lia|].
  unfold loop_test in Htest. destruct (urls_to_visit st); [done|]. simpl. lia.
Qed.

Lemma loop_exits st :
  0 < max_workers self ->
  exists n, loop_test (iterate n st) = false.
Proof.
  intros Hk.
  assert (H : forall a L st,
             (max_visited - size (visited_urls st) <= a)%nat ->
             (length (urls_to_visit st) <= L)%nat ->
             exists n, loop_test (iterate n st) = false);
    [|by eapply H].
  clear st. induction a as [a IHa] using lt_wf_ind.
  induction L as [L IHL] using lt_wf_ind. intros st Ha HL.
  destruct (loop_test st) eqn:Htest; [|by exists O].
  assert (Hlt : (size (visited_urls st) < max_visited)%nat).
  { unfold loop_test in Htest. destruct (urls_to_visit st); [done|].
    by apply bool_decide_eq_true in Htest. }
  destruct (body_progress st Hk Htest) as [Hgrow|[Hsame Hshrink]].
  - destruct (IHa (max_visited - size (visited_urls (body st)))%nat
                ltac:(lia) _ (body st) ltac:(lia) (Nat.le_refl _)) as [n Hn].
    exists (S n). simpl. by rewrite Htest.
  - destruct (IHL (length (urls_to_visit (body st))) ltac:(lia)
                (body st) ltac:(lia) (Nat.le_refl _)) as [n Hn].
    exists (S n). simpl. by rewrite Htest.
Qed.


(** ** Level order *)

Lemma order_inv_initial seed s : order_inv (initial seed s).
Proof.
  split; simpl.
  - repeat constructor.
  - intros x y ->%list_elem_of_singleton ->%list_elem_of_singleton. lia.
Qed.

Lemma order_inv_step st : order_inv st -> order_inv (body st).
Proof.
  intros [Hss Hspread].
  destruct (loop_body_unfold st)
    as (tasks & results & s & Hsched & Hgather & _ & Hfr & Hdeq & _).
  destruct (schedule_spec _ _ _ _ Hsched) as (_ & _ & _ & Hsub).
  destruct (gather_spec _ _ _ _ _ _ _ _ Hgather) as (Hall & _).
  pose proof (slices_app (urls_to_visit st) (max_workers self)) as Hsplit.
  set (batch := slice_to (urls_to_visit st) (max_workers self)) in *.
  set (rest := slice_from (urls_to_visit st) (max_workers self)) in *.
  set (new := concat (map (items_of self (visited_urls (body st))) results)) in *.
  assert (Hnew : forall i, i ∈ new ->
             exists t, t ∈ batch /\ item_depth i = item_depth t + 1).
  { intros i Hi. destruct (new_items_depths _ _ _ _ Hall i Hi) as (t & Ht & ?).
    exists t. split; [by eapply elem_of_sublist|done]. }
  assert (Hbatch : forall t, t ∈ batch -> t ∈ urls_to_visit st).
  { intros t Ht. rewrite <- Hsplit. apply elem_of_app. by left. }
  assert (Hrest : forall t, t ∈ rest -> t ∈ urls_to_visit st).
  { intros t Ht. rewrite <- Hsplit. apply elem_of_app. by right. }
  assert (Hfront : StronglySorted Z.le (map item_depth (batch ++ rest))).
  { rewrite Hsplit. rewrite map_app in Hss.
    by apply StronglySorted_app_1_r in Hss. }
  unfold order_inv. rewrite Hfr, Hdeq. split.
  - replace ((dequeued st ++ batch) ++ rest ++ new)
      with ((dequeued st ++ urls_to_visit st) ++ new)
      by (by rewrite <- Hsplit, <- !app_assoc).
    rewrite map_app. apply StronglySorted_app. split_and!; [|done|].
    + intros x1 x2 Hx1 (i & -> & Hi)%list_elem_of_fmap.
      destruct (Hnew i Hi) as (t & Ht & ->).
      apply list_elem_of_fmap in Hx1 as (j & -> & Hj).
      apply elem_of_app in Hj as [Hj|Hj].
      * rewrite map_app in Hss.
        assert (item_depth j <= item_depth t); [|lia].
        eapply (StronglySorted_app_1_elem_of _ _ _ _ _ Hss);
          apply list_elem_of_fmap; eauto.
      * by apply Hspread; auto.
    + apply (new_items_sorted _ _ _ _ Hall).
      apply (StronglySorted_sublist _ _ (map item_depth batch)).
      * by apply fmap_sublist.
      * rewrite map_app in Hfront. by apply StronglySorted_app_1_l in Hfront.
  - intros x y Hx Hy. rewrite map_app in Hfront.
    apply elem_of_app in Hx as [Hx|Hx]; apply elem_of_app in Hy as [Hy|Hy].
    + apply Hspread; auto.
    + destruct (Hnew y Hy) as (t & Ht & ->).
      assert (item_depth t <= item_depth x); [|lia].
      eapply (StronglySorted_app_1_elem_of _ _ _ _ _ Hfront);
        apply list_elem_of_fmap; eauto.
    + destruct (Hnew x Hx) as (t & Ht & ->).
      assert (item_depth y <= item_depth t + 1); [|lia].
      apply Hspread; auto.
    + destruct (Hnew x Hx) as (t & Ht & ->).
      destruct (Hnew y Hy) as (t' & Ht' & ->).
      assert (item_depth t' <= item_depth t + 1); [|lia].
      apply Hspread; auto.
Qed.

Lemma order_inv_iterate n seed s : order_inv (iterate n (initial seed s)).
Proof.
  apply iterate_invariant; [|apply order_inv_initial].
  intros st Hst _. by apply order_inv_step.
Qed.

End Runs.

(** * The run on [big_site] *)

#[local] Arguments list_set : simpl never.

Lemma gather_singleton vn w self job_id t s :
  gather vn w self job_id [t] s
  = ([(_process_url vn w self job_id (item_url t) (item_depth t) s).1],
     (_process_url vn w self job_id (item_url t) (item_depth t) s).2).
Proof.
  simpl. by destruct (_process_url vn w self job_id (item_url t) (item_depth t) s).
Qed.

Lemma filter_all {A} (P : A -> Prop) `{!forall x, Decision (P x)} (l : list A) :
  Forall P l -> filter P l = l.
Proof.
  induction 1 as [|x l Hx Hl IH]; [done|].
  by rewrite filter_cons, decide_True, IH.
Qed.

Lemma schedule_all_fresh batch : forall visited,
  NoDup (map item_url batch) ->
  (forall i, i ∈ batch -> item_url i ∉ visited) ->
  (schedule visited batch).2 = batch.
Proof.
  induction batch as [|item rest IH]; intros visited Hnd Hfresh; simpl; [done|].
  apply NoDup_cons in Hnd as [Hitem Hnd].
  destruct (decide (item_url item ∈ visited)) as [Hin|_].
  { destruct (Hfresh item); [by left|done]. }
  destruct (schedule _ rest) as [v tasks] eqn:E. simpl. f_equal.
  change tasks with (v, tasks).2. rewrite <- E. apply IH; [done|].
  intros i Hi [Heq%elem_of_singleton|Hin]%elem_of_union.
  - apply Hitem. rewrite <- Heq. apply list_elem_of_fmap. by exists i.
  - eapply Hfresh; [by right|done].
Qed.

Lemma gather_all_fail vn w self job_id tasks : forall s,
  (forall t, t ∈ tasks -> exists e, client_get w (item_url t) = Raise e) ->
  gather vn w self job_id tasks s
  = (map (fun t => Ret (empty_result (item_depth t))) tasks, s).
Proof.
  induction tasks as [|t rest IH]; intros s Hfail; simpl; [done|].
  rewrite process_url_unfold.
  destruct (Hfail t) as [e ->]; [by left|].
  rewrite IH; [done|]. intros t' Ht'. apply Hfail. by right.
Qed.

Lemma items_of_all_fail self visited (tasks : list Item) :
  concat (map (items_of self visited)
              (map (fun t => Ret (empty_result (item_depth t))) tasks)) = [].
Proof. induction tasks as [|t rest IH]; simpl; done. Qed.

Lemma decimal_inj : Inj (=) (=) decimal.
Proof.
  intros n m H. unfold decimal, lit in H.
  apply (f_equal string_of_list_ascii) in H.
  rewrite !string_of_list_ascii_of_string in H.
  apply (f_equal NilEmpty.uint_of_string) in H. rewrite !NilEmpty.usu in H.
  injection H as H. apply (f_equal Nat.of_uint) in H.
  by rewrite !Unsigned.of_to in H.
Qed.

Lemma big_urls_NoDup : NoDup big_urls.
Proof.
  unfold big_urls. apply NoDup_fmap_2_strong; [|apply NoDup_seq].
  intros n m _ _ H. apply app_inv_head in H. by apply decimal_inj.
Qed.

Lemma big_urls_length : length big_urls = 1008%nat.
Proof. unfold big_urls. by rewrite length_map, length_seq. Qed.

Lemma big_urls_not_seed u : u ∈ big_urls -> u <> lit "http://h/".
Proof.
  intros (n & -> & _)%list_elem_of_fmap. unfold lit. simpl. discriminate.
Qed.

Lemma big_page_links :
  extract_links balanced_brackets
    (mkParse (lit "http") (lit "h") (lit "/") [] [] [])
    (lit "http://h/") (soup_links big_page)
  = Some big_urls.
Proof. vm_compute. reflexivity. Qed.

Lemma big_page_fetched :
  client_get big_site (lit "http://h/") = Ret big_page
  /\ is_success big_page = true
  /\ commit_url big_site (mkCrawledUrl (lit "http://h/") (soup_title big_page) 1)
     = None
  /\ urlparse balanced_brackets (lit "http://h/") []
     = Some (mkParse (lit "http") (lit "h") (lit "/") [] [] []).
Proof. split_and!; reflexivity. Qed.

#[local] Opaque big_urls big_page.

Lemma big_site_fails u :
  u ∈ big_urls -> exists e, client_get big_site u = Raise e.
Proof.
  intros Hu. pose proof (big_urls_not_seed u Hu) as Hne.
  unfold big_site. cbn [client_get].
  rewrite decide_False by done. by eexists.
Qed.

Lemma big_first_state :
  visited_urls (loop_body balanced_brackets big_site default_crawler 1
                  (initial (lit "http://h/") fresh_session))
  = {[lit "http://h/"]} ∪ ∅
  /\ urls_to_visit (loop_body balanced_brackets big_site default_crawler 1
                      (initial (lit "http://h/") fresh_session))
     = concat
         (map (items_of default_crawler
                 (visited_urls
                    (loop_body balanced_brackets big_site default_crawler 1
                       (initial (lit "http://h/") fresh_session))))
              [Ret (mkPageResult 0 (list_set big_urls))]).
Proof.
  destruct (loop_body_unfold balanced_brackets big_site default_crawler 1
              (initial (lit "http://h/") fresh_session))
    as (tasks & results & s & Hsched & Hgather & _ & Hfr & _).
  set (st1 := loop_body _ _ _ _ _) in *. clearbody st1.
  change (urls_to_visit (initial (lit "http://h/") fresh_session))
    with [mkItem (lit "http://h/") 0] in *.
  change (slice_to [mkItem (lit "http://h/") 0] (max_workers default_crawler))
    with [mkItem (lit "http://h/") 0] in Hsched.
  change (slice_from [mkItem (lit "http://h/") 0] (max_workers default_crawler))
    with (@nil Item) in Hfr.
  simpl in Hsched. rewrite decide_False in Hsched by apply not_elem_of_empty.
  injection Hsched as Hv <-. rewrite gather_singleton in Hgather.
  cbn [item_url item_depth] in Hgather.
  destruct big_page_fetched as (Hget & Hok & Hstore & Hparse).
  rewrite process_url_unfold, Hget, Hok in Hgather. cbv zeta in Hgather.
  rewrite Hstore in Hgather.
  change (0 <? max_depth default_crawler) with true in Hgather.
  rewrite Hparse, big_page_links in Hgather.
  cbn [fst snd] in Hgather. injection Hgather as <- _.
  rewrite app_nil_l in Hfr. split; [symmetry; exact Hv|exact Hfr].
Qed.

Lemma big_first_turn :
  big_inv (loop_body balanced_brackets big_site default_crawler 1
             (initial (lit "http://h/") fresh_session)).
Proof.
  destruct big_first_state as [Hv Hfr].
  set (st1 := loop_body _ _ _ _ _) in *. clearbody st1.
  assert (Hsize : size (visited_urls st1) = 1%nat).
  { rewrite Hv. rewrite union_empty_r_L. apply size_singleton. }
  assert (Hseed : forall u, u ∈ list_set big_urls -> u ∉ visited_urls st1).
  { intros u Hu. pose proof (proj1 (elem_of_list_set u big_urls) Hu) as Hu'.
    pose proof (big_urls_not_seed u Hu') as Hne.
    rewrite Hv. clear - Hne. set_solver. }
  assert (Hfront : urls_to_visit st1
                   = map (fun u => mkItem u (0 + 1)) (list_set big_urls)).
  { rewrite Hfr. cbn [map concat items_of app]. unfold new_items.
    cbn [depth new_urls max_depth default_crawler].
    rewrite app_nil_r. apply (f_equal (map _)). apply filter_all.
    apply Forall_forall. intros u Hu. split; [exact (Hseed u Hu)|reflexivity]. }
  clear Hfr.
  assert (Hurls : map item_url (urls_to_visit st1) = list_set big_urls).
  { rewrite Hfront, map_map. cbn [item_url]. apply map_id. }
  assert (Hmem : forall i, i ∈ urls_to_visit st1 -> item_url i ∈ list_set big_urls).
  { intros i Hi. rewrite <- Hurls. apply list_elem_of_fmap. exists i.
    split; [reflexivity|exact Hi]. }
  unfold big_inv. split_and!.
  - intros i Hi. exact (proj1 (elem_of_list_set _ big_urls) (Hmem i Hi)).
  - rewrite Hurls. unfold list_set. apply NoDup_elements.
  - intros i Hi. exact (Hseed _ (Hmem i Hi)).
  - rewrite Hsize, <- (length_map item_url), Hurls.
    unfold list_set. change (length (elements ?X)) with (size X).
    rewrite size_list_to_set by apply big_urls_NoDup.
    rewrite big_urls_length. reflexivity.
  - exists O. exact Hsize.
Qed.

Lemma big_inv_step st :
  big_inv st -> loop_test st = true ->
  big_inv (loop_body balanced_brackets big_site default_crawler 1 st).
Proof.
  intros (Hin & Hnd & Hfresh & Hcount & k & Hk) Htest.
  assert (Hlt : (size (visited_urls st) < 1000)%nat).
  { unfold loop_test in Htest. destruct (urls_to_visit st); [done|].
    by apply bool_decide_eq_true in Htest. }
  destruct (loop_body_unfold balanced_brackets big_site default_crawler 1 st)
    as (tasks & results & s & Hsched & Hgather & _ & Hfr & _).
  set (st' := loop_body _ _ _ _ _) in *. clearbody st'.
  rewrite slice_to_nonneg in Hsched by done.
  rewrite slice_from_nonneg in Hfr by done.
  change (Z.to_nat (max_workers default_crawler)) with 10%nat in *.
  rewrite Nat.min_l in Hsched, Hfr by lia.
  pose proof (take_drop 10 (urls_to_visit st)) as Hsplit.
  set (batch := take 10 (urls_to_visit st)) in *.
  set (rest := drop 10 (urls_to_visit st)) in *.
  assert (Hlen : length batch = 10%nat) by (unfold batch; rewrite length_take; lia).
  rewrite <- Hsplit, map_app in Hnd. apply NoDup_app in Hnd as (Hndb & Hdisj & Hndr).
  assert (Hbatch : forall i, i ∈ batch -> i ∈ urls_to_visit st)
    by (intros i Hi; rewrite <- Hsplit; apply elem_of_app; by left).
  assert (Hrest : forall i, i ∈ rest -> i ∈ urls_to_visit st)
    by (intros i Hi; rewrite <- Hsplit; apply elem_of_app; by right).
  assert (Htasks : tasks = batch).
  { change tasks with (visited_urls st', tasks).2. rewrite <- Hsched.
    apply schedule_all_fresh; [done|]. intros i Hi. by apply Hfresh, Hbatch. }
  subst tasks.
  rewrite gather_all_fail in Hgather.
  2:{ intros t Ht. by apply big_site_fails, Hin, Hbatch. }
  injection Hgather as <- _. rewrite items_of_all_fail, app_nil_r in Hfr.
  pose proof (schedule_size _ _ _ _ Hsched) as Hsize.
  destruct (schedule_spec _ _ _ _ Hsched) as (Hv & _).
  unfold big_inv. rewrite Hfr. split_and!.
  - intros i Hi. by apply Hin, Hrest.
  - done.
  - intros i Hi. rewrite Hv. intros [Hold|Hnew]%elem_of_union.
    + by apply (Hfresh i (Hrest i Hi)).
    + apply elem_of_list_to_set in Hnew. apply (Hdisj (item_url i)); [done|].
      apply list_elem_of_fmap. by exists i.
  - rewrite Hsize, Hlen. unfold rest. rewrite length_drop. lia.
  - exists (S k). lia.
Qed.

Lemma loop_test_initial seed s : loop_test (initial seed s) = true.
Proof.
  unfold loop_test, initial. cbn [urls_to_visit visited_urls].
  apply bool_decide_eq_true. rewrite size_empty. unfold max_visited. lia.
Qed.

(** Without a worker a turn takes nothing off the frontier and changes
    nothing. *)
Lemma idle_body vn w self job_id seed s :
  max_workers self <= 0 ->
  loop_body vn w self job_id (initial seed s) = initial seed s.
Proof.
  intros Hk.
  assert (Hto : slice_to [mkItem seed 0] (max_workers self) = []).
  { unfold slice_to. destruct (0 <=? max_workers self) eqn:E.
    - apply Z.leb_le in E. by replace (max_workers self) with 0 by lia.
    - apply Z.leb_gt in E. simpl.
      by replace (1 - Z.to_nat (- max_workers self))%nat with 0%nat by lia. }
  assert (Hfrom : slice_from [mkItem seed 0] (max_workers self)
                  = [mkItem seed 0]).
  { unfold slice_from. destruct (0 <=? max_workers self) eqn:E.
    - apply Z.leb_le in E. by replace (max_workers self) with 0 by lia.
    - apply Z.leb_gt in E. simpl.
      by replace (1 - Z.to_nat (- max_workers self))%nat with 0%nat by lia. }
  unfold loop_body, initial. simpl. by rewrite Hto, Hfrom.
Qed.

Lemma idle_iterate vn w self job_id seed s n :
  max_workers self <= 0 ->
  iterate vn w self n job_id (initial seed s) = initial seed s.
Proof.
  intros Hk. induction n as [|n IH]; simpl; [done|].
  by rewrite loop_test_initial, idle_body.
Qed.

Lemma iterate_S vn w self job_id n st :
  loop_test st = true ->
  iterate vn w self (S n) job_id st
  = iterate vn w self n job_id (loop_body vn w self job_id st).
Proof. intros H. cbn [iterate]. by rewrite H. Qed.

Lemma big_run_exit :
  exists fuel st,
    crawl_loop balanced_brackets big_site default_crawler fuel 1
      (initial (lit "http://h/") fresh_session) = Some st
    /\ (max_visited < size (visited_urls st))%nat.
Proof.
  destruct (loop_exits balanced_brackets big_site default_crawler 1
              (initial (lit "http://h/") fresh_session) eq_refl)
    as [n Hexit].
  exists n. eexists. split; [exact (iterate_crawl_loop _ _ _ _ _ _ Hexit)|].
  destruct n as [|n].
  { cbn [iterate] in Hexit. rewrite loop_test_initial in Hexit.
    discriminate Hexit. }
  rewrite iterate_S in Hexit |- * by apply loop_test_initial.
  pose proof (iterate_invariant balanced_brackets big_site default_crawler 1
                big_inv big_inv_step n _ big_first_turn)
    as (_ & _ & _ & Hcount & k & Hk).
  revert Hexit Hcount Hk.
  generalize (iterate balanced_brackets big_site default_crawler n 1
                (loop_body balanced_brackets big_site default_crawler 1
                   (initial (lit "http://h/") fresh_session))).
  intros st Hexit Hcount Hk.
  unfold loop_test in Hexit. unfold max_visited in *.
  destruct (urls_to_visit st); cbn [length] in Hcount; [lia|].
  apply bool_decide_eq_false in Hexit. lia.
Qed.

(** * Exploration: what a run reaches *)

(** A call returns what the page holds in an active session, and no URL
    in a session whose transaction is no longer active. *)
Lemma process_url_result vn w self job_id t s :
  (_process_url vn w self job_id (item_url t) (item_depth t) s).1
  = if is_active s then page_result vn w self job_id t
    else Ret (empty_result (item_depth t)).
Proof.
  destruct (is_active s) eqn:Hs.
  - unfold page_result. by apply process_url_active.
  - by rewrite process_url_inactive.
Qed.

Lemma gather_results vn w self job_id tasks : forall s rs s',
  gather vn w self job_id tasks s = (rs, s') ->
  Forall2 (fun t r => r = page_result vn w self job_id t
                      \/ r = Ret (empty_result (item_depth t))) tasks rs
  /\ (is_active s' = true ->
      is_active s = true /\ rs = map (page_result vn w self job_id) tasks).
Proof.
  induction tasks as [|t rest IH]; intros s rs s'; simpl.
  - intros [= <- <-]. split; [constructor|done].
  - pose proof (process_url_result vn w self job_id t s) as Hres.
    pose proof (process_url_stays_inactive vn w self job_id (item_url t)
                  (item_depth t) s) as Hmono.
    destruct (_process_url vn w self job_id (item_url t) (item_depth t) s)
      as [r s1].
    destruct (gather vn w self job_id rest s1) as [rs1 s2] eqn:E.
    intros [= <- <-]. destruct (IH _ _ _ E) as [Hall Hact]. simpl in *.
    split.
    + constructor; [|done]. destruct (is_active s); auto.
    + intros H2. destruct (Hact H2) as [H1 ->].
      split; [by apply Hmono|]. rewrite (Hmono H1) in Hres. by rewrite Hres.
Qed.

Lemma page_result_Ret vn w self job_id t :
  exists r, page_result vn w self job_id t = Ret r /\ depth r = item_depth t.
Proof.
  unfold page_result.
  destruct (process_url_returns vn w self job_id (item_url t) (item_depth t)
              fresh_session) as (r & s' & -> & Hd).
  by exists r.
Qed.

(** the URLs of a result are links of the page, kept by the scope test *)
Lemma page_result_links vn w self job_id t r x :
  page_result vn w self job_id t = Ret r ->
  x ∈ new_urls r ->
  item_depth t < max_depth self
  /\ NoDup (new_urls r)
  /\ exists b href, urlparse vn (item_url t) [] = Some b
                    /\ scope_link vn b (item_url t) href = Some (Some x).
Proof.
  unfold page_result. rewrite process_url_unfold. cbv zeta.
  assert (Hno : forall s : Session,
             (Ret (empty_result (item_depth t)), s).1 = Ret r ->
                          x ∈ new_urls r -> False).
  { intros s [= <-]. simpl. apply not_elem_of_nil. }
  destruct (client_get w (item_url t)) as [response|e];
    [|intros H1 H2; destruct (Hno _ H1 H2)].
  destruct (is_success response); [|intros H1 H2; destruct (Hno _ H1 H2)].
  simpl.
  destruct (commit_url w _); [intros H1 H2; destruct (Hno _ H1 H2)|].
  destruct (item_depth t <? max_depth self) eqn:Hd;
    [|intros H1 H2; destruct (Hno _ H1 H2)].
  destruct (urlparse vn (item_url t) []) as [b|];
    [|intros H1 H2; destruct (Hno _ H1 H2)].
  destruct (extract_links vn b (item_url t) (soup_links response))
    as [l|] eqn:El; [|intros H1 H2; destruct (Hno _ H1 H2)].
  intros [= <-]. simpl. rewrite elem_of_list_set. intros Hx.
  split; [by apply Z.ltb_lt|]. split; [unfold list_set; apply NoDup_elements|].
  apply (extract_links_Some _ _ _ _ _ El) in Hx as (href & _ & Hs).
  by exists b, href.
Qed.

Lemma schedule_covers batch : forall visited v tasks,
  schedule visited batch = (v, tasks) ->
  forall i, i ∈ batch -> item_url i ∈ v.
Proof.
  induction batch as [|item rest IH]; intros visited v tasks; simpl.
  - intros _ i ?%elem_of_nil. done.
  - destruct (decide (item_url item ∈ visited)) as [Hin|Hout].
    + intros Hs i [->|Hi]%elem_of_cons; [|by eapply IH].
      apply schedule_spec in Hs as (-> & _). set_solver.
    + destruct (schedule ({[item_url item]} ∪ visited) rest) as [v' tasks'] eqn:E.
      intros [= <- <-] i [->|Hi]%elem_of_cons; [|by eapply IH].
      apply schedule_spec in E as (-> & _). set_solver.
Qed.

Lemma elem_of_concat_map {A B} (f : A -> list B) (l : list A) (y : B) :
  y ∈ concat (map f l) <-> exists x, x ∈ l /\ y ∈ f x.
Proof.
  induction l as [|a l IH]; simpl.
  - split; [by intros ?%elem_of_nil|by intros (? & ?%elem_of_nil & _)].
  - rewrite elem_of_app, IH. split.
    + intros [?|(x & ? & ?)]; [exists a|exists x]; split; try done;
        by constructor.
    + intros (x & [->|?]%elem_of_cons & ?); [by left|right; eauto].
Qed.

Lemma elem_of_new_items self visited r i :
  i ∈ new_items self visited r <->
  item_depth i = depth r + 1 /\ item_url i ∈ new_urls r
  /\ item_url i ∉ visited /\ depth r < max_depth self.
Proof.
  unfold new_items. rewrite list_elem_of_fmap. split.
  - intros (u & -> & (? & ?)%list_elem_of_filter). simpl. tauto.
  - intros (Hd & Hu & Hv & Hm). exists (item_url i). split.
    + destruct i as [u d]. simpl in *. by rewrite Hd.
    + apply list_elem_of_filter. tauto.
Qed.

Section Exploration.

Variable valid_netloc : str -> bool.
Variable w : World.
Variable self : WebCrawler.
Variable job_id : Z.

Abbreviation body := (loop_body valid_netloc w self job_id).
Abbreviation iterate n st := (iterate valid_netloc w self n job_id st).
Abbreviation page_result := (page_result valid_netloc w self job_id).

(** One turn of the loop, in terms of the pages it fetched.  Every new
    item comes from a page of the batch; while the transaction of the
    session is active, every link that such a page keeps is an item. *)
Lemma turn_spec st :
  exists tasks new,
    tasks `sublist_of` slice_to (urls_to_visit st) (max_workers self)
    /\ visited_urls (body st)
       = visited_urls st ∪ list_to_set (map item_url tasks)
    /\ NoDup (map item_url tasks)
    /\ (forall t, t ∈ tasks -> item_url t ∉ visited_urls st)
    /\ (forall i, i ∈ slice_to (urls_to_visit st) (max_workers self) ->
                  item_url i ∈ visited_urls (body st))
    /\ urls_to_visit (body st)
       = slice_from (urls_to_visit st) (max_workers self) ++ new
    /\ dequeued (body st)
       = dequeued st ++ slice_to (urls_to_visit st) (max_workers self)
    /\ scheduled (body st) = scheduled st ++ tasks
    /\ (forall i, i ∈ new ->
         exists t r, t ∈ tasks /\ page_result t = Ret r
                     /\ item_depth i = item_depth t + 1
                     /\ item_depth t < max_depth self
                     /\ item_url i ∈ new_urls r
                     /\ item_url i ∉ visited_urls (body st))
    /\ (is_active (db (body st)) = true ->
        is_active (db st) = true
        /\ forall i t r,
             t ∈ tasks -> page_result t = Ret r ->
             item_depth i = item_depth t + 1 ->
             item_depth t < max_depth self ->
             item_url i ∈ new_urls r ->
             item_url i ∉ visited_urls (body st) ->
             i ∈ new).
Proof.
  destruct (loop_body_unfold valid_netloc w self job_id st)
    as (tasks & results & s & Hsched & Hgather & Hdb & Hfr & Hdeq & Hsch).
  destruct (gather_results valid_netloc w self job_id tasks _ _ _ Hgather)
    as [Hres Hact].
  destruct (schedule_spec _ _ _ _ Hsched) as (Hv & Hnd & Hfresh & Hsub).
  exists tasks, (concat (map (items_of self (visited_urls (body st))) results)).
  split_and!; try done.
  - intros t Ht. apply Hfresh. apply list_elem_of_fmap. by exists t.
  - by apply (schedule_covers _ _ _ _ Hsched).
  - intros i (r' & Hr' & Hi)%elem_of_concat_map.
    apply list_elem_of_lookup in Hr' as [k Hk].
    destruct (Forall2_lookup_r _ _ _ _ _ Hres Hk) as (t & Ht & Hor).
    destruct (page_result_Ret valid_netloc w self job_id t) as (r & Hr & Hd).
    assert (Hi' : i ∈ new_items self (visited_urls (body st)) r).
    { destruct Hor as [->| ->]; [by rewrite Hr in Hi|].
      simpl in Hi. apply elem_of_new_items in Hi as (_ & Hx & _).
      simpl in Hx. by apply elem_of_nil in Hx. }
    apply elem_of_new_items in Hi' as (? & ? & ? & ?).
    exists t, r. split_and!; try done; [by eapply list_elem_of_lookup_2|lia..].
  - rewrite Hdb. intros Hs. destruct (Hact Hs) as [Hs0 ->]. split; [done|].
    intros i t r Ht Hr Hd Hm Hu Hv'.
    rewrite map_map. apply elem_of_concat_map. exists t. split; [done|].
    rewrite Hr. simpl.
    destruct (page_result_Ret valid_netloc w self job_id t) as (r' & Hr' & Hd').
    rewrite Hr in Hr'. injection Hr' as <-.
    apply elem_of_new_items. split_and!; try done; lia.
Qed.

Lemma turn_items st :
  exists tasks new,
    (forall t, t ∈ tasks -> t ∈ urls_to_visit st)
    /\ dequeued (body st) ++ urls_to_visit (body st)
       = (dequeued st ++ urls_to_visit st) ++ new
    /\ scheduled (body st) = scheduled st ++ tasks
    /\ forall i, i ∈ new ->
         exists t r, t ∈ tasks /\ page_result t = Ret r
                     /\ item_depth i = item_depth t + 1
                     /\ item_depth t < max_depth self
                     /\ item_url i ∈ new_urls r.
Proof.
  destruct (turn_spec st)
    as (tasks & new & Hsub & _ & _ & _ & _ & Hfr & Hdeq & Hsch & Hnew & _).
  exists tasks, new. split_and!.
  - intros t Ht. eapply elem_of_sublist in Ht; [|done].
    rewrite <- (slices_app (urls_to_visit st) (max_workers self)).
    apply elem_of_app. by left.
  - rewrite Hdeq, Hfr, <- !app_assoc. f_equal.
    by rewrite app_assoc, slices_app.
  - done.
  - intros i Hi. apply Hnew in Hi as (t & r & ?). exists t, r. tauto.
Qed.

Lemma books_step s0 st : books job_id s0 st -> books job_id s0 (body st).
Proof.
  intros (Hv & Hnd & Hsub & Hdq & rows & Hrows & Hsubrows & Hjob).
  destruct (loop_body_unfold valid_netloc w self job_id st)
    as (tasks & results & s & Hsched & Hgather & Hdb & _ & Hdeq & Htasks).
  destruct (schedule_spec _ _ _ _ Hsched) as (Hv' & Hnd' & Hfresh & Hsub').
  destruct (gather_spec _ _ _ _ _ _ _ _ Hgather)
    as (_ & rows' & Hrows' & Hsubrows' & Hjob' & _).
  unfold books. rewrite Hdb, Hdeq, Htasks, !map_app.
  split_and!.
  - by rewrite Hv', Hv, list_to_set_app_L.
  - apply NoDup_app. split_and!; [done| |done].
    intros u Hu Hu'. apply Hfresh in Hu'. apply Hu'. rewrite Hv.
    by apply elem_of_list_to_set.
  - by apply sublist_app.
  - intros i [Hi|Hi]%elem_of_app.
    + rewrite Hv'. apply elem_of_union. left. by apply Hdq.
    + by apply (schedule_covers _ _ _ _ Hsched).
  - exists (rows ++ rows'). split_and!.
    + by rewrite Hrows', Hrows, app_assoc.
    + rewrite map_app. by apply sublist_app.
    + apply Forall_app. by split.
Qed.

Lemma books_iterate n seed s : books job_id s (iterate n (initial seed s)).
Proof.
  apply iterate_invariant; [intros st Hst _; by apply books_step|].
  unfold books. simpl. split_and!; try done; try constructor.
  - by intros i ?%elem_of_nil.
  - exists []. rewrite app_nil_r. split_and!; [done|constructor|constructor].
Qed.


(** ** Depth *)

Lemma depth_ok_iterate n seed s :
  Forall (depth_ok self)
    (dequeued (iterate n (initial seed s))
     ++ urls_to_visit (iterate n (initial seed s))).
Proof.
  apply (iterate_invariant valid_netloc w self job_id
           (fun st => Forall (depth_ok self) (dequeued st ++ urls_to_visit st))).
  - intros st Hst _.
    destruct (turn_items st) as (tasks & new & Htasks & -> & _ & Hnew).
    apply Forall_app. split; [done|].
    apply Forall_forall. intros i Hi.
    destruct (Hnew i Hi) as (t & r & Ht & _ & Hd & Hm & _).
    rewrite Forall_forall in Hst.
    assert (Hdt : depth_ok self t).
    { apply Hst. apply elem_of_app. right. by apply Htasks. }
    unfold depth_ok in *. lia.
  - simpl. repeat constructor; unfold depth_ok; simpl; lia.
Qed.

(** ** Host *)

Lemma kept_link_on_host b u href x :
  urlparse valid_netloc u [] = Some b ->
  netloc b <> [] ->
  scope_link valid_netloc b u href = Some (Some x) ->
  kept_on_host valid_netloc (netloc b) x.
Proof.
  intros Hb Hne (abs & p & _ & Hp & Hsch & Hloc & ->)%scope_link_Some.
  rewrite <- Hloc in Hne.
  destruct (scope_link_self valid_netloc abs [] p Hp Hsch Hne) as [Hround _].
  exists (replace_fragment p []). split_and!; [apply Hround|done..].
Qed.

Lemma on_host_iterate n seed s p0 :
  urlparse valid_netloc seed [] = Some p0 ->
  netloc p0 <> [] ->
  Forall (fun i => i = mkItem seed 0
                   \/ kept_on_host valid_netloc (netloc p0) (item_url i))
    (dequeued (iterate n (initial seed s))
     ++ urls_to_visit (iterate n (initial seed s))).
Proof.
  intros Hp0 Hne.
  apply (iterate_invariant valid_netloc w self job_id
           (fun st => Forall (fun i => i = mkItem seed 0
                        \/ kept_on_host valid_netloc (netloc p0) (item_url i))
                        (dequeued st ++ urls_to_visit st))).
  - intros st Hst _.
    destruct (turn_items st) as (tasks & new & Htasks & -> & _ & Hnew).
    apply Forall_app. split; [done|].
    apply Forall_forall. intros i Hi. right.
    destruct (Hnew i Hi) as (t & r & Ht & Hr & _ & _ & Hx).
    destruct (page_result_links _ _ _ _ _ _ _ Hr Hx)
      as (_ & _ & b & href & Hb & Hlink).
    rewrite Forall_forall in Hst.
    assert (Hloc : netloc b = netloc p0).
    { destruct (Hst t) as [->|(q & Hq & Hh & _)].
      - apply elem_of_app. right. by apply Htasks.
      - simpl in Hb. congruence.
      - congruence. }
    rewrite <- Hloc. eapply kept_link_on_host; [done| |done]. by rewrite Hloc.
  - simpl. repeat constructor.
Qed.


(** A kept link is its own normal form. *)
Lemma kept_link_normal b u href x :
  netloc b <> [] ->
  scope_link valid_netloc b u href = Some (Some x) ->
  normalize_and_scope valid_netloc x x = Some (Some x).
Proof.
  intros Hne (abs & p & _ & Hp & Hsch & Hloc & ->)%scope_link_Some.
  rewrite <- Hloc in Hne.
  destruct (scope_link_self valid_netloc abs [] p Hp Hsch Hne) as [Hround Hself].
  unfold normalize_and_scope. rewrite Hround. simpl. exact Hself.
Qed.

(** From a seed that has an authority and is its own normal form, every
    item of the run is its own normal form. *)
Lemma normal_iterate n seed s p0 :
  urlparse valid_netloc seed [] = Some p0 ->
  netloc p0 <> [] ->
  normalize_and_scope valid_netloc seed seed = Some (Some seed) ->
  Forall (fun i => normalize_and_scope valid_netloc (item_url i) (item_url i)
                   = Some (Some (item_url i)))
    (dequeued (iterate n (initial seed s))
     ++ urls_to_visit (iterate n (initial seed s))).
Proof.
  intros Hp0 Hne Hseed.
  assert (Hboth :
    Forall (fun i => (i = mkItem seed 0
                      \/ kept_on_host valid_netloc (netloc p0) (item_url i))
                     /\ normalize_and_scope valid_netloc (item_url i) (item_url i)
                        = Some (Some (item_url i)))
      (dequeued (iterate n (initial seed s))
       ++ urls_to_visit (iterate n (initial seed s)))).
  { apply (iterate_invariant valid_netloc w self job_id
             (fun st =>
                Forall (fun i =>
                          (i = mkItem seed 0
                           \/ kept_on_host valid_netloc (netloc p0) (item_url i))
                          /\ normalize_and_scope valid_netloc (item_url i)
                               (item_url i) = Some (Some (item_url i)))
                  (dequeued st ++ urls_to_visit st))).
    - intros st Hst _.
      destruct (turn_items st) as (tasks & new & Htasks & -> & _ & Hnew).
      apply Forall_app. split; [done|].
      apply Forall_forall. intros i Hi.
      destruct (Hnew i Hi) as (t & r & Ht & Hr & _ & _ & Hx).
      destruct (page_result_links _ _ _ _ _ _ _ Hr Hx)
        as (_ & _ & b & href & Hb & Hlink).
      rewrite Forall_forall in Hst.
      assert (Hloc : netloc b = netloc p0).
      { destruct (Hst t) as [[->|(q & Hq & Hh & _)] _].
        - apply elem_of_app. right. by apply Htasks.
        - simpl in Hb. congruence.
        - congruence. }
      split.
      + right. rewrite <- Hloc.
        eapply kept_link_on_host; [done| |done]. by rewrite Hloc.
      + eapply kept_link_normal; [|done]. by rewrite Hloc.
    - simpl. repeat constructor; by simpl. }
  eapply Forall_impl; [exact Hboth|]. by intros i [_ ?].
Qed.

(** ** Provenance and closure *)

Lemma provenance_iterate n seed s :
  Forall (fun i => i = mkItem seed 0
                   \/ exists t r,
                        t ∈ scheduled (iterate n (initial seed s))
                        /\ page_result t = Ret r
                        /\ item_url i ∈ new_urls r
                        /\ item_depth i = item_depth t + 1
                        /\ item_depth t < max_depth self)
    (dequeued (iterate n (initial seed s))
     ++ urls_to_visit (iterate n (initial seed s))).
Proof.
  apply (iterate_invariant valid_netloc w self job_id
           (fun st =>
              Forall (fun i => i = mkItem seed 0
                        \/ exists t r,
                             t ∈ scheduled st /\ page_result t = Ret r
                             /\ item_url i ∈ new_urls r
                             /\ item_depth i = item_depth t + 1
                             /\ item_depth t < max_depth self)
                (dequeued st ++ urls_to_visit st))).
  - intros st Hst _.
    destruct (turn_items st) as (tasks & new & Htasks & -> & -> & Hnew).
    apply Forall_app. split.
    + eapply Forall_impl; [exact Hst|]. intros i [->|(t & r & Ht & ?)]; [by left|].
      right. exists t, r. split; [|done]. apply elem_of_app. by left.
    + apply Forall_forall. intros i Hi. right.
      destruct (Hnew i Hi) as (t & r & Ht & Hr & Hd & Hm & Hx).
      exists t, r. split_and!; try done. apply elem_of_app. by right.
  - simpl. repeat constructor.
Qed.

(** a session whose transaction is active was so after every earlier turn *)
Lemma active_iterate n st :
  is_active (db (iterate n st)) = true -> is_active (db st) = true.
Proof.
  revert st. induction n as [|n IH]; intros st; simpl; [done|].
  destruct (loop_test st); [|done].
  intros H%IH.
  destruct (turn_spec st) as (? & ? & _ & _ & _ & _ & _ & _ & _ & _ & _ & Hact).
  by destruct (Hact H).
Qed.

Lemma closure_iterate n seed s :
  let st := iterate n (initial seed s) in
  is_active (db st) = true ->
  mkItem seed 0 ∈ dequeued st ++ urls_to_visit st
  /\ forall t r x,
       t ∈ scheduled st -> page_result t = Ret r ->
       item_depth t < max_depth self -> x ∈ new_urls r ->
       x ∈ visited_urls st \/ x ∈ map item_url (urls_to_visit st).
Proof.
  apply (iterate_invariant valid_netloc w self job_id
           (fun st =>
              is_active (db st) = true ->
              mkItem seed 0 ∈ dequeued st ++ urls_to_visit st
              /\ forall t r x,
                   t ∈ scheduled st -> page_result t = Ret r ->
                   item_depth t < max_depth self -> x ∈ new_urls r ->
                   x ∈ visited_urls st \/ x ∈ map item_url (urls_to_visit st))).
  - intros st Hst _ Hact.
    destruct (turn_items st) as (tasks0 & new0 & _ & Hall & _ & _).
    destruct (turn_spec st)
      as (tasks & new & Hsub & Hv & _ & _ & Hcov & Hfr & _ & Hsch & _ & Hnew).
    destruct (Hnew Hact) as [Hact0 Hin]. destruct (Hst Hact0) as [Hseed Hcl].
    split; [rewrite Hall; apply elem_of_app; by left|].
    intros t r x Ht Hr Hd Hx. rewrite Hsch in Ht.
    destruct (decide (x ∈ visited_urls (body st))) as [Hvis'|Hout]; [by left|].
    right. rewrite Hfr, map_app. apply elem_of_app.
    apply elem_of_app in Ht as [Ht|Ht].
    + left. destruct (Hcl t r x Ht Hr Hd Hx) as [Hvis|Hfront].
      * destruct Hout. rewrite Hv. apply elem_of_union. by left.
      * rewrite <- (slices_app (urls_to_visit st) (max_workers self)),
          map_app in Hfront.
        apply elem_of_app in Hfront as [Hb|Hrest]; [|done].
        apply list_elem_of_fmap in Hb as (i & -> & Hi).
        destruct Hout. by apply Hcov.
    + right. apply list_elem_of_fmap. exists (mkItem x (item_depth t + 1)).
      split; [done|]. by apply (Hin _ t r).
  - simpl. intros _. split; [by constructor|]. by intros t r x ?%elem_of_nil.
Qed.

End Exploration.

(** * The claims *)

Lemma gather_app vn w self job_id l1 : forall l2 s,
  gather vn w self job_id (l1 ++ l2) s =
  let '(rs1, s1) := gather vn w self job_id l1 s in
  let '(rs2, s2) := gather vn w self job_id l2 s1 in
  (rs1 ++ rs2, s2).
Proof.
  induction l1 as [|t l1 IH]; intros l2 s; simpl.
  - by destruct (gather vn w self job_id l2 s).
  - destruct (_process_url vn w self job_id (item_url t) (item_depth t) s)
      as [r s1].
    rewrite IH. destruct (gather vn w self job_id l1 s1) as [rs1 s2].
    by destruct (gather vn w self job_id l2 s2).
Qed.

Lemma crawl_returns vn w self job_id s :
  0 < max_workers self ->
  exists fuel run, _crawl vn w self fuel job_id s = Some run.
Proof.
  intros Hk. unfold _crawl.
  destruct (lookup_job w job_id s) as [[job|]|e]; [|by exists O; eauto..].
  destruct (loop_exits vn w self job_id (initial (seed_url job) s) Hk)
    as [n Hn].
  exists n. rewrite (iterate_crawl_loop _ _ _ _ _ _ Hn).
  destruct (commit_job w COMPLETED _ _) as [[?|e] s1]; [by eauto|].
  destruct (commit_job w FAILED _ _) as [[?|e'] s2]; by eauto.
Qed.

Lemma crawl_loop_session vn w self job_id n st :
  committed_status (db (iterate vn w self n job_id st)) = committed_status (db st)
  /\ committed_error (db (iterate vn w self n job_id st)) = committed_error (db st)
  /\ status_commits (db (iterate vn w self n job_id st)) = status_commits (db st).
Proof.
  apply (iterate_invariant vn w self job_id
           (fun st' => committed_status (db st') = committed_status (db st)
                       /\ committed_error (db st') = committed_error (db st)
                       /\ status_commits (db st') = status_commits (db st)));
    [|done].
  intros st' (H1 & H2 & H3) _.
  destruct (loop_body_unfold vn w self job_id st')
    as (tasks & results & s & _ & Hgather & -> & _).
  destruct (gather_spec _ _ _ _ _ _ _ _ Hgather)
    as (_ & rows & _ & _ & _ & G1 & G2 & G3).
  split_and!; congruence.
Qed.

(** C1 (as amended): scoping is evaluated against the URL that was
    requested, whatever URL the transport ended on.  [_process_url] returns
    a URL exactly when the page was fetched with a success status, the
    session took its row, the depth is below [max_depth], [urllib] parses
    the requested URL and raises on none of the page's links, and some
    [href] of the page, joined to the requested URL, has scheme http or
    https and the authority of the requested URL; the returned URL is that
    one without its fragment. *)
Theorem C1_scope_of_requested_url vn w self job_id u d s :
  exists r s',
    _process_url vn w self job_id u d s = (Ret r, s')
    /\ forall x,
         x ∈ new_urls r <->
         exists response b,
           client_get w u = Ret response
           /\ is_success response = true
           /\ is_active s = true
           /\ commit_url w (mkCrawledUrl u (soup_title response) job_id) = None
           /\ d < max_depth self
           /\ urlparse vn u [] = Some b
           /\ (forall href, href ∈ soup_links response ->
                            scope_link vn b u href <> None)
           /\ exists href abs p,
                href ∈ soup_links response
                /\ urljoin vn u href = Some abs
                /\ urlparse vn abs [] = Some p
                /\ (scheme p = lit "http" \/ scheme p = lit "https")
                /\ netloc p = netloc b
                /\ x = geturl (replace_fragment p []).
Proof.
  rewrite process_url_unfold. unfold is_active.
  assert (Hnone : forall (s0 : Session) (P : str -> Prop),
             (forall x, ~ P x) ->
             exists r s',
               (Ret (empty_result d), s0) = (Ret r, s')
               /\ forall x, x ∈ new_urls r <-> P x).
  { intros s0 P HP. eexists _, _. split; [done|]. intros x. simpl.
    split; [by intros ?%elem_of_nil|by intros ?%HP]. }
  destruct (client_get w u) as [response|e] eqn:Hget.
  2: { apply Hnone. by intros x (? & ? & [=] & _). }
  destruct (is_success response) eqn:Hok.
  2: { apply Hnone. intros x (? & ? & [= <-] & ? & _). congruence. }
  cbv zeta. destruct (rollback_exception s) eqn:Hs.
  { apply Hnone. by intros x (? & ? & _ & _ & [=] & _). }
  destruct (commit_url w _) eqn:Hstore.
  { apply Hnone. intros x (? & ? & [= <-] & _ & _ & ? & _). congruence. }
  destruct (d <? max_depth self) eqn:Hd.
  2: { apply Hnone. intros x (? & ? & _ & _ & _ & _ & ? & _).
       apply Z.ltb_ge in Hd. lia. }
  apply Z.ltb_lt in Hd.
  destruct (urlparse vn u []) as [b|] eqn:Hb.
  2: { apply Hnone. by intros x (? & ? & _ & _ & _ & _ & _ & [=] & _). }
  destruct (extract_links vn b u (soup_links response)) as [l|] eqn:Hl.
  2: { apply Hnone.
       intros x (? & ? & [= <-] & _ & _ & _ & _ & [= <-] & Hall & _).
       destruct (extract_links_None _ _ _ _ Hl) as (href & Hin & Hraise).
       by apply (Hall href). }
  eexists _, _. split; [done|]. intros x. simpl.
  rewrite elem_of_list_set, (extract_links_Some _ _ _ _ _ Hl). split.
  - intros (href & Hin & Hx). exists response, b. split_and!; try done.
    + intros h Hh Hraise.
      assert (Hh' : exists l', extract_links vn b u (soup_links response)
                               = Some l') by eauto.
      clear Hl Hin. induction (soup_links response) as [|h0 rest IH];
        [by apply elem_of_nil in Hh|].
      simpl in Hh'. destruct Hh' as [l' Hl'].
      destruct (scope_link vn b u h0) as [r0|] eqn:E0; simpl in Hl'; [|done].
      destruct (extract_links vn b u rest) as [urls|]; simpl in Hl'; [|done].
      apply elem_of_cons in Hh as [->|Hh]; [congruence|]. by eauto.
    + apply scope_link_Some in Hx as (abs & p & ?). by exists href, abs, p.
  - intros (? & ? & [= <-] & _ & _ & _ & _ & [= <-] & _
            & href & abs & p & Hin & H).
    exists href. split; [done|]. apply scope_link_Some. by exists abs, p.
Qed.

(** C2 (as amended): the cap is tested between batches only, so the visited
    set stays below [max_visited + max_workers] — after every turn of the
    loop and at its exit — and the loop does exit. *)
Theorem C2_visited_cap vn w self job_id seed s :
  0 < max_workers self ->
  (forall n,
      (size (visited_urls (iterate vn w self n job_id (initial seed s)))
       < max_visited + Z.to_nat (max_workers self))%nat)
  /\ (forall fuel st,
         crawl_loop vn w self fuel job_id (initial seed s) = Some st ->
         (size (visited_urls st) < max_visited + Z.to_nat (max_workers self))%nat)
  /\ exists fuel st,
       crawl_loop vn w self fuel job_id (initial seed s) = Some st.
Proof.
  intros Hk.
  assert (Hn : forall n,
             (size (visited_urls (iterate vn w self n job_id (initial seed s)))
              < max_visited + Z.to_nat (max_workers self))%nat).
  { intros n.
    pose proof (visited_size_iterate vn w self job_id n seed s ltac:(lia)).
    unfold max_visited in *. lia. }
  split_and!; [done| |].
  - intros fuel st [-> _]%crawl_loop_iterate. apply Hn.
  - destruct (loop_exits vn w self job_id (initial seed s) Hk) as [n Hexit].
    exists n. eexists. by apply iterate_crawl_loop.
Qed.

(** C3 (as amended): in the state after any number of turns of the loop,
    started on a fresh job, the URLs handed to [_process_url] are pairwise
    distinct strings, they are exactly the visited set, each was added when
    its item was dequeued, and the rows stored for the job carry pairwise
    distinct URLs, all of them visited.  The seed is compared and stored as
    it was given; when it has an authority and is its own normal form,
    every URL handed to [_process_url] is its own normal form, and no two
    rows have the same normal form. *)
Theorem C3_at_most_one_fetch vn w self job_id seed n :
  let st := iterate vn w self n job_id (initial seed fresh_session) in
  NoDup (map item_url (scheduled st))
  /\ visited_urls st = list_to_set (map item_url (scheduled st))
  /\ scheduled st `sublist_of` dequeued st
  /\ NoDup (map url (crawled_urls (db st)))
  /\ Forall (fun c => crawl_job_id c = job_id /\ url c ∈ visited_urls st)
            (crawled_urls (db st))
  /\ forall p0,
       urlparse vn seed [] = Some p0 ->
       netloc p0 <> [] ->
       normalize_and_scope vn seed seed = Some (Some seed) ->
       Forall (fun t => normalize_and_scope vn (item_url t) (item_url t)
                        = Some (Some (item_url t))) (scheduled st)
       /\ NoDup (map (fun c => normalize_and_scope vn (url c) (url c))
                     (crawled_urls (db st))).
Proof.
  intros st.
  destruct (visit_inv_iterate vn w self job_id n seed)
    as (Hv & Hnd & Hsub & Hrows & Hjob).
  fold st in Hv, Hnd, Hsub, Hrows, Hjob.
  assert (Hndrows : NoDup (map url (crawled_urls (db st))))
    by (by eapply sublist_NoDup).
  split_and!; try done.
  - rewrite Forall_forall in *. intros c Hc. split; [by apply Hjob|].
    rewrite Hv. apply elem_of_list_to_set. eapply elem_of_sublist; [|done].
    apply list_elem_of_fmap. by exists c.
  - intros p0 Hp0 Hne Hseed.
    pose proof (normal_iterate vn w self job_id n seed fresh_session p0
                  Hp0 Hne Hseed) as Hnormal.
    fold st in Hnormal. apply Forall_app in Hnormal as [Hdeq _].
    assert (Hsched : Forall (fun t => normalize_and_scope vn (item_url t)
                               (item_url t) = Some (Some (item_url t)))
                       (scheduled st)).
    { rewrite Forall_forall in *. intros t Ht. apply Hdeq.
      by eapply elem_of_sublist. }
    split; [done|].
    assert (Heq : map (fun c => normalize_and_scope vn (url c) (url c))
                      (crawled_urls (db st))
                  = map (fun u => Some (Some u))
                        (map url (crawled_urls (db st)))).
    { rewrite map_map. apply map_ext_in. intros c Hc%list_elem_of_In.
      assert (Hu : url c ∈ map item_url (scheduled st)).
      { eapply elem_of_sublist; [|done]. apply list_elem_of_fmap. by exists c. }
      apply list_elem_of_fmap in Hu as (t & -> & Ht).
      rewrite Forall_forall in Hsched. by apply Hsched. }
    rewrite Heq.
    assert (Inj (=) (=) (fun u : str => Some (Some u)))
      by (by intros u1 u2 [=]).
    by apply (NoDup_fmap_2 (fun u : str => Some (Some u))).
Qed.

(** C4 (as amended): [job.status] is assigned [COMPLETED] once the loop has
    ended and is reassigned [FAILED] only when the commit of [COMPLETED]
    raised; [IN_PROGRESS] is never assigned.  The status in the store changes
    at most once, to [COMPLETED] or to [FAILED], and a stored [COMPLETED] is
    final. *)
Theorem C4_status_transitions vn w self fuel job_id run :
  _crawl vn w self fuel job_id fresh_session = Some run ->
  (status_writes run = []
   \/ status_writes run = [COMPLETED]
   \/ (status_writes run = [COMPLETED; FAILED]
       /\ exists job st e,
            query_job w job_id = Ret (Some job)
            /\ last_state run = Some st
            /\ (commit_job w COMPLETED (error_message job) (db st)).1
               = Raise e))
  /\ IN_PROGRESS ∉ status_writes run
  /\ ((status_commits (final_db run) = []
       /\ committed_status (final_db run) = IN_PROGRESS)
      \/ (status_commits (final_db run) = [COMPLETED]
          /\ committed_status (final_db run) = COMPLETED
          /\ status_writes run = [COMPLETED]
          /\ job_status run = COMPLETED)
      \/ (status_commits (final_db run) = [FAILED]
          /\ committed_status (final_db run) = FAILED
          /\ job_status run = FAILED)).
Proof.
  unfold _crawl. rewrite lookup_job_active by done.
  destruct (query_job w job_id) as [[job|]|e].
  2,3: intros [= <-]; simpl; split_and!;
         [by left|apply not_elem_of_nil|by left].
  destruct (crawl_loop vn w self fuel job_id _) as [st|] eqn:Eloop; [|done].
  apply crawl_loop_iterate in Eloop as [-> _].
  destruct (crawl_loop_session vn w self job_id fuel
              (initial (seed_url job) fresh_session)) as (H1 & H2 & H3).
  simpl in H1, H2, H3.
  set (st := iterate vn w self fuel job_id
               (initial (seed_url job) fresh_session)) in *.
  destruct (commit_job w COMPLETED (error_message job) (db st))
    as [[[]|e] s1] eqn:Ec.
  - intros [= <-]; simpl. unfold commit_job in Ec.
    destruct (rollback_exception (db st)); [done|].
    destruct (commit_status w COMPLETED); [done|]. injection Ec as <-.
    simpl. split_and!.
    + by right; left.
    + rewrite !not_elem_of_cons. split_and!; [done|apply not_elem_of_nil].
    + right; left. rewrite H3. by split_and!.
  - assert (Hs1 : status_commits s1 = [] /\ committed_status s1 = IN_PROGRESS
                  /\ is_active s1 = false).
    { unfold commit_job in Ec. unfold is_active.
      destruct (rollback_exception (db st)) eqn:Er.
      - injection Ec as _ <-. by rewrite Er.
      - destruct (commit_status w COMPLETED); [|done].
        injection Ec as _ <-. done. }
    destruct Hs1 as (Hlog & Hstat & Hact).
    assert (Hf : forall msg, exists e',
               commit_job w FAILED msg s1 = (Raise e', s1)).
    { intros msg. unfold commit_job. unfold is_active in Hact.
      destruct (rollback_exception s1); [by eauto|done]. }
    destruct (Hf (Some (str_of_exn e))) as [e' ->].
    intros [= <-]; simpl. split_and!.
    + right; right. split; [done|]. exists job, st, e. by rewrite Ec.
    + rewrite !not_elem_of_cons. split_and!; [done..|apply not_elem_of_nil].
    + by left.
Qed.

(** C5: a page that was fetched and stored is stored whatever its depth,
    and at depth [max_depth] or beyond it contributes no URL. *)
Theorem C5_depth_gate vn w self job_id u d s response :
  client_get w u = Ret response ->
  is_success response = true ->
  is_active s = true ->
  commit_url w (mkCrawledUrl u (soup_title response) job_id) = None ->
  exists r,
    _process_url vn w self job_id u d s
    = (Ret r, add_row s (mkCrawledUrl u (soup_title response) job_id))
    /\ depth r = d
    /\ (max_depth self <= d -> new_urls r = []).
Proof.
  unfold is_active. intros Hget Hok Hs Hstore.
  rewrite process_url_unfold, Hget, Hok. cbv zeta.
  destruct (rollback_exception s); [done|]. rewrite Hstore.
  destruct (d <? max_depth self) eqn:Ed.
  - apply Z.ltb_lt in Ed.
    destruct (urlparse vn u []) as [b|];
      [destruct (extract_links vn b u (soup_links response))|];
      eexists; (split_and!; [done|done|simpl; lia || done]).
  - eexists. by split_and!.
Qed.

(** C6: [_process_url] returns, with the depth it was given; whenever its
    [try] block raises — the fetch, the status check, the store or
    [urllib] — it returns no URL; a failed fetch leaves the store as it was;
    and around an item whose fetch fails the other items of the batch are
    processed as they would be without it, the failed one adding nothing to
    the frontier. *)
Theorem C6_process_url_never_raises vn w self job_id u d s :
  (exists r s',
      _process_url vn w self job_id u d s = (Ret r, s') /\ depth r = d)
  /\ (forall e s',
         process_url_body vn w self job_id u d s = (Raise e, s') ->
         _process_url vn w self job_id u d s = (Ret (empty_result d), s'))
  /\ ((exists e, client_get w u = Raise e)
      \/ (exists response, client_get w u = Ret response
                           /\ is_success response = false) ->
      _process_url vn w self job_id u d s = (Ret (empty_result d), s)
      /\ (forall before after,
             gather vn w self job_id (before ++ mkItem u d :: after) s =
             let '(rs1, s1) := gather vn w self job_id before s in
             let '(rs2, s2) := gather vn w self job_id after s1 in
             (rs1 ++ Ret (empty_result d) :: rs2, s2))
      /\ forall visited frontier,
           enqueue_new self visited (empty_result d) frontier = frontier).
Proof.
  split_and!.
  - apply process_url_returns.
  - intros e s' Hbody. unfold _process_url, try_except. rewrite Hbody.
    by destruct e.
  - intros Hfail.
    assert (Hempty : forall s0,
               _process_url vn w self job_id u d s0 = (Ret (empty_result d), s0)).
    { intros s0. rewrite process_url_unfold.
      destruct Hfail as [[e ->]|(response & -> & ->)]; done. }
    split_and!; [done| |done].
    intros before after. rewrite gather_app.
    destruct (gather vn w self job_id before s) as [rs1 s1]. simpl.
    rewrite Hempty. by destruct (gather vn w self job_id after s1).
Qed.

(** C7 (as amended): [normalize_and_scope] raises exactly when [urllib]
    raises on the base, on the join or on the joined URL.  Otherwise, with
    [abs] the [href] joined to the base and [p] its components, it returns
    none when the scheme of [p] is neither http nor https or its authority
    is not the base's, and else the URL built from the components of [p]
    with the fragment emptied; when the base has an authority, the
    returned URL parses to the scheme, authority, path, parameters and
    query of [p], with no fragment. *)
Theorem C7_normalize_and_scope vn base href :
  (normalize_and_scope vn base href = None <->
   urlparse vn base [] = None
   \/ urljoin vn base href = None
   \/ exists abs, urljoin vn base href = Some abs /\ urlparse vn abs [] = None)
  /\ forall b abs p,
       urlparse vn base [] = Some b ->
       urljoin vn base href = Some abs ->
       urlparse vn abs [] = Some p ->
       let in_scope := (scheme p = lit "http" \/ scheme p = lit "https")
                       /\ netloc p = netloc b in
       (~ in_scope -> normalize_and_scope vn base href = Some None)
       /\ (in_scope ->
           exists x,
             normalize_and_scope vn base href = Some (Some x)
             /\ x = geturl (replace_fragment p [])
             /\ (netloc b <> [] ->
                 exists q,
                   urlparse vn x [] = Some q
                   /\ scheme q = scheme p /\ netloc q = netloc p
                   /\ path q = path p /\ params q = params p
                   /\ query q = query p /\ fragment q = [])).
Proof.
  split.
  - unfold normalize_and_scope, scope_link.
    destruct (urlparse vn base []) as [b|]; simpl; [|by split; auto].
    destruct (urljoin vn base href) as [abs|]; simpl; [|by split; auto].
    destruct (urlparse vn abs []) as [p|] eqn:Hp; simpl.
    + split; [done|]. intros [[=]|[[=]|(abs' & [= <-] & ?)]]. congruence.
    + split; [|done]. intros _. right; right. by exists abs.
  - intros b abs p Hb Hj Hp in_scope. unfold normalize_and_scope.
    rewrite Hb. simpl. split.
    + intros Hout. by eapply scope_link_None_kept.
    + intros [Hsch Hloc]. eexists. split_and!; [|done|].
      * apply scope_link_Some. by exists abs, p.
      * intros Hne. rewrite <- Hloc in Hne.
        destruct (scope_link_self vn abs [] p Hp Hsch Hne) as [Hround _].
        exists (replace_fragment p []). by split_and!.
Qed.

(** C8 (as amended): a URL returned by the normalisation for a base that has
    an authority is returned unchanged when it is normalised again with
    itself as the base. *)
Theorem C8_idempotent_with_authority vn base href b u :
  urlparse vn base [] = Some b ->
  netloc b <> [] ->
  normalize_and_scope vn base href = Some (Some u) ->
  normalize_and_scope vn u u = Some (Some u).
Proof.
  intros Hb Hne. unfold normalize_and_scope at 1. rewrite Hb. simpl.
  intros (abs & p & _ & Hp & Hsch & Hloc & ->)%scope_link_Some.
  rewrite <- Hloc in Hne.
  destruct (scope_link_self vn abs [] p Hp Hsch Hne) as [Hround Hself].
  unfold normalize_and_scope. rewrite Hround. simpl. exact Hself.
Qed.

(** C9: a turn of the loop takes the first [min(max_workers, |frontier|)]
    items off the front of the frontier and puts at the back, in the order
    of the batch, every URL that a page of the batch returned and that is
    not visited, one level below its page; the depths of the dequeued items
    never decrease. *)
Theorem C9_fifo_level_order vn w self job_id seed s n :
  let st := iterate vn w self n job_id (initial seed s) in
  let st' := loop_body vn w self job_id st in
  let k := Z.to_nat (Z.min (max_workers self)
                           (Z.of_nat (length (urls_to_visit st)))) in
  dequeued st' = dequeued st ++ take k (urls_to_visit st)
  /\ (exists tasks results s1,
         schedule (visited_urls st) (take k (urls_to_visit st))
         = (visited_urls st', tasks)
         /\ gather vn w self job_id tasks (db st) = (results, s1)
         /\ Forall2 (fun t r => exists pr, r = Ret pr
                                           /\ depth pr = item_depth t)
                    tasks results
         /\ urls_to_visit st'
            = drop k (urls_to_visit st)
              ++ concat (map (items_of self (visited_urls st')) results))
  /\ StronglySorted Z.le (map item_depth (dequeued st))
  /\ StronglySorted Z.le (map item_depth (dequeued st')).
Proof.
  intros st st' k.
  assert (Hsorted : forall m,
             StronglySorted Z.le
               (map item_depth
                    (dequeued (iterate vn w self m job_id (initial seed s))))).
  { intros m. destruct (order_inv_iterate vn w self job_id m seed s) as [Hss _].
    rewrite map_app in Hss. by apply StronglySorted_app_1_l in Hss. }
  assert (Hsorted' : StronglySorted Z.le (map item_depth (dequeued st'))).
  { destruct (order_inv_step vn w self job_id st
                (order_inv_iterate vn w self job_id n seed s)) as [Hss _].
    fold st' in Hss. rewrite map_app in Hss.
    by apply StronglySorted_app_1_l in Hss. }
  destruct (Z.le_gt_cases 0 (max_workers self)) as [Hk|Hk].
  - destruct (loop_body_unfold vn w self job_id st)
      as (tasks & results & s1 & Hsched & Hgather & _ & Hfr & Hdeq & _).
    fold st' in Hsched, Hfr, Hdeq.
    rewrite slice_to_nonneg in Hsched, Hdeq by done.
    rewrite slice_from_nonneg in Hfr by done.
    replace (Nat.min (Z.to_nat (max_workers self)) (length (urls_to_visit st)))
      with k in Hsched, Hfr, Hdeq by (unfold k; lia).
    destruct (gather_spec _ _ _ _ _ _ _ _ Hgather) as (Hall & _).
    split_and!; try done; [by exists tasks, results, s1|apply Hsorted].
  - assert (Hst : st = initial seed s)
      by (apply idle_iterate; lia).
    assert (Hst' : st' = initial seed s)
      by (unfold st'; rewrite Hst; apply idle_body; lia).
    assert (Hk0 : k = 0%nat) by (unfold k; lia).
    rewrite Hk0. split_and!; try done; [| |apply Hsorted].
    + by rewrite Hst', Hst.
    + exists [], [], s. rewrite Hst', Hst. simpl. by split_and!.
Qed.

(** C10 (as amended): when the commit of the row of a fetched page raises,
    [_process_url] returns no URL and stores no row.  A run ends [FAILED]
    only if the job was found and the commit of [COMPLETED] raised; an
    exception of the job's lookup leaves [_crawl] with the status untouched;
    and with a worker the run does end. *)
Theorem C10_store_failure_absorbed vn w self job_id u d s response e :
  client_get w u = Ret response ->
  is_success response = true ->
  (db_add_commit w (mkCrawledUrl u (soup_title response) job_id) s).1
  = Raise e ->
  (exists s',
      _process_url vn w self job_id u d s = (Ret (empty_result d), s')
      /\ crawled_urls s' = crawled_urls s
      /\ committed_status s' = committed_status s)
  /\ (forall fuel run,
         _crawl vn w self fuel job_id fresh_session = Some run ->
         (job_status run = FAILED ->
          exists job st e',
            query_job w job_id = Ret (Some job)
            /\ last_state run = Some st
            /\ (commit_job w COMPLETED (error_message job) (db st)).1
               = Raise e')
         /\ (forall e0, query_job w job_id = Raise e0 ->
                        ended run = Raise e0
                        /\ job_status run = IN_PROGRESS
                        /\ status_writes run = []
                        /\ final_db run = fresh_session))
  /\ (0 < max_workers self ->
      exists fuel run, _crawl vn w self fuel job_id fresh_session = Some run).
Proof.
  intros Hget Hok Hstore. split_and!.
  - rewrite process_url_unfold, Hget, Hok. cbv zeta.
    unfold db_add_commit in Hstore.
    destruct (rollback_exception s); [by eauto|].
    destruct (commit_url w _); [by eauto|done].
  - intros fuel run. unfold _crawl. rewrite lookup_job_active by done.
    destruct (query_job w job_id) as [[job|]|e0].
    2: by intros [= <-]; simpl; split.
    2: intros [= <-]; simpl; split; [done|by intros ? [= <-]].
    destruct (crawl_loop vn w self fuel job_id _) as [st|]; [|done].
    destruct (commit_job w COMPLETED (error_message job) (db st))
      as [[[]|e1] s1] eqn:Ec.
    + intros [= <-]; simpl. by split.
    + destruct (commit_job w FAILED _ s1) as [[[]|e2] s2];
        intros [= <-]; simpl;
        (split; [intros _; exists job, st, e1; by rewrite Ec|done]).
  - by apply crawl_returns.
Qed.

(** * Counterexamples and instances *)

(** C1, as stated, fails: the page requested at [http://a.example/] was
    served by [http://b.example/] after a redirect; the link to the host of
    the final URL is dropped and the link to the requested host is kept. *)
Lemma C1_counterexample :
  exists r s',
    client_get redirect_site (lit "http://a.example/") = Ret redirected_page
    /\ response_url redirected_page = lit "http://b.example/"
    /\ _process_url balanced_brackets redirect_site default_crawler 1
         (lit "http://a.example/") 0 fresh_session = (Ret r, s')
    /\ new_urls r = [lit "http://a.example/y"]
    /\ lit "http://b.example/x" ∈ soup_links redirected_page
    /\ netloc <$> urlparse balanced_brackets (lit "http://b.example/x") []
       = netloc <$> urlparse balanced_brackets (response_url redirected_page) []
    /\ netloc <$> urlparse balanced_brackets (lit "http://a.example/y") []
       <> netloc <$> urlparse balanced_brackets (response_url redirected_page) [].
Proof.
  eexists _, _. split_and!.
  - reflexivity.
  - reflexivity.
  - vm_compute. reflexivity.
  - reflexivity.
  - left.
  - vm_compute. reflexivity.
  - vm_compute. discriminate.
Qed.

(** C2, as stated, fails: on a front page with 1008 links and the default
    ten workers, the loop exits with more than [max_visited] visited URLs
    (1001 of them). *)
Lemma C2_counterexample :
  exists fuel st,
    crawl_loop balanced_brackets big_site default_crawler fuel 1
      (initial (lit "http://h/") fresh_session) = Some st
    /\ (max_visited < size (visited_urls st))%nat.
Proof. exact big_run_exit. Qed.

Lemma C2_witness :
  0 < max_workers default_crawler
  /\ forall n,
       (size (visited_urls
                (iterate balanced_brackets mock_site default_crawler n 1
                   (initial (lit "https://example.com") fresh_session)))
        < max_visited + Z.to_nat (max_workers default_crawler))%nat.
Proof.
  split; [reflexivity|].
  apply (C2_visited_cap balanced_brackets mock_site default_crawler 1
           (lit "https://example.com") fresh_session).
  reflexivity.
Defined.

(** C3, as stated, fails: the seed enters the frontier as it was given,
    while the links of a page lose their fragment.  From the seed
    [https://example.com/#top], the link [#top] of the front page is kept
    as [https://example.com/], which was not visited: the front page is
    fetched and stored a second time, and the two rows have the same
    normal form. *)
Lemma C3_counterexample :
  exists run st c1 c2,
    _crawl balanced_brackets anchored_site default_crawler 5 1 fresh_session
    = Some run
    /\ last_state run = Some st
    /\ map item_url (scheduled st)
       = [lit "https://example.com/#top"; lit "https://example.com/"]
    /\ crawled_urls (final_db run) = [c1; c2]
    /\ url c1 = lit "https://example.com/#top"
    /\ url c2 = lit "https://example.com/"
    /\ normalize_and_scope balanced_brackets (url c1) (url c1)
       = Some (Some (lit "https://example.com/"))
    /\ normalize_and_scope balanced_brackets (url c2) (url c2)
       = Some (Some (lit "https://example.com/")).
Proof.
  eexists _, _, _, _. split_and!.
  - vm_compute. reflexivity.
  - reflexivity.
  - reflexivity.
  - reflexivity.
  - reflexivity.
  - reflexivity.
  - vm_compute. reflexivity.
  - vm_compute. reflexivity.
Qed.

Lemma C3_witness :
  let st := iterate balanced_brackets mock_site default_crawler 2 1
              (initial (lit "https://example.com") fresh_session) in
  normalize_and_scope balanced_brackets (lit "https://example.com")
    (lit "https://example.com") = Some (Some (lit "https://example.com"))
  /\ Forall (fun t => normalize_and_scope balanced_brackets (item_url t)
                         (item_url t) = Some (Some (item_url t)))
            (scheduled st)
  /\ NoDup (map (fun c => normalize_and_scope balanced_brackets (url c) (url c))
                (crawled_urls (db st))).
Proof.
  intros st.
  assert (Hseed : normalize_and_scope balanced_brackets
                    (lit "https://example.com") (lit "https://example.com")
                  = Some (Some (lit "https://example.com")))
    by (vm_compute; reflexivity).
  split; [exact Hseed|].
  destruct (C3_at_most_one_fetch balanced_brackets mock_site default_crawler
              1 (lit "https://example.com") 2)
    as (_ & _ & _ & _ & _ & Hnormal).
  apply (Hnormal (mkParse (lit "https") (lit "example.com") [] [] [] [])).
  - vm_compute. reflexivity.
  - discriminate.
  - exact Hseed.
Defined.

(** C4, as stated, fails: when the commit of [COMPLETED] raises, the
    [COMPLETED] that was assigned to [job.status] is overwritten with
    [FAILED]. *)
Lemma C4_counterexample :
  status_writes
    <$> _crawl balanced_brackets flaky_store default_crawler 10 1 fresh_session
  = Some [COMPLETED; FAILED].
Proof. vm_compute. reflexivity. Qed.

Lemma C4_witness :
  from_option
    (fun run =>
       (status_writes run = []
        \/ status_writes run = [COMPLETED]
        \/ (status_writes run = [COMPLETED; FAILED]
            /\ exists job st e,
                 query_job flaky_store 1 = Ret (Some job)
                 /\ last_state run = Some st
                 /\ (commit_job flaky_store COMPLETED (error_message job)
                       (db st)).1 = Raise e))
       /\ IN_PROGRESS ∉ status_writes run
       /\ ((status_commits (final_db run) = []
            /\ committed_status (final_db run) = IN_PROGRESS)
           \/ (status_commits (final_db run) = [COMPLETED]
               /\ committed_status (final_db run) = COMPLETED
               /\ status_writes run = [COMPLETED]
               /\ job_status run = COMPLETED)
           \/ (status_commits (final_db run) = [FAILED]
               /\ committed_status (final_db run) = FAILED
               /\ job_status run = FAILED)))
    False
    (_crawl balanced_brackets flaky_store default_crawler 10 1 fresh_session).
Proof.
  destruct (_crawl balanced_brackets flaky_store default_crawler 10 1
              fresh_session) as [run|] eqn:E.
  - exact (C4_status_transitions balanced_brackets flaky_store default_crawler
             10 1 run E).
  - vm_compute in E. discriminate E.
Defined.

Lemma C5_witness :
  client_get mock_site (lit "https://example.com") = Ret mock_page
  /\ is_active fresh_session = true
  /\ exists r,
       _process_url balanced_brackets mock_site default_crawler 1
         (lit "https://example.com") 2 fresh_session
       = (Ret r, add_row fresh_session
                   (mkCrawledUrl (lit "https://example.com")
                                 (Some (lit "Test Page")) 1))
       /\ depth r = 2
       /\ (max_depth default_crawler <= 2 -> new_urls r = []).
Proof.
  split; [reflexivity|]. split; [reflexivity|].
  apply (C5_depth_gate balanced_brackets mock_site default_crawler 1
           (lit "https://example.com") 2 fresh_session mock_page);
    reflexivity.
Defined.

Lemma C6_witness :
  _process_url balanced_brackets mock_site default_crawler 1
    (lit "https://example.com/page1") 1 fresh_session
  = (Ret (empty_result 1), fresh_session).
Proof.
  apply (C6_process_url_never_raises balanced_brackets mock_site
           default_crawler 1 (lit "https://example.com/page1") 1 fresh_session).
  left. eexists. reflexivity.
Defined.

(** C7, as stated, fails: for the base [http:///] the link [https:x?q#f]
    resolves to itself, with the path [x]; what is returned is not that
    URL without its fragment but [https:///x?q], whose path is [/x].  And
    for a link that [urllib] refuses, nothing is returned or rejected: the
    call raises. *)
Lemma C7_counterexample :
  urljoin balanced_brackets (lit "http:///") (lit "https:x?q#f")
  = Some (lit "https:x?q#f")
  /\ path <$> urlparse balanced_brackets (lit "https:x?q#f") []
     = Some (lit "x")
  /\ normalize_and_scope balanced_brackets (lit "http:///") (lit "https:x?q#f")
     = Some (Some (lit "https:///x?q"))
  /\ path <$> urlparse balanced_brackets (lit "https:///x?q") []
     = Some (lit "/x")
  /\ normalize_and_scope balanced_brackets (lit "https://example.com")
       (lit "http://[::1/x")
     = None.
Proof. split_and!; vm_compute; reflexivity. Qed.

Lemma C7_witness :
  normalize_and_scope balanced_brackets (lit "https://example.com")
    (lit "/relative-link?page=2#top")
  = Some (Some (lit "https://example.com/relative-link?page=2"))
  /\ exists q,
       urlparse balanced_brackets
         (lit "https://example.com/relative-link?page=2") [] = Some q
       /\ scheme q = lit "https" /\ netloc q = lit "example.com"
       /\ path q = lit "/relative-link" /\ params q = []
       /\ query q = lit "page=2" /\ fragment q = [].
Proof.
  destruct (C7_normalize_and_scope balanced_brackets
              (lit "https://example.com") (lit "/relative-link?page=2#top"))
    as [_ Hret].
  destruct (Hret (mkParse (lit "https") (lit "example.com") [] [] [] [])
                 (lit "https://example.com/relative-link?page=2#top")
                 (mkParse (lit "https") (lit "example.com")
                          (lit "/relative-link") [] (lit "page=2") (lit "top")))
    as [_ Hin].
  - vm_compute. reflexivity.
  - vm_compute. reflexivity.
  - vm_compute. reflexivity.
  - destruct Hin as (x & Hx & -> & Hq); [split; [by right|reflexivity]|].
    split; [exact Hx|]. apply Hq. discriminate.
Defined.

(** The scope test compares the authorities as strings, so a link to the
    same host that spells out the default port, or writes the host in upper
    case, is not kept. *)
Example same_host_other_spelling :
  normalize_and_scope balanced_brackets (lit "https://example.com")
    (lit "https://example.com:443/x") = Some None
  /\ normalize_and_scope balanced_brackets (lit "https://example.com")
       (lit "https://EXAMPLE.com/x") = Some None
  /\ normalize_and_scope balanced_brackets (lit "https://example.com")
       (lit "https://example.com/x") = Some (Some (lit "https://example.com/x")).
Proof. split_and!; vm_compute; reflexivity. Qed.

(** C8, as stated, fails: [http:///a/../b] is returned by the normalisation
    (for itself as the base and an empty [href]), and normalising it with
    itself as the base gives [http:///b]. *)
Lemma C8_counterexample :
  normalize_and_scope balanced_brackets (lit "http:///a/../b") []
  = Some (Some (lit "http:///a/../b"))
  /\ normalize_and_scope balanced_brackets (lit "http:///a/../b")
       (lit "http:///a/../b")
     = Some (Some (lit "http:///b"))
  /\ normalize_and_scope balanced_brackets (lit "http:///a/../b")
       (lit "http:///a/../b")
     <> Some (Some (lit "http:///a/../b")).
Proof.
  split_and!.
  - vm_compute. reflexivity.
  - vm_compute. reflexivity.
  - vm_compute. discriminate.
Qed.

Lemma C8_witness :
  normalize_and_scope balanced_brackets
    (lit "https://example.com/relative-link")
    (lit "https://example.com/relative-link")
  = Some (Some (lit "https://example.com/relative-link")).
Proof.
  apply (C8_idempotent_with_authority balanced_brackets
           (lit "https://example.com") (lit "/relative-link#top")
           (mkParse (lit "https") (lit "example.com") [] [] [] [])).
  - vm_compute. reflexivity.
  - discriminate.
  - vm_compute. reflexivity.
Defined.

(** C10, as stated, fails.  An exception of the job's lookup leaves
    [_crawl] before any status is written, and the job stays
    [IN_PROGRESS].  And on a store that refuses the rows and takes every
    status, the run ends with [job.status] at [FAILED]: the commit of
    [COMPLETED] raises in the session that the refused row left behind. *)
Lemma C10_counterexample :
  (exists run e,
      _crawl balanced_brackets lost_connection default_crawler 10 1
        fresh_session = Some run
      /\ query_job lost_connection 1 = Raise e
      /\ ended run = Raise e
      /\ job_status run = IN_PROGRESS
      /\ committed_status (final_db run) = IN_PROGRESS)
  /\ (exists run,
        _crawl balanced_brackets readonly_store default_crawler 10 1
          fresh_session = Some run
        /\ commit_status readonly_store COMPLETED = None
        /\ commit_status readonly_store FAILED = None
        /\ job_status run = FAILED
        /\ committed_status (final_db run) = IN_PROGRESS
        /\ crawled_urls (final_db run) = []).
Proof.
  split.
  - eexists _, _. split_and!; [vm_compute; reflexivity|reflexivity..].
  - eexists. split_and!; [vm_compute; reflexivity|reflexivity..].
Qed.

Lemma C10_witness :
  exists s',
    _process_url balanced_brackets readonly_store default_crawler 1
      (lit "https://example.com") 0 fresh_session
    = (Ret (empty_result 0), s')
    /\ crawled_urls s' = crawled_urls fresh_session
    /\ committed_status s' = committed_status fresh_session.
Proof.
  apply (C10_store_failure_absorbed balanced_brackets readonly_store
           default_crawler 1 (lit "https://example.com") 0 fresh_session
           mock_page (SQLAlchemyError (lit "value too long for type")));
    reflexivity.
Defined.

(** * Properties of a whole run *)

(** X1: a crawl stays on the host of its seed.  When the seed parses with a
    non-empty authority, every item that was dequeued or waits in the
    frontier is the seed or an http or https URL of that authority without
    a fragment; every visited URL and every row added has that authority. *)
Theorem X1_crawl_stays_on_host vn w self job_id seed s p0 n :
  urlparse vn seed [] = Some p0 ->
  netloc p0 <> [] ->
  let st := iterate vn w self n job_id (initial seed s) in
  (forall i, i ∈ dequeued st ++ urls_to_visit st ->
             i = mkItem seed 0 \/ kept_on_host vn (netloc p0) (item_url i))
  /\ (forall u, u ∈ visited_urls st -> on_host vn (netloc p0) u)
  /\ exists rows,
       crawled_urls (db st) = crawled_urls s ++ rows
       /\ Forall (fun c => on_host vn (netloc p0) (url c)) rows.
Proof.
  intros Hp0 Hne st.
  pose proof (on_host_iterate vn w self job_id n seed s p0 Hp0 Hne) as Hall.
  fold st in Hall. rewrite Forall_forall in Hall.
  destruct (books_iterate vn w self job_id n seed s)
    as (Hv & _ & Hsub & _ & rows & Hrows & Hsubrows & _).
  fold st in Hv, Hsub, Hrows, Hsubrows.
  assert (Hvis : forall u, u ∈ visited_urls st -> on_host vn (netloc p0) u).
  { intros u. rewrite Hv, elem_of_list_to_set.
    intros (t & -> & Ht)%list_elem_of_fmap.
    destruct (Hall t) as [->|(q & Hq & Hh & _)].
    - apply elem_of_app. left. by eapply elem_of_sublist.
    - by exists p0.
    - by exists q. }
  split_and!; [done|done|].
  exists rows. split; [done|]. apply Forall_forall. intros c Hc.
  apply Hvis. rewrite Hv. apply elem_of_list_to_set.
  eapply elem_of_sublist; [|done]. apply list_elem_of_fmap. by exists c.
Qed.

(** X2: the seed is at depth 0 and no item is ever enqueued, dequeued or
    handed to [_process_url] at a depth beyond [max_depth] (beyond 0 when
    [max_depth] is negative). *)
Theorem X2_depth_within_bounds vn w self job_id seed s n :
  let st := iterate vn w self n job_id (initial seed s) in
  (forall i, i ∈ dequeued st ++ urls_to_visit st ->
             0 <= item_depth i <= Z.max 0 (max_depth self))
  /\ (forall t, t ∈ scheduled st ->
                0 <= item_depth t <= Z.max 0 (max_depth self)).
Proof.
  intros st.
  pose proof (depth_ok_iterate vn w self job_id n seed s) as Hall.
  fold st in Hall. rewrite Forall_forall in Hall.
  destruct (books_iterate vn w self job_id n seed s) as (_ & _ & Hsub & _).
  fold st in Hsub.
  split; [done|]. intros t Ht. apply Hall, elem_of_app. left.
  by eapply elem_of_sublist.
Qed.

(** X3: nothing enters the frontier but the seed and links that
    [_process_url] returned for a page fetched one level up, below
    [max_depth]. *)
Theorem X3_frontier_provenance vn w self job_id seed s n :
  let st := iterate vn w self n job_id (initial seed s) in
  forall i, i ∈ dequeued st ++ urls_to_visit st ->
    i = mkItem seed 0
    \/ exists t r,
         t ∈ scheduled st
         /\ page_result vn w self job_id t = Ret r
         /\ item_url i ∈ new_urls r
         /\ item_depth i = item_depth t + 1
         /\ item_depth t < max_depth self.
Proof.
  intros st.
  pose proof (provenance_iterate vn w self job_id n seed s) as Hall.
  fold st in Hall. by rewrite Forall_forall in Hall.
Qed.

(** X4: when the loop ends on an empty frontier and the transaction of the
    session is still active — no commit was refused —, the exploration is
    complete: the seed was visited, and so was every URL that
    [_process_url] returned for a page fetched below [max_depth]. *)
Theorem X4_exploration_complete vn w self job_id seed s fuel st :
  crawl_loop vn w self fuel job_id (initial seed s) = Some st ->
  urls_to_visit st = [] ->
  is_active (db st) = true ->
  seed ∈ visited_urls st
  /\ forall t r x,
       t ∈ scheduled st -> page_result vn w self job_id t = Ret r ->
       item_depth t < max_depth self -> x ∈ new_urls r ->
       x ∈ visited_urls st.
Proof.
  intros [-> _]%crawl_loop_iterate Hempty Hact.
  destruct (closure_iterate vn w self job_id fuel seed s Hact) as [Hseed Hcl].
  destruct (books_iterate vn w self job_id fuel seed s) as (_ & _ & _ & Hdq & _).
  rewrite Hempty in *. rewrite app_nil_r in Hseed. split.
  - by apply (Hdq _ Hseed).
  - intros t r x Ht Hr Hd Hx.
    destruct (Hcl t r x Ht Hr Hd Hx) as [?|?%elem_of_nil]; done.
Qed.

(** X5: a run only appends rows.  The rows stored before it are kept as
    they were; the rows it adds carry the job's id and pairwise distinct
    URLs, and there are fewer than [max_visited + max_workers] of them. *)
Theorem X5_rows_of_a_run vn w self fuel job_id s run :
  0 <= max_workers self ->
  _crawl vn w self fuel job_id s = Some run ->
  exists rows,
    crawled_urls (final_db run) = crawled_urls s ++ rows
    /\ Forall (fun c => crawl_job_id c = job_id) rows
    /\ NoDup (map url rows)
    /\ (length rows < max_visited + Z.to_nat (max_workers self))%nat.
Proof.
  intros Hk. unfold _crawl.
  assert (Hnone : exists rows,
             crawled_urls s = crawled_urls s ++ rows
             /\ Forall (fun c => crawl_job_id c = job_id) rows
             /\ NoDup (map url rows)
             /\ (length rows < max_visited + Z.to_nat (max_workers self))%nat).
  { exists []. rewrite app_nil_r. unfold max_visited. simpl.
    split_and!; [done|constructor|constructor|lia]. }
  destruct (lookup_job w job_id s) as [[job|]|e]; [|by intros [= <-]..].
  destruct (crawl_loop vn w self fuel job_id _) as [st|] eqn:Eloop; [|done].
  apply crawl_loop_iterate in Eloop as [-> _].
  destruct (books_iterate vn w self job_id fuel (seed_url job) s)
    as (Hv & Hnd & _ & _ & rows & Hrows & Hsub & Hjob).
  pose proof (visited_size_iterate vn w self job_id fuel (seed_url job) s Hk)
    as Hsize.
  set (st := iterate vn w self fuel job_id (initial (seed_url job) s)) in *.
  assert (Hlen : (length rows <= size (visited_urls st))%nat).
  { rewrite Hv, size_list_to_set by done.
    apply sublist_length in Hsub. by rewrite length_map in Hsub. }
  assert (Hgoal : exists rows,
             crawled_urls (db st) = crawled_urls s ++ rows
             /\ Forall (fun c => crawl_job_id c = job_id) rows
             /\ NoDup (map url rows)
             /\ (length rows < max_visited + Z.to_nat (max_workers self))%nat).
  { exists rows. split_and!; [done|done|by eapply sublist_NoDup|].
    unfold max_visited in *. lia. }
  assert (Hcommit : forall status msg s0,
             crawled_urls (commit_job w status msg s0).2 = crawled_urls s0).
  { intros status msg s0. unfold commit_job.
    destruct (rollback_exception s0); [done|].
    by destruct (commit_status w status). }
  pose proof (Hcommit COMPLETED (error_message job) (db st)) as Hc.
  destruct (commit_job w COMPLETED (error_message job) (db st))
    as [[[]|e1] s1]; simpl in Hc.
  { intros [= <-]. simpl. by rewrite Hc. }
  pose proof (Hcommit FAILED (Some (str_of_exn e1)) s1) as Hf.
  destruct (commit_job w FAILED (Some (str_of_exn e1)) s1) as [[[]|e2] s2];
    simpl in Hf; intros [= <-]; simpl; by rewrite Hf, Hc.
Qed.

(** X6: a crawler built with [max_workers <= 0] never fetches and never
    ends a crawl: every batch is empty, the frontier keeps the seed, and the
    loop does not reach its exit, so the job of a crawl that found it stays
    as it was. *)
Theorem X6_no_worker_no_exit vn w self job_id seed s :
  max_workers self <= 0 ->
  (forall n, iterate vn w self n job_id (initial seed s) = initial seed s)
  /\ (forall fuel, crawl_loop vn w self fuel job_id (initial seed s) = None)
  /\ forall fuel job,
       is_active s = true ->
       query_job w job_id = Ret (Some job) ->
       _crawl vn w self fuel job_id s = None.
Proof.
  intros Hk.
  assert (Hloop : forall fuel sd s0,
             crawl_loop vn w self fuel job_id (initial sd s0) = None).
  { induction fuel as [|fuel IH]; intros sd s0; simpl;
      rewrite loop_test_initial; [done|].
    rewrite idle_body by done. apply IH. }
  split_and!.
  - intros n. by apply idle_iterate.
  - intros fuel. apply Hloop.
  - intros fuel job Hact Hjob. unfold _crawl.
    by rewrite lookup_job_active, Hjob, Hloop.
Qed.

(** X7: a seed that cannot be fetched — the transport raises or the
    response is an error — is no failure of the job.  With at least one
    worker the run takes one turn, hands the seed to [_process_url], adds no
    row and, the session being active and the store accepting the status,
    ends [COMPLETED]. *)
Theorem X7_unfetchable_seed_completes vn w self fuel job_id s job :
  0 < max_workers self ->
  query_job w job_id = Ret (Some job) ->
  (exists e, client_get w (seed_url job) = Raise e)
  \/ (exists response, client_get w (seed_url job) = Ret response
                       /\ is_success response = false) ->
  is_active s = true ->
  commit_status w COMPLETED = None ->
  exists run,
    _crawl vn w self (S fuel) job_id s = Some run
    /\ ended run = Ret tt
    /\ job_status run = COMPLETED
    /\ committed_status (final_db run) = COMPLETED
    /\ crawled_urls (final_db run) = crawled_urls s
    /\ scheduled <$> last_state run = Some [mkItem (seed_url job) 0].
Proof.
  intros Hk Hjob Hfail Hact Hcommit.
  assert (Hto : slice_to [mkItem (seed_url job) 0] (max_workers self)
                = [mkItem (seed_url job) 0]).
  { rewrite slice_to_nonneg by lia. simpl.
    by replace (Nat.min (Z.to_nat (max_workers self)) 1) with 1%nat by lia. }
  assert (Hfrom : slice_from [mkItem (seed_url job) 0] (max_workers self) = []).
  { rewrite slice_from_nonneg by lia. simpl.
    by replace (Nat.min (Z.to_nat (max_workers self)) 1) with 1%nat by lia. }
  assert (Hpage : _process_url vn w self job_id (seed_url job) 0 s
                  = (Ret (empty_result 0), s)).
  { rewrite process_url_unfold.
    by destruct Hfail as [[e ->]|(response & -> & ->)]. }
  unfold _crawl. rewrite lookup_job_active, Hjob by done.
  assert (Hloop : crawl_loop vn w self (S fuel) job_id (initial (seed_url job) s)
                  = Some (mkLoop ({[seed_url job]} ∪ ∅) [] s
                                 [mkItem (seed_url job) 0]
                                 [mkItem (seed_url job) 0])).
  { simpl. unfold loop_body, initial. simpl. rewrite Hto, Hfrom. simpl.
    rewrite decide_False by set_solver. simpl. rewrite Hpage. simpl.
    by destruct fuel. }
  rewrite Hloop. unfold commit_job. simpl. unfold is_active in Hact.
  destruct (rollback_exception s); [done|]. rewrite Hcommit. simpl.
  eexists. split; [done|]. by simpl.
Qed.

(** X8: with [max_depth <= 0] and at least one worker a run fetches the
    seed and nothing else, whatever the page links to: it ends after one
    turn with an empty frontier. *)
Theorem X8_depth_zero_fetches_the_seed_only vn w self fuel job_id seed s :
  0 < max_workers self ->
  max_depth self <= 0 ->
  exists st,
    crawl_loop vn w self (S fuel) job_id (initial seed s) = Some st
    /\ scheduled st = [mkItem seed 0]
    /\ visited_urls st = {[seed]}
    /\ urls_to_visit st = [].
Proof.
  intros Hk Hd.
  assert (Hto : slice_to [mkItem seed 0] (max_workers self) = [mkItem seed 0]).
  { rewrite slice_to_nonneg by lia. simpl.
    by replace (Nat.min (Z.to_nat (max_workers self)) 1) with 1%nat by lia. }
  assert (Hfrom : slice_from [mkItem seed 0] (max_workers self) = []).
  { rewrite slice_from_nonneg by lia. simpl.
    by replace (Nat.min (Z.to_nat (max_workers self)) 1) with 1%nat by lia. }
  set (st0 := initial seed s).
  destruct (loop_body_unfold vn w self job_id st0)
    as (tasks & results & s1 & Hsched & Hgather & _ & Hfr & _ & Hsch).
  simpl in Hsched, Hfr, Hsch. rewrite Hto in Hsched. rewrite Hfrom in Hfr.
  simpl in Hsched. rewrite decide_False in Hsched by set_solver.
  simpl in Hsched. injection Hsched as Hv <-.
  assert (Hnew : concat (map (items_of self
                                (visited_urls (loop_body vn w self job_id st0)))
                           results) = []).
  { apply elem_of_nil_inv. intros i Hi.
    destruct (gather_spec _ _ _ _ _ _ _ _ Hgather) as (Hall & _).
    destruct (new_items_depths _ _ _ _ Hall i Hi) as (t & Ht & Hdi).
    apply list_elem_of_singleton in Ht as ->. simpl in Hdi.
    apply elem_of_concat_map in Hi as (r & Hr & Hi).
    apply Forall2_length in Hall as Hlen.
    destruct results as [|r0 [|? ?]]; try done.
    apply list_elem_of_singleton in Hr as ->.
    apply Forall2_cons_1 in Hall as [(pr & -> & Hpr) _]. simpl in *.
    apply elem_of_new_items in Hi as (_ & _ & _ & Hlt). lia. }
  rewrite Hnew in Hfr. simpl in Hfr.
  exists (loop_body vn w self job_id st0). split_and!.
  - assert (Hexit : loop_test (loop_body vn w self job_id st0) = false)
      by (unfold loop_test; by rewrite Hfr).
    unfold st0 at 1. simpl. rewrite loop_test_initial. fold st0.
    destruct fuel; simpl; by rewrite Hexit.
  - done.
  - rewrite <- Hv. set_solver.
  - done.
Qed.

(** ** The order in which a batch completes *)

(** In an active session, a call leaves the session active exactly when
    it does so from a fresh one, and then it adds the same rows. *)
Lemma process_url_rows vn w self job_id u d s :
  is_active s = true ->
  is_active (_process_url vn w self job_id u d s).2
  = is_active (_process_url vn w self job_id u d fresh_session).2
  /\ crawled_urls (_process_url vn w self job_id u d s).2
     = crawled_urls s
       ++ crawled_urls (_process_url vn w self job_id u d fresh_session).2.
Proof.
  unfold is_active. intros Hs. rewrite !process_url_unfold. cbv zeta.
  destruct (rollback_exception s) eqn:Es; [done|].
  assert (Hsame : match rollback_exception s with
                  | Some _ => false | None => true end = true
                  /\ crawled_urls s = crawled_urls s ++ [])
    by (rewrite Es, app_nil_r; split; reflexivity).
  destruct (client_get w u) as [response|e]; [|exact Hsame].
  destruct (is_success response); [|exact Hsame].
  simpl. destruct (commit_url w _); [by rewrite app_nil_r|].
  destruct (d <? max_depth self); [|by simpl; rewrite Es].
  destruct (urlparse vn u []) as [b|]; [|by simpl; rewrite Es].
  destruct (extract_links vn b u _); by simpl; rewrite Es.
Qed.

Lemma gather_rows vn w self job_id tasks : forall s,
  is_active s = true ->
  is_active (gather vn w self job_id tasks s).2
  = forallb (fun t => is_active
                        (_process_url vn w self job_id (item_url t)
                           (item_depth t) fresh_session).2) tasks
  /\ (is_active (gather vn w self job_id tasks s).2 = true ->
      crawled_urls (gather vn w self job_id tasks s).2
      = crawled_urls s
        ++ concat (map (fun t => crawled_urls
                                   (_process_url vn w self job_id (item_url t)
                                      (item_depth t) fresh_session).2)
                       tasks)).
Proof.
  induction tasks as [|t rest IH]; intros s Hs; simpl.
  - by rewrite app_nil_r.
  - destruct (process_url_rows vn w self job_id (item_url t) (item_depth t)
                s Hs) as [Hact Hrow].
    pose proof (process_url_inactive vn w self job_id) as Hdead.
    destruct (_process_url vn w self job_id (item_url t) (item_depth t) s)
      as [r s1].
    simpl in Hact, Hrow. rewrite <- Hact.
    destruct (is_active s1) eqn:Hs1.
    + destruct (IH s1 Hs1) as [IH1 IH2].
      destruct (gather vn w self job_id rest s1) as [rs s2].
      simpl in *. split; [done|]. intros H2.
      by rewrite (IH2 H2), Hrow, <- app_assoc.
    + assert (Hrest : (gather vn w self job_id rest s1).2 = s1).
      { clear IH. induction rest as [|t' rest IH]; simpl; [done|].
        rewrite Hdead by done.
        destruct (gather vn w self job_id rest s1) as [rs s2]. by simpl in *. }
      destruct (gather vn w self job_id rest s1) as [rs s2].
      simpl in *. subst s2. by rewrite Hs1.
Qed.

Lemma forallb_Permutation {A} (f : A -> bool) (l l' : list A) :
  l ≡ₚ l' -> forallb f l = forallb f l'.
Proof.
  induction 1 as [|x l l' _ IH|x y l|l l' l'' _ IH1 _ IH2]; simpl.
  - done.
  - by rewrite IH.
  - by rewrite !andb_assoc, (andb_comm (f y)).
  - by rewrite IH1.
Qed.

Lemma concat_map_Permutation {A B} (f : A -> list B) (l l' : list A) :
  l ≡ₚ l' -> concat (map f l) ≡ₚ concat (map f l').
Proof.
  induction 1 as [|x l l' _ IH|x y l|l l' l'' _ IH1 _ IH2]; simpl.
  - done.
  - by rewrite IH.
  - rewrite !app_assoc. f_equiv. apply Permutation_app_comm.
  - by rewrite IH1.
Qed.

(** X19: while no commit is refused, the tasks of a batch do not
    interfere.  When a batch that starts in an active session leaves it
    active, it does so in whatever order its tasks complete, and the
    session ends with the same rows up to their order, the same results up
    to their order — each what its page holds — and the same status of the
    job. *)
Theorem X19_completion_order_irrelevant vn w self job_id tasks order s :
  order ≡ₚ tasks ->
  is_active (gather vn w self job_id tasks s).2 = true ->
  is_active (gather vn w self job_id order s).2 = true
  /\ (gather vn w self job_id tasks s).1
     = map (page_result vn w self job_id) tasks
  /\ (gather vn w self job_id order s).1
     ≡ₚ (gather vn w self job_id tasks s).1
  /\ crawled_urls (gather vn w self job_id order s).2
     ≡ₚ crawled_urls (gather vn w self job_id tasks s).2
  /\ committed_status (gather vn w self job_id order s).2
     = committed_status (gather vn w self job_id tasks s).2
  /\ committed_error (gather vn w self job_id order s).2
     = committed_error (gather vn w self job_id tasks s).2
  /\ status_commits (gather vn w self job_id order s).2
     = status_commits (gather vn w self job_id tasks s).2.
Proof.
  intros Hperm Hact.
  destruct (gather vn w self job_id tasks s) as [rs s1] eqn:E1.
  destruct (gather vn w self job_id order s) as [rs' s2] eqn:E2.
  simpl in *.
  destruct (gather_results _ _ _ _ _ _ _ _ E1) as [_ Hres1].
  destruct (Hres1 Hact) as [Hs ->].
  destruct (gather_rows vn w self job_id tasks s Hs) as [Hact1 Hrows1].
  destruct (gather_rows vn w self job_id order s Hs) as [Hact2 Hrows2].
  rewrite E1 in Hact1, Hrows1. rewrite E2 in Hact2, Hrows2. simpl in *.
  assert (Hact' : is_active s2 = true).
  { rewrite Hact2, (forallb_Permutation _ _ _ Hperm), <- Hact1. done. }
  destruct (gather_results _ _ _ _ _ _ _ _ E2) as [_ Hres2].
  destruct (Hres2 Hact') as [_ ->].
  destruct (gather_spec _ _ _ _ _ _ _ _ E1) as (_ & ? & _ & _ & _ & ? & ? & ?).
  destruct (gather_spec _ _ _ _ _ _ _ _ E2) as (_ & ? & _ & _ & _ & ? & ? & ?).
  split_and!; try done; try congruence.
  - by apply Permutation_map.
  - rewrite Hrows1, Hrows2 by done. f_equiv. by apply concat_map_Permutation.
Qed.

(** When the store refuses a row the order does matter: on a batch of two
    pages of which the second is refused, the first returns its link and is
    stored; with the refused page completing first, the other returns
    nothing and is not stored. *)
Example completion_order_matters :
  let a := mkItem (lit "https://example.com/#top") 0 in
  let b := mkItem (lit "https://example.com/") 0 in
  (gather balanced_brackets picky_store default_crawler 1 [a; b]
     fresh_session).1
  = [Ret (mkPageResult 0 [lit "https://example.com/"]); Ret (empty_result 0)]
  /\ (gather balanced_brackets picky_store default_crawler 1 [b; a]
        fresh_session).1
     = [Ret (empty_result 0); Ret (empty_result 0)]
  /\ map url (crawled_urls
                (gather balanced_brackets picky_store default_crawler 1 [a; b]
                   fresh_session).2)
     = [lit "https://example.com/#top"]
  /\ crawled_urls
       (gather balanced_brackets picky_store default_crawler 1 [b; a]
          fresh_session).2
     = [].
Proof. split_and!; vm_compute; reflexivity. Qed.

(** * The shape of the URLs that are kept *)

Lemma urlsplit_no_hash vn x d r :
  urlsplit vn x d = Some r ->
  "#"%char ∉ s_netloc r /\ "#"%char ∉ s_path r /\ "#"%char ∉ s_query r.
Proof.
  unfold urlsplit.
  destruct (split_scheme _ _) as [sch x3].
  assert (Hcuts : forall x4 a f pth q,
             cut "#"%char x4 = (a, f) -> cut "?"%char a = (pth, q) ->
             "#"%char ∉ pth /\ "#"%char ∉ q).
  { intros x4 a f pth q [Ha _]%cut_spec [_ Hq]%cut_spec.
    destruct Hq as [->|[-> ->]].
    - rewrite not_elem_of_app, not_elem_of_cons in Ha. tauto.
    - split; [done|apply not_elem_of_nil]. }
  destruct (starts_with_slashes x3).
  - unfold _splitnetloc. destruct (span_netloc (drop 2 x3)) as [n x4] eqn:En.
    destruct (vn n); [|done].
    destruct (cut "#"%char x4) as [a f] eqn:Ef.
    destruct (cut "?"%char a) as [pth q] eqn:Eq.
    intros [= <-]. simpl.
    apply span_netloc_spec in En as (_ & Hn & _).
    split; [|by eapply Hcuts].
    intros Hin. rewrite Forall_forall in Hn. apply (Hn _ Hin).
    right; by right.
  - simpl. destruct (cut "#"%char x3) as [a f] eqn:Ef.
    destruct (cut "?"%char a) as [pth q] eqn:Eq.
    intros [= <-]. simpl. split; [apply not_elem_of_nil|by eapply Hcuts].
Qed.

Lemma urlparse_no_hash vn x d p :
  urlparse vn x d = Some p ->
  "#"%char ∉ netloc p /\ "#"%char ∉ path p /\ "#"%char ∉ params p
  /\ "#"%char ∉ query p.
Proof.
  unfold urlparse. destruct (urlsplit vn x d) as [r|] eqn:E; [|done].
  destruct (urlsplit_no_hash _ _ _ _ E) as (Hn & Hp & Hq).
  destruct (member (s_scheme r) uses_params && has ";"%char (s_path r)).
  - unfold _splitparams.
    pose proof (rsplit_after_spec "/"%char (s_path r)) as [Hsplit _].
    destruct (rsplit_after "/"%char (s_path r)) as [dir last]. simpl in *.
    rewrite Hsplit in Hp. apply not_elem_of_app in Hp as [Hdir Hlast].
    destruct (split_once ";"%char last) as [[a b]|] eqn:Es.
    + apply split_once_Some in Es as [-> _].
      rewrite not_elem_of_app, not_elem_of_cons in Hlast.
      intros [= <-]. simpl. rewrite not_elem_of_app. tauto.
    + intros [= <-]. simpl. rewrite Hsplit, not_elem_of_app.
      split_and!; try done. apply not_elem_of_nil.
  - intros [= <-]. simpl. split_and!; try done. apply not_elem_of_nil.
Qed.

Lemma urlunsplit_kept_shape sch loc url qry :
  sch = lit "http" \/ sch = lit "https" ->
  "#"%char ∉ loc -> "#"%char ∉ url -> "#"%char ∉ qry ->
  "#"%char ∉ urlunsplit (mkSplit sch loc url qry [])
  /\ (lit "http://" `prefix_of` urlunsplit (mkSplit sch loc url qry [])
      \/ lit "https://" `prefix_of` urlunsplit (mkSplit sch loc url qry [])).
Proof.
  intros Hsch Hn Hu Hq.
  assert (Hslash : "#"%char <> "/"%char) by done.
  assert (Hcolon : "#"%char <> ":"%char) by done.
  assert (Hquest : "#"%char <> "?"%char) by done.
  unfold urlunsplit. cbn [s_scheme s_netloc s_path s_query s_fragment].
  assert (Hmem : nonempty sch && member sch uses_netloc = true)
    by (by destruct Hsch as [->| ->]).
  assert (Hs : nonempty sch = true) by (by destruct Hsch as [->| ->]).
  rewrite Hmem, Hs.
  assert (Hbody : exists rest,
             (if nonempty loc || (true && negb (starts_with_slashes url))
              then lit "//" ++ loc ++
                   (if nonempty url && negb (starts_with_slash url)
                    then "/"%char :: url else url)
              else url) = lit "//" ++ rest
             /\ "#"%char ∉ rest).
  { destruct (nonempty loc || (true && negb (starts_with_slashes url))) eqn:E.
    - eexists. split; [done|]. rewrite not_elem_of_app. split; [done|].
      destruct (nonempty url && negb (starts_with_slash url)); [|done].
      rewrite not_elem_of_cons. done.
    - apply orb_false_iff in E as [_ E]. simpl in E.
      apply negb_false_iff in E.
      destruct url as [|c1 [|c2 url']]; try done. simpl in E.
      apply andb_true_iff in E
          as [->%bool_decide_eq_true ->%bool_decide_eq_true].
      exists url'. split; [done|].
      rewrite !not_elem_of_cons in Hu. tauto. }
  destruct Hbody as (rest & -> & Hrest).
  assert (Hfront : "#"%char ∉ sch ++ ":"%char :: lit "//" ++ rest).
  { rewrite not_elem_of_app, not_elem_of_cons, not_elem_of_app.
    split_and!; try done.
    - by destruct Hsch as [->| ->]; unfold lit; simpl;
        rewrite !not_elem_of_cons; split_and!; try done; apply not_elem_of_nil.
    - unfold lit; simpl. rewrite !not_elem_of_cons. split_and!; try done.
      apply not_elem_of_nil. }
  split.
  - destruct (nonempty qry); simpl; [|done].
    rewrite not_elem_of_app, not_elem_of_cons. done.
  - destruct Hsch as [->| ->]; [left|right];
      destruct (nonempty qry); simpl; unfold lit; simpl; by eexists.
Qed.

(** the URL of http or https components without a fragment *)
Lemma geturl_kept_shape p :
  scheme p = lit "http" \/ scheme p = lit "https" ->
  "#"%char ∉ netloc p -> "#"%char ∉ path p -> "#"%char ∉ params p ->
  "#"%char ∉ query p ->
  "#"%char ∉ geturl (replace_fragment p [])
  /\ (lit "http://" `prefix_of` geturl (replace_fragment p [])
      \/ lit "https://" `prefix_of` geturl (replace_fragment p [])).
Proof.
  intros Hsch Hn Hp Hpr Hq.
  unfold geturl, urlunparse, replace_fragment.
  cbn [scheme netloc path params query fragment].
  apply urlunsplit_kept_shape; try done.
  destruct (nonempty (params p)); [|done].
  rewrite not_elem_of_app, not_elem_of_cons. done.
Qed.

Lemma validate_url_prefix x :
  lit "http://" `prefix_of` x \/ lit "https://" `prefix_of` x ->
  validate_url x = Ret x.
Proof.
  intros H. unfold validate_url, startswith.
  destruct H as [H|H]; rewrite (bool_decide_eq_true_2 _ H); simpl;
    by rewrite ?orb_true_r.
Qed.

Lemma validate_url_Ret v v' :
  validate_url v = Ret v' ->
  v' = v /\ (lit "http://" `prefix_of` v \/ lit "https://" `prefix_of` v).
Proof.
  unfold validate_url, startswith.
  destruct (bool_decide (lit "http://" `prefix_of` v)) eqn:E1; simpl.
  - intros [= <-]. apply bool_decide_eq_true in E1. auto.
  - destruct (bool_decide (lit "https://" `prefix_of` v)) eqn:E2; [|done].
    intros [= <-]. apply bool_decide_eq_true in E2. auto.
Qed.

Lemma urlsplit_http_prefix vn v d r :
  lit "http://" `prefix_of` v \/ lit "https://" `prefix_of` v ->
  urlsplit vn v d = Some r ->
  s_scheme r = lit "http" \/ s_scheme r = lit "https".
Proof.
  intros Hpre. unfold urlsplit.
  assert (Hsch : exists rest,
             split_scheme (remove_unsafe (strip is_c0_or_space d))
               (remove_unsafe (lstrip is_c0_or_space v))
             = (lit "http", rest)
             \/ split_scheme (remove_unsafe (strip is_c0_or_space d))
                  (remove_unsafe (lstrip is_c0_or_space v))
                = (lit "https", rest)).
  { destruct Hpre as [[rest ->]|[rest ->]]; exists (lit "//" ++ remove_unsafe rest);
      [left|right]; done. }
  destruct Hsch as [rest [-> | ->]].
  - destruct (starts_with_slashes rest).
    + destruct (_splitnetloc rest) as [n u]. destruct (vn n); [|done].
      destruct (cut "#"%char u) as [a f]. destruct (cut "?"%char a).
      intros [= <-]. by left.
    + simpl. destruct (cut "#"%char rest) as [a f]. destruct (cut "?"%char a).
      intros [= <-]. by left.
  - destruct (starts_with_slashes rest).
    + destruct (_splitnetloc rest) as [n u]. destruct (vn n); [|done].
      destruct (cut "#"%char u) as [a f]. destruct (cut "?"%char a).
      intros [= <-]. by right.
    + simpl. destruct (cut "#"%char rest) as [a f]. destruct (cut "?"%char a).
      intros [= <-]. by right.
Qed.

Lemma urlparse_scheme vn v d p r :
  urlsplit vn v d = Some r -> urlparse vn v d = Some p ->
  scheme p = s_scheme r /\ netloc p = s_netloc r.
Proof.
  unfold urlparse. intros ->.
  destruct (member (s_scheme r) uses_params && has ";"%char (s_path r)).
  - destruct (_splitparams (s_path r)). by intros [= <-].
  - by intros [= <-].
Qed.

(** X9: the URLs that [_process_url] returns, in every branch, are pairwise
    distinct, hold no [#], and start with [http://] or [https://], so that
    the schema's validator would accept each of them as a seed. *)
Theorem X9_returned_urls_shape vn w self job_id u d s r s' :
  _process_url vn w self job_id u d s = (r, s') ->
  exists pr,
    r = Ret pr
    /\ NoDup (new_urls pr)
    /\ forall x, x ∈ new_urls pr ->
                 "#"%char ∉ x /\ validate_url x = Ret x.
Proof.
  intros Hrun.
  destruct (process_url_returns vn w self job_id u d s) as (pr & s1 & Hr & _).
  rewrite Hrun in Hr. injection Hr as -> <-.
  exists pr. split; [done|].
  destruct (new_urls pr) as [|x0 l] eqn:El; [split; [constructor|]|].
  { by intros x ?%elem_of_nil. }
  assert (Hpage : page_result vn w self job_id (mkItem u d) = Ret pr).
  { pose proof (process_url_result vn w self job_id (mkItem u d) s) as Hres.
    simpl in Hres. rewrite Hrun in Hres. simpl in Hres.
    destruct (is_active s); [done|]. injection Hres as ->. done. }
  assert (Hx0 : x0 ∈ new_urls pr) by (rewrite El; by left).
  destruct (page_result_links _ _ _ _ _ _ _ Hpage Hx0) as (_ & Hnd & _).
  rewrite <- El. split; [done|]. intros x Hx.
  destruct (page_result_links _ _ _ _ _ _ _ Hpage Hx)
    as (_ & _ & b & href & _ & Hlink).
  apply scope_link_Some in Hlink as (abs & p & _ & Hp & Hsch & _ & ->).
  destruct (urlparse_no_hash _ _ _ _ Hp) as (H1 & H2 & H3 & H4).
  destruct (geturl_kept_shape p Hsch H1 H2 H3 H4) as [Hhash Hpre].
  split; [done|]. by apply validate_url_prefix.
Qed.

(** * The endpoints *)

(** the query goes through exactly when its numbers fit the store's *)
Lemma offset_limit_Some {A} (offset limit : Z) (rows : list A) :
  offset <= max_int64 -> limit <= max_int64 ->
  offset_limit offset limit rows
  = Some (take (Z.to_nat limit) (drop (Z.to_nat offset) rows)).
Proof.
  intros Ho Hl. unfold offset_limit.
  by rewrite (proj2 (Z.leb_le _ _) Ho), (proj2 (Z.leb_le _ _) Hl).
Qed.

Lemma offset_limit_None {A} (offset limit : Z) (rows : list A) :
  max_int64 < offset -> offset_limit offset limit rows = None.
Proof.
  intros Ho. unfold offset_limit. by rewrite (proj2 (Z.leb_gt _ _) Ho).
Qed.

Lemma max_int64_large : 100 <= max_int64.
Proof. by vm_compute. Qed.

Lemma length_take_drop {A} (offset limit : Z) (rows : list A) :
  0 <= offset -> 0 <= limit ->
  count (take (Z.to_nat limit) (drop (Z.to_nat offset) rows))
  = Z.max 0 (Z.min limit (count rows - offset)).
Proof.
  intros Ho Hl. unfold count. rewrite length_take, length_drop. lia.
Qed.

Lemma take_drop_sublist {A} (n m : nat) (rows : list A) :
  take n (drop m rows) `sublist_of` rows.
Proof. etrans; [apply sublist_take|apply sublist_drop]. Qed.

Lemma Forall_sublist {A} (P : A -> Prop) (l1 l2 : list A) :
  l1 `sublist_of` l2 -> Forall P l2 -> Forall P l1.
Proof.
  rewrite !Forall_forall. intros Hsub H x Hx. apply H.
  by eapply elem_of_sublist.
Qed.

Lemma pages_tile {A} (size : nat) (rows : list A) (n : nat) :
  concat (map (fun k => take size (drop (k * size) rows)) (seq 0 n))
  = take (n * size) rows.
Proof.
  induction n as [|n IH]; [done|].
  rewrite seq_S, map_app, concat_app, IH. simpl. rewrite app_nil_r.
  rewrite take_take_drop. f_equal. lia.
Qed.

Lemma urls_of_job_owned db job_id :
  Forall (fun r => crawl_job_id (url_row r) = job_id) (urls_of_job db job_id).
Proof.
  apply Forall_forall. intros r Hr. unfold urls_of_job in Hr.
  by apply list_elem_of_filter in Hr as [? _].
Qed.

Lemma get_crawled_urls_page db job_id page page_size job :
  first_job db job_id = Some job ->
  1 <= page ->
  1 <= page_size <= 100 ->
  api.get_crawled_urls db job_id (Int page) (Int page_size)
  = match offset_limit ((page - 1) * page_size) page_size
            (urls_of_job db job_id) with
    | Some urls =>
        api.Json 200
          (mkPaginatedUrls (count (urls_of_job db job_id)) page page_size urls)
    | None => api.InternalServerError
    end.
Proof.
  intros Hjob Hp Hs. unfold api.get_crawled_urls, api.Query. rewrite Hjob.
  rewrite (proj2 (Z.leb_le 1 page)) by done.
  by rewrite (proj2 (Z.leb_le 1 page_size)), (proj2 (Z.leb_le page_size 100))
    by lia.
Qed.

Lemma take_drop_page {A} (page size : Z) (rows : list A) :
  1 <= page -> 0 <= size ->
  take (Z.to_nat size) (drop (Z.to_nat ((page - 1) * size)) rows)
  = take (Z.to_nat size) (drop (Z.to_nat (page - 1) * Z.to_nat size) rows).
Proof.
  intros Hp Hs. do 2 f_equal. nia.
Qed.

(** X11: for a job that exists, a page number from 1 and a page size from
    1 to 100, [GET /crawl/{job_id}/urls] answers 500 when the offset of the
    page is beyond the store's integers, and else 200 with the page: the
    total counts all the rows of the job whatever the page; the items are
    rows of this job only, in the order of the table, [page_size] of them
    or what is left after the pages before, none beyond the last page. *)
Theorem X11_page_of_urls db job_id page page_size job :
  first_job db job_id = Some job ->
  1 <= page ->
  1 <= page_size <= 100 ->
  (max_int64 < (page - 1) * page_size ->
   api.get_crawled_urls db job_id (Int page) (Int page_size)
   = api.InternalServerError)
  /\ ((page - 1) * page_size <= max_int64 ->
      exists r,
        api.get_crawled_urls db job_id (Int page) (Int page_size)
        = api.Json 200 r
        /\ urls_total r = count (urls_of_job db job_id)
        /\ urls_page r = page
        /\ urls_page_size r = page_size
        /\ urls_items r `sublist_of` urls_of_job db job_id
        /\ Forall (fun u => crawl_job_id (url_row u) = job_id) (urls_items r)
        /\ count (urls_items r)
           = Z.max 0 (Z.min page_size (urls_total r - (page - 1) * page_size))).
Proof.
  intros Hjob Hp Hs.
  rewrite (get_crawled_urls_page db job_id page page_size job) by done.
  pose proof max_int64_large as Hbig. split.
  - intros Hover. by rewrite offset_limit_None.
  - intros Hfit. rewrite offset_limit_Some by lia.
    eexists. split; [done|]. simpl. split_and!; try done.
    + apply take_drop_sublist.
    + eapply Forall_sublist; [apply take_drop_sublist|].
      apply urls_of_job_owned.
    + apply length_take_drop; nia.
Qed.

(** X12: over a table of the job's rows that the store's integers can
    count, reading the pages 1 to [n] of a job one after the other gives
    the first [n * page_size] rows of the job, each once and in order; once
    [n * page_size] reaches the total, that is the list that
    [GET /crawl/{job_id}] returns in [crawled_urls]. *)
Theorem X12_pages_tile_the_rows db job_id page_size job n :
  first_job db job_id = Some job ->
  1 <= page_size <= 100 ->
  count (urls_of_job db job_id) <= max_int64 ->
  let items k :=
    match api.get_crawled_urls db job_id (Int (Z.of_nat k)) (Int page_size) with
    | api.Json _ r => urls_items r
    | _ => []
    end in
  concat (map items (seq 1 n))
  = take (n * Z.to_nat page_size) (urls_of_job db job_id)
  /\ (count (urls_of_job db job_id) <= Z.of_nat n * page_size ->
      api.get_crawl_status db job_id
      = api.Json 200 (mkCrawlJobWithUrls job (concat (map items (seq 1 n))))).
Proof.
  intros Hjob Hs Hcount items.
  pose proof max_int64_large as Hbig.
  assert (Hid : id (job_row job) = job_id).
  { unfold first_job in Hjob. apply head_Some_elem_of in Hjob.
    by apply list_elem_of_filter in Hjob as [? _]. }
  assert (Htile : concat (map items (seq 1 n))
                  = take (n * Z.to_nat page_size) (urls_of_job db job_id)).
  { rewrite <- pages_tile, <- fmap_S_seq, map_map. f_equal.
    apply map_ext_in. intros k _. unfold items.
    rewrite (get_crawled_urls_page db job_id _ page_size job) by (done || lia).
    destruct (Z.le_gt_cases ((Z.of_nat (S k) - 1) * page_size) max_int64)
      as [Hfit|Hover].
    - rewrite offset_limit_Some by lia. simpl.
      rewrite take_drop_page by lia. do 3 f_equal. lia.
    - rewrite offset_limit_None by done. symmetry.
      rewrite drop_ge; [by rewrite take_nil|]. unfold count in Hcount. nia. }
  split; [done|]. intros Hall.
  unfold api.get_crawl_status. rewrite Hjob, Hid, Htile. do 2 f_equal.
  symmetry. apply take_ge. unfold count in Hall. nia.
Qed.

(** X13: the two implementations of the URL listing, for parameters that
    both frameworks read alike.  Whenever the FastAPI route answers with a
    page, the Flask route answers with the same page.  Where FastAPI
    refuses a parameter, Flask substitutes its default: for a job that
    exists it works with a page number of at least 1 and a page size from
    1 to 100, and answers 500 when the offset of that page is beyond the
    store's integers and else 200, with no more items than the page size.
    For a job that does not exist Flask answers 404 whatever the
    parameters, and FastAPI answers 404 unless it refuses a parameter
    first. *)
Theorem X13_flask_pages_agree db job_id page page_size :
  (forall code r,
      api.get_crawled_urls db job_id page page_size = api.Json code r ->
      flask_app.get_crawled_urls db job_id page page_size
      = flask_app.Json code r)
  /\ (forall job,
         first_job db job_id = Some job ->
         exists p sz,
           1 <= p
           /\ 1 <= sz <= 100
           /\ (api.Query 1 1 None page = None -> p = 1)
           /\ (api.Query 50 1 (Some 100) page_size = None -> sz = 50)
           /\ if decide ((p - 1) * sz <= max_int64) then
                exists r,
                  flask_app.get_crawled_urls db job_id page page_size
                  = flask_app.Json 200 r
                  /\ urls_page r = p
                  /\ urls_page_size r = sz
                  /\ count (urls_items r) <= sz
                  /\ urls_total r = count (urls_of_job db job_id)
              else
                flask_app.get_crawled_urls db job_id page page_size
                = flask_app.InternalServerError)
  /\ (first_job db job_id = None ->
      flask_app.get_crawled_urls db job_id page page_size
      = flask_app.Error 404 (lit "Crawl job not found")
      /\ (api.get_crawled_urls db job_id page page_size
          = api.HTTPException 404 (api.not_found job_id)
          \/ api.get_crawled_urls db job_id page page_size
             = api.RequestValidationError)).
Proof.
  pose proof max_int64_large as Hbig.
  split_and!; [| |intros Hnone;
     unfold flask_app.get_crawled_urls, api.get_crawled_urls;
     rewrite Hnone; split; [done|];
     destruct (api.Query 1 1 None page);
     destruct (api.Query 50 1 (Some 100) page_size); auto].
  - intros code r. unfold api.get_crawled_urls, flask_app.get_crawled_urls.
    destruct (api.Query 1 1 None page) as [p|] eqn:Ep; [|done].
    destruct (api.Query 50 1 (Some 100) page_size) as [sz|] eqn:Es; [|done].
    destruct (first_job db job_id) as [job|]; [|done].
    assert (Hp : flask_app.args_get 1 page = p /\ 1 <= p).
    { unfold api.Query in Ep. destruct page as [| |v]; simpl; [|done|].
      - by injection Ep as <-.
      - destruct (1 <=? v) eqn:E; [|done]. simpl in Ep. injection Ep as <-.
        by apply Z.leb_le in E. }
    assert (Hs : flask_app.args_get 50 page_size = sz /\ 1 <= sz <= 100).
    { unfold api.Query in Es. destruct page_size as [| |v]; simpl; [|done|].
      - injection Es as <-. lia.
      - destruct (1 <=? v) eqn:E1; [|done].
        destruct (v <=? 100) eqn:E2; [|done]. simpl in Es. injection Es as <-.
        apply Z.leb_le in E1, E2. lia. }
    destruct Hp as [-> Hp]. destruct Hs as [-> Hs].
    rewrite (proj2 (Z.ltb_ge p 1)) by lia.
    rewrite (proj2 (Z.ltb_ge sz 1)), (proj2 (Z.ltb_ge 100 sz)) by lia.
    simpl. destruct (offset_limit _ _ _); [|done]. by intros [= <- <-].
  - intros job Hjob. unfold flask_app.get_crawled_urls. rewrite Hjob.
    set (p := flask_app.args_get 1 page).
    set (sz := flask_app.args_get 50 page_size).
    cbv zeta.
    assert (Hp : 1 <= (if p <? 1 then 1 else p))
      by (destruct (Z.ltb_spec p 1); lia).
    assert (Hs : 1 <= (if (sz <? 1) || (100 <? sz) then 50 else sz) <= 100)
      by (destruct (Z.ltb_spec sz 1), (Z.ltb_spec 100 sz); simpl; lia).
    exists (if p <? 1 then 1 else p),
           (if (sz <? 1) || (100 <? sz) then 50 else sz).
    split_and!; try done; try lia.
    + unfold api.Query, p. destruct page as [| |v]; simpl; try done.
      destruct (Z.leb_spec 1 v); simpl; [done|]. intros _.
      by rewrite (proj2 (Z.ltb_lt v 1)) by lia.
    + unfold api.Query, sz. destruct page_size as [| |v]; simpl; try done.
      destruct (Z.leb_spec 1 v), (Z.leb_spec v 100); simpl; try done;
        intros _.
      * by rewrite (proj2 (Z.ltb_ge v 1)), (proj2 (Z.ltb_lt 100 v)) by lia.
      * by rewrite (proj2 (Z.ltb_lt v 1)) by lia.
      * by rewrite (proj2 (Z.ltb_lt v 1)) by lia.
    + destruct (decide _) as [Hfit|Hover].
      * rewrite offset_limit_Some by lia. eexists. split; [done|]. simpl.
        split_and!; try done. rewrite length_take_drop by nia. lia.
      * by rewrite offset_limit_None by lia.
Qed.

(** X14: [GET /api/crawl] of the Flask application.  Whatever the
    parameters, the limit it applies is from 1 to 100 and the offset is not
    negative, each the parameter itself when that is in range.  It answers
    500 when the offset is beyond the store's integers, and else 200: the
    total counts every job; the items are [limit] jobs of the table from
    the offset on, in the order of the table, or what is left of it. *)
Theorem X14_flask_window_of_jobs db limit offset :
  exists l o,
    1 <= l <= 100
    /\ 0 <= o
    /\ (forall v, limit = Int v -> 1 <= v <= 100 -> l = v)
    /\ (forall v, offset = Int v -> 0 <= v -> o = v)
    /\ if decide (o <= max_int64) then
         exists r,
           flask_app.list_crawl_jobs db limit offset = flask_app.Json 200 r
           /\ flask_app.jobs_limit r = l
           /\ flask_app.jobs_offset r = o
           /\ flask_app.jobs_total r = count (crawl_jobs db)
           /\ flask_app.jobs_items r
              = take (Z.to_nat l) (drop (Z.to_nat o) (crawl_jobs db))
           /\ count (flask_app.jobs_items r)
              = Z.max 0 (Z.min l (flask_app.jobs_total r - o))
       else
         flask_app.list_crawl_jobs db limit offset
         = flask_app.InternalServerError.
Proof.
  pose proof max_int64_large as Hbig.
  unfold flask_app.list_crawl_jobs.
  set (l := flask_app.args_get 10 limit).
  set (o := flask_app.args_get 0 offset).
  cbv zeta.
  assert (Hl : 1 <= (if (l <? 1) || (100 <? l) then 10 else l) <= 100)
    by (destruct (Z.ltb_spec l 1), (Z.ltb_spec 100 l); simpl; lia).
  assert (Ho : 0 <= (if o <? 0 then 0 else o))
    by (destruct (Z.ltb_spec o 0); lia).
  exists (if (l <? 1) || (100 <? l) then 10 else l), (if o <? 0 then 0 else o).
  split_and!; try done; try lia.
  - intros v -> Hv. unfold l. simpl.
    by rewrite (proj2 (Z.ltb_ge v 1)), (proj2 (Z.ltb_ge 100 v)) by lia.
  - intros v -> Hv. unfold o. simpl. by rewrite (proj2 (Z.ltb_ge v 0)) by lia.
  - destruct (decide _) as [Hfit|Hover].
    + rewrite offset_limit_Some by lia. eexists. split; [done|]. simpl.
      split_and!; try done. apply length_take_drop; lia.
    + by rewrite offset_limit_None by lia.
Qed.

(** X15: [GET /crawl] of the FastAPI application, for a limit from 1 to 100
    and an offset that is not negative, over a store whose answer to the
    ordered query is the table sorted by [created_at], newest first.  It
    answers 500 when the offset is beyond the store's integers; else the
    jobs returned are jobs of the table, newest first, at most [limit] of
    them, and none of them is newer than a job that the offset skipped. *)
Theorem X15_jobs_newest_first order_by db limit offset :
  order_by (crawl_jobs db) ≡ₚ crawl_jobs db ->
  StronglySorted (fun a b => created_at b <= created_at a)
                 (order_by (crawl_jobs db)) ->
  1 <= limit <= 100 ->
  0 <= offset ->
  (max_int64 < offset ->
   api.list_crawl_jobs order_by db (Int limit) (Int offset)
   = api.InternalServerError)
  /\ (offset <= max_int64 ->
      exists jobs,
        api.list_crawl_jobs order_by db (Int limit) (Int offset)
        = api.Json 200 jobs
        /\ StronglySorted (fun a b => created_at b <= created_at a) jobs
        /\ count jobs = Z.max 0 (Z.min limit (count (crawl_jobs db) - offset))
        /\ (forall j, j ∈ jobs -> j ∈ crawl_jobs db)
        /\ forall skipped j,
             skipped ∈ take (Z.to_nat offset) (order_by (crawl_jobs db)) ->
             j ∈ jobs -> created_at j <= created_at skipped).
Proof.
  intros Hperm Hsorted Hl Ho. unfold api.list_crawl_jobs, api.Query.
  pose proof max_int64_large as Hbig.
  rewrite (proj2 (Z.leb_le 1 limit)), (proj2 (Z.leb_le limit 100)) by lia.
  rewrite (proj2 (Z.leb_le 0 offset)) by lia. simpl. split.
  { intros Hover. by rewrite offset_limit_None. }
  intros Hfit. rewrite offset_limit_Some by lia.
  eexists. split; [done|]. split_and!.
  - eapply StronglySorted_sublist; [apply take_drop_sublist|done].
  - rewrite length_take_drop by lia. unfold count.
    by rewrite (Permutation_length Hperm).
  - intros j Hj. rewrite <- Hperm.
    eapply elem_of_sublist; [done|apply take_drop_sublist].
  - intros skipped j Hs Hj.
    apply elem_of_take in Hj as (i & Hj & _).
    rewrite lookup_drop in Hj.
    apply elem_of_take in Hs as (k & Hs & Hk).
    rewrite <- (take_drop (Z.to_nat offset) (order_by (crawl_jobs db)))
      in Hsorted.
    apply StronglySorted_app in Hsorted as (Hcross & _ & _).
    apply Hcross.
    + apply elem_of_take. eauto.
    + apply list_elem_of_lookup. exists i. by rewrite lookup_drop.
Qed.

(** * The periodic cleanup *)

Lemma cleanup_fold old : forall session n,
  fold_left (fun '(session, count) job => (flask_app.delete job session, count + 1))
            old (session, n)
  = (mkStore
       (filter (fun j => id (job_row j) ∉ map (fun o => id (job_row o)) old)
               (crawl_jobs session))
       (filter (fun r => crawl_job_id (url_row r)
                         ∉ map (fun o => id (job_row o)) old)
               (crawled_url_rows session)),
     n + Z.of_nat (length old)).
Proof.
  induction old as [|o old IH]; intros [jobs urls] n; simpl.
  - f_equal; [|lia]. f_equal; symmetry; apply filter_all, Forall_forall;
      intros x _; apply not_elem_of_nil.
  - rewrite IH. unfold flask_app.delete. simpl. f_equal; [|lia].
    f_equal; rewrite list_filter_filter; apply list_filter_iff; intros x;
      rewrite not_elem_of_cons; tauto.
Qed.

(** what [cleanup_old_jobs] leaves, in closed form *)
Lemma cleanup_closed utcnow db :
  let old := filter (fun j => created_at j < utcnow - flask_app.seven_days)
                    (crawl_jobs db) in
  flask_app.cleanup_old_jobs utcnow db
  = mkStore
      (filter (fun j => id (job_row j) ∉ map (fun o => id (job_row o)) old)
              (crawl_jobs db))
      (filter (fun r => crawl_job_id (url_row r)
                        ∉ map (fun o => id (job_row o)) old)
              (crawled_url_rows db)).
Proof.
  intros old. unfold flask_app.cleanup_old_jobs. fold old.
  rewrite cleanup_fold. destruct old as [|o old'] eqn:E.
  - simpl. destruct db as [jobs urls]. simpl.
    f_equal; symmetry; apply filter_all, Forall_forall; intros x _;
      apply not_elem_of_nil.
  - assert (0 <? 0 + Z.of_nat (length (o :: old')) = true) as ->
      by (apply Z.ltb_lt; simpl; lia).
    done.
Qed.

Lemma filter_iff_in {A} (P Q : A -> Prop) `{!forall x, Decision (P x)}
    `{!forall x, Decision (Q x)} (l : list A) :
  (forall x, x ∈ l -> P x <-> Q x) -> filter P l = filter Q l.
Proof.
  induction l as [|a l IH]; intros Hall; [done|].
  rewrite !filter_cons.
  assert (Ha : P a <-> Q a) by (apply Hall; by left).
  rewrite IH by (intros x Hx; apply Hall; by right).
  destruct (decide (P a)), (decide (Q a)); tauto.
Qed.

Lemma NoDup_fmap_eq {A B} (f : A -> B) (l : list A) a b :
  NoDup (map f l) -> a ∈ l -> b ∈ l -> f a = f b -> a = b.
Proof.
  induction l as [|x l IH]; simpl; [by intros _ ?%elem_of_nil|].
  intros [Hx Hnd]%NoDup_cons [->|Ha]%elem_of_cons [->|Hb]%elem_of_cons Hf;
    try done.
  - destruct Hx. rewrite Hf. apply list_elem_of_fmap. by exists b.
  - destruct Hx. rewrite <- Hf. apply list_elem_of_fmap. by exists a.
  - by apply IH.
Qed.

(** the ids of the jobs older than the cutoff *)
Lemma elem_of_old_ids cutoff (jobs : list JobRow) i :
  i ∈ map (fun o => id (job_row o)) (filter (fun j => created_at j < cutoff) jobs)
  <-> exists o, o ∈ jobs /\ created_at o < cutoff /\ id (job_row o) = i.
Proof.
  rewrite list_elem_of_fmap. split.
  - intros (o & -> & [? ?]%list_elem_of_filter). by exists o.
  - intros (o & ? & ? & <-). exists o. split; [done|].
    by apply list_elem_of_filter.
Qed.

(** X16: what the cleanup leaves.  With the ids of the jobs pairwise
    distinct, the jobs that remain are those created at the cutoff — seven
    days before now — or later, in their order, whatever their status; the
    URL rows that remain are, in their order, those of no job older than
    the cutoff; and if every URL row had its job before, every URL row has
    its job after. *)
Theorem X16_cleanup_removes_old_jobs utcnow db :
  NoDup (map (fun j => id (job_row j)) (crawl_jobs db)) ->
  let cutoff := utcnow - flask_app.seven_days in
  let db' := flask_app.cleanup_old_jobs utcnow db in
  crawl_jobs db' = filter (fun j => cutoff <= created_at j) (crawl_jobs db)
  /\ crawled_url_rows db' `sublist_of` crawled_url_rows db
  /\ (forall r,
         r ∈ crawled_url_rows db' <->
         r ∈ crawled_url_rows db
         /\ forall j, j ∈ crawl_jobs db ->
                      id (job_row j) = crawl_job_id (url_row r) ->
                      cutoff <= created_at j)
  /\ ((forall r, r ∈ crawled_url_rows db ->
                 exists j, j ∈ crawl_jobs db
                           /\ id (job_row j) = crawl_job_id (url_row r)) ->
      forall r, r ∈ crawled_url_rows db' ->
                exists j, j ∈ crawl_jobs db'
                          /\ id (job_row j) = crawl_job_id (url_row r)).
Proof.
  intros Hnd cutoff db'. unfold db'. rewrite cleanup_closed. simpl.
  fold cutoff.
  assert (Hjobs : filter
                    (fun j => id (job_row j)
                              ∉ map (fun o => id (job_row o))
                                    (filter (fun j => created_at j < cutoff)
                                            (crawl_jobs db)))
                    (crawl_jobs db)
                  = filter (fun j => cutoff <= created_at j) (crawl_jobs db)).
  { apply filter_iff_in. intros j Hj. rewrite elem_of_old_ids. split.
    - intros Hno. destruct (Z.le_gt_cases cutoff (created_at j)); [done|].
      destruct Hno. exists j. split_and!; [done|lia|done].
    - intros Hle (o & Ho & Hold & Hid).
      assert (o = j) as -> by (by eapply (NoDup_fmap_eq _ _ _ _ Hnd)).
      lia. }
  assert (Hrows : forall r,
             r ∈ filter
                   (fun r => crawl_job_id (url_row r)
                             ∉ map (fun o => id (job_row o))
                                   (filter (fun j => created_at j < cutoff)
                                           (crawl_jobs db)))
                   (crawled_url_rows db) <->
             r ∈ crawled_url_rows db
             /\ forall j, j ∈ crawl_jobs db ->
                          id (job_row j) = crawl_job_id (url_row r) ->
                          cutoff <= created_at j).
  { intros r. rewrite list_elem_of_filter, elem_of_old_ids. split.
    - intros [Hno Hr]. split; [done|]. intros j Hj Hid.
      destruct (Z.le_gt_cases cutoff (created_at j)); [done|].
      destruct Hno. exists j. split_and!; [done|lia|done].
    - intros [Hr Hall]. split; [|done]. intros (o & Ho & Hold & Hid).
      specialize (Hall o Ho Hid). lia. }
  split_and!; [done|apply sublist_filter|done|].
  intros Hfk r Hr. apply Hrows in Hr as [Hr Hall].
  destruct (Hfk r Hr) as (j & Hj & Hid). exists j. split; [|done].
  rewrite Hjobs. apply list_elem_of_filter. split; [by apply Hall|done].
Qed.

(** X17: a cleanup makes an earlier one redundant: cleaning at [t1] and
    then at a later [t2] leaves what cleaning at [t2] alone leaves, and
    cleaning twice at the same time changes nothing more. *)
Theorem X17_cleanup_absorbs_earlier t1 t2 db :
  t1 <= t2 ->
  flask_app.cleanup_old_jobs t2 (flask_app.cleanup_old_jobs t1 db)
  = flask_app.cleanup_old_jobs t2 db.
Proof.
  intros Ht. rewrite !cleanup_closed. simpl.
  set (c1 := t1 - flask_app.seven_days). set (c2 := t2 - flask_app.seven_days).
  assert (Hc : c1 <= c2) by (unfold c1, c2; lia).
  assert (Hids : forall i,
             (i ∉ map (fun o => id (job_row o))
                      (filter (fun j => created_at j < c2)
                         (filter
                            (fun j => id (job_row j)
                                      ∉ map (fun o => id (job_row o))
                                            (filter (fun j => created_at j < c1)
                                                    (crawl_jobs db)))
                            (crawl_jobs db)))
              /\ i ∉ map (fun o => id (job_row o))
                         (filter (fun j => created_at j < c1) (crawl_jobs db)))
             <-> i ∉ map (fun o => id (job_row o))
                         (filter (fun j => created_at j < c2) (crawl_jobs db))).
  { intros i. rewrite !elem_of_old_ids. split.
    - intros [Hno2 Hno1] (o & Ho & Hold & Hid).
      destruct (decide (created_at o < c1)) as [Hlt|Hge].
      + destruct Hno1. by exists o.
      + destruct Hno2. exists o. split_and!; try done.
        apply list_elem_of_filter. split; [|done].
        rewrite elem_of_old_ids. intros (o' & Ho' & Hold' & Hid').
        destruct Hno1. exists o'. split_and!; try done. congruence.
    - intros Hno. split.
      + intros (o & [_ Ho]%list_elem_of_filter & Hold & Hid).
        destruct Hno. by exists o.
      + intros (o & Ho & Hold & Hid). destruct Hno. exists o.
        split_and!; try done. lia. }
  f_equal; rewrite list_filter_filter; apply list_filter_iff; intros x;
    apply Hids.
Qed.

(** * The two front doors *)

(** X10: the validator of the schema returns the seed as it was given; a
    seed that it accepts and that [urllib] parses has scheme http or https;
    and the check of the Flask route lets such a seed through exactly when
    its authority is not empty. *)
Theorem X10_validated_seed vn v v' p :
  validate_url v = Ret v' ->
  urlparse vn v [] = Some p ->
  v' = v
  /\ (scheme p = lit "http" \/ scheme p = lit "https")
  /\ (flask_app.check_request vn (flask_app.SeedUrl v) = None
      <-> netloc p <> []).
Proof.
  intros [-> Hpre]%validate_url_Ret Hp. split; [done|].
  assert (Hsch : scheme p = lit "http" \/ scheme p = lit "https").
  { destruct (urlsplit vn v []) as [r|] eqn:Er.
    - destruct (urlparse_scheme _ _ _ _ _ Er Hp) as [-> _].
      by eapply urlsplit_http_prefix.
    - unfold urlparse in Hp. by rewrite Er in Hp. }
  split; [done|].
  unfold flask_app.check_request. rewrite Hp.
  assert (nonempty (scheme p) = true) as -> by (by destruct Hsch as [->| ->]).
  simpl. destruct (netloc p); simpl; split; done.
Qed.

(** X18: what [POST /crawl] leaves behind.  A crawl task is created exactly
    when the answer is 201, and then for the id of the job that was stored,
    whose row holds the seed as given and [IN_PROGRESS]; looking that id up
    finds the job when the id was not in use.  A seed that the validator
    refuses is answered 422 and the store is untouched.  A failure of the
    store is answered 500 with its message; if it is the refresh that
    failed, the job is stored all the same and no crawl runs for it.  The
    table of URLs is never touched. *)
Theorem X18_start_crawl_outcomes ins seed_url db :
  let '(reply, task, db') := api.start_crawl ins seed_url db in
  let job := mkJobRow (mkCrawlJob (insert_id ins) seed_url IN_PROGRESS None)
                      (insert_created_at ins) in
  crawled_url_rows db' = crawled_url_rows db
  /\ (reply = api.Json 201 job <-> task = Some (insert_id ins))
  /\ (task = None \/ task = Some (insert_id ins))
  /\ (task = Some (insert_id ins) ->
      validate_url seed_url = Ret seed_url
      /\ crawl_jobs db' = crawl_jobs db ++ [job]
      /\ (first_job db (insert_id ins) = None ->
          first_job db' (insert_id ins) = Some job))
  /\ (validate_url seed_url <> Ret seed_url ->
      reply = api.RequestValidationError /\ db' = db)
  /\ (forall e, validate_url seed_url = Ret seed_url ->
                insert_commit ins = Some e ->
                reply = api.HTTPException 500
                          (lit "Failed to start crawl job: " ++ str_of_exn e)
                /\ db' = db)
  /\ (forall e, validate_url seed_url = Ret seed_url ->
                insert_commit ins = None ->
                insert_refresh ins = Some e ->
                reply = api.HTTPException 500
                          (lit "Failed to start crawl job: " ++ str_of_exn e)
                /\ task = None
                /\ crawl_jobs db' = crawl_jobs db ++ [job]).
Proof.
  unfold api.start_crawl, start_crawl_job.
  destruct (validate_url seed_url) as [v|e0] eqn:Ev.
  - apply validate_url_Ret in Ev as [-> _].
    destruct (insert_commit ins) as [e|] eqn:Ec.
    + simpl. split_and!; try done.
      * by left.
      * by intros e' _ [= <-].
    + destruct (insert_refresh ins) as [e|] eqn:Er.
      * simpl. split_and!; try done.
        -- by left.
        -- by intros e' _ _ [= <-].
      * simpl. split_and!; try done.
        -- by right.
        -- intros _. split_and!; try done. intros Hfresh.
           unfold first_job in *. simpl. rewrite filter_app.
           destruct (filter _ (crawl_jobs db)) as [|? ?]; [|done].
           simpl. rewrite filter_cons. simpl. by rewrite decide_True.
  - simpl. split_and!; try done. by left.
Qed.

(** * A refused row and the rest of the run *)





(** * Instances *)

Lemma X1_witness :
  let st := iterate balanced_brackets mock_site default_crawler 2 1
              (initial (lit "https://example.com") fresh_session) in
  (forall i, i ∈ dequeued st ++ urls_to_visit st ->
             i = mkItem (lit "https://example.com") 0
             \/ kept_on_host balanced_brackets (lit "example.com") (item_url i))
  /\ (forall u, u ∈ visited_urls st ->
                on_host balanced_brackets (lit "example.com") u)
  /\ exists rows,
       crawled_urls (db st) = crawled_urls fresh_session ++ rows
       /\ Forall (fun c => on_host balanced_brackets (lit "example.com") (url c))
                 rows.
Proof.
  apply (X1_crawl_stays_on_host balanced_brackets mock_site default_crawler 1
           (lit "https://example.com") fresh_session
           (mkParse (lit "https") (lit "example.com") [] [] [] []) 2).
  - vm_compute. reflexivity.
  - discriminate.
Defined.

Lemma X3_witness :
  mkItem (lit "https://example.com/page1") 1
  = mkItem (lit "https://example.com") 0
  \/ exists t r,
       t ∈ scheduled (iterate balanced_brackets mock_site default_crawler 1 1
                        (initial (lit "https://example.com") fresh_session))
       /\ page_result balanced_brackets mock_site default_crawler 1 t = Ret r
       /\ item_url (mkItem (lit "https://example.com/page1") 1) ∈ new_urls r
       /\ item_depth (mkItem (lit "https://example.com/page1") 1)
          = item_depth t + 1
       /\ item_depth t < max_depth default_crawler.
Proof.
  apply (X3_frontier_provenance balanced_brackets mock_site default_crawler 1
           (lit "https://example.com") fresh_session 1
           (mkItem (lit "https://example.com/page1") 1)).
  vm_compute. repeat constructor.
Defined.

Lemma X4_witness :
  from_option
    (fun st =>
       urls_to_visit st = []
       /\ is_active (db st) = true
       /\ lit "https://example.com" ∈ visited_urls st
       /\ forall t r x,
            t ∈ scheduled st ->
            page_result balanced_brackets mock_site default_crawler 1 t = Ret r ->
            item_depth t < max_depth default_crawler ->
            x ∈ new_urls r -> x ∈ visited_urls st)
    False
    (crawl_loop balanced_brackets mock_site default_crawler 5 1
       (initial (lit "https://example.com") fresh_session)).
Proof.
  destruct (crawl_loop balanced_brackets mock_site default_crawler 5 1
              (initial (lit "https://example.com") fresh_session))
    as [st|] eqn:E; simpl.
  - assert (Hfr : urls_to_visit st = [] /\ is_active (db st) = true).
    { pose proof E as E'. vm_compute in E'. injection E' as <-.
      split; reflexivity. }
    destruct Hfr as [Hfr Hact]. split; [exact Hfr|]. split; [exact Hact|].
    exact (X4_exploration_complete balanced_brackets mock_site default_crawler
             1 (lit "https://example.com") fresh_session 5 st E Hfr Hact).
  - vm_compute in E. discriminate E.
Defined.

Lemma X5_witness :
  from_option
    (fun run =>
       exists rows,
         crawled_urls (final_db run) = crawled_urls fresh_session ++ rows
         /\ Forall (fun c => crawl_job_id c = 1) rows
         /\ NoDup (map url rows)
         /\ (length rows
             < max_visited + Z.to_nat (max_workers default_crawler))%nat)
    False
    (_crawl balanced_brackets mock_site default_crawler 5 1 fresh_session).
Proof.
  destruct (_crawl balanced_brackets mock_site default_crawler 5 1
              fresh_session) as [run|] eqn:E; simpl.
  - refine (X5_rows_of_a_run balanced_brackets mock_site default_crawler 5 1
              fresh_session run _ E).
    discriminate.
  - vm_compute in E. discriminate E.
Defined.

Lemma X6_witness :
  (forall n,
      iterate balanced_brackets mock_site idle_crawler n 1
        (initial (lit "https://example.com") fresh_session)
      = initial (lit "https://example.com") fresh_session)
  /\ (forall fuel,
         crawl_loop balanced_brackets mock_site idle_crawler fuel 1
           (initial (lit "https://example.com") fresh_session) = None)
  /\ forall fuel job,
       is_active fresh_session = true ->
       query_job mock_site 1 = Ret (Some job) ->
       _crawl balanced_brackets mock_site idle_crawler fuel 1 fresh_session
       = None.
Proof.
  apply (X6_no_worker_no_exit balanced_brackets mock_site idle_crawler 1
           (lit "https://example.com") fresh_session).
  discriminate.
Defined.

Lemma X7_witness :
  exists run,
    _crawl balanced_brackets unreachable_site default_crawler 1 1 fresh_session
    = Some run
    /\ ended run = Ret tt
    /\ job_status run = COMPLETED
    /\ committed_status (final_db run) = COMPLETED
    /\ crawled_urls (final_db run) = crawled_urls fresh_session
    /\ scheduled <$> last_state run
       = Some [mkItem (seed_url (mkCrawlJob 1 (lit "https://example.com")
                                            IN_PROGRESS None)) 0].
Proof.
  apply (X7_unfetchable_seed_completes balanced_brackets unreachable_site
           default_crawler 0 1 fresh_session
           (mkCrawlJob 1 (lit "https://example.com") IN_PROGRESS None)).
  - reflexivity.
  - reflexivity.
  - left. eexists. reflexivity.
  - reflexivity.
  - reflexivity.
Defined.

Lemma X8_witness :
  exists st,
    crawl_loop balanced_brackets mock_site shallow_crawler 1 1
      (initial (lit "https://example.com") fresh_session) = Some st
    /\ scheduled st = [mkItem (lit "https://example.com") 0]
    /\ visited_urls st = {[lit "https://example.com"]}
    /\ urls_to_visit st = [].
Proof.
  apply (X8_depth_zero_fetches_the_seed_only balanced_brackets mock_site
           shallow_crawler 0 1 (lit "https://example.com") fresh_session).
  - reflexivity.
  - discriminate.
Defined.

Lemma X9_witness :
  exists pr,
    (_process_url balanced_brackets mock_site default_crawler 1
       (lit "https://example.com") 0 fresh_session).1 = Ret pr
    /\ NoDup (new_urls pr)
    /\ forall x, x ∈ new_urls pr ->
                 "#"%char ∉ x /\ validate_url x = Ret x.
Proof.
  destruct (_process_url balanced_brackets mock_site default_crawler 1
              (lit "https://example.com") 0 fresh_session) as [r s'] eqn:E.
  destruct (X9_returned_urls_shape balanced_brackets mock_site default_crawler
              1 (lit "https://example.com") 0 fresh_session r s' E)
    as (pr & -> & H).
  exists pr. split; [reflexivity|exact H].
Defined.

Lemma X10_witness :
  lit "https://example.com/a?b#c" = lit "https://example.com/a?b#c"
  /\ (scheme (mkParse (lit "https") (lit "example.com") (lit "/a") []
                      (lit "b") (lit "c")) = lit "http"
      \/ scheme (mkParse (lit "https") (lit "example.com") (lit "/a") []
                         (lit "b") (lit "c")) = lit "https")
  /\ (flask_app.check_request balanced_brackets
        (flask_app.SeedUrl (lit "https://example.com/a?b#c")) = None
      <-> netloc (mkParse (lit "https") (lit "example.com") (lit "/a") []
                          (lit "b") (lit "c")) <> []).
Proof.
  apply (X10_validated_seed balanced_brackets (lit "https://example.com/a?b#c")).
  - vm_compute. reflexivity.
  - vm_compute. reflexivity.
Defined.

Lemma X11_witness :
  (max_int64 < (2 - 1) * 2 ->
   api.get_crawled_urls sample_store 1 (Int 2) (Int 2)
   = api.InternalServerError)
  /\ ((2 - 1) * 2 <= max_int64 ->
      exists r,
        api.get_crawled_urls sample_store 1 (Int 2) (Int 2) = api.Json 200 r
        /\ urls_total r = count (urls_of_job sample_store 1)
        /\ urls_page r = 2
        /\ urls_page_size r = 2
        /\ urls_items r `sublist_of` urls_of_job sample_store 1
        /\ Forall (fun u => crawl_job_id (url_row u) = 1) (urls_items r)
        /\ count (urls_items r)
           = Z.max 0 (Z.min 2 (urls_total r - (2 - 1) * 2))).
Proof.
  apply (X11_page_of_urls sample_store 1 2 2
           (mkJobRow (mkCrawlJob 1 (lit "https://example.com") COMPLETED None)
                     1700000000000000)).
  - reflexivity.
  - discriminate.
  - split; discriminate.
Defined.

Lemma X12_witness :
  let items k :=
    match api.get_crawled_urls sample_store 1 (Int (Z.of_nat k)) (Int 2) with
    | api.Json _ r => urls_items r
    | _ => []
    end in
  concat (map items (seq 1 2))
  = take (2 * Z.to_nat 2) (urls_of_job sample_store 1)
  /\ (count (urls_of_job sample_store 1) <= Z.of_nat 2 * 2 ->
      api.get_crawl_status sample_store 1
      = api.Json 200
          (mkCrawlJobWithUrls
             (mkJobRow (mkCrawlJob 1 (lit "https://example.com") COMPLETED None)
                       1700000000000000)
             (concat (map items (seq 1 2))))).
Proof.
  apply (X12_pages_tile_the_rows sample_store 1 2
           (mkJobRow (mkCrawlJob 1 (lit "https://example.com") COMPLETED None)
                     1700000000000000) 2).
  - reflexivity.
  - split; discriminate.
  - discriminate.
Defined.

Lemma X15_witness :
  (max_int64 < 1 ->
   api.list_crawl_jobs (fun l => l) sample_store (Int 1) (Int 1)
   = api.InternalServerError)
  /\ (1 <= max_int64 ->
      exists jobs,
        api.list_crawl_jobs (fun l => l) sample_store (Int 1) (Int 1)
        = api.Json 200 jobs
        /\ StronglySorted (fun a b => created_at b <= created_at a) jobs
        /\ count jobs = Z.max 0 (Z.min 1 (count (crawl_jobs sample_store) - 1))
        /\ (forall j, j ∈ jobs -> j ∈ crawl_jobs sample_store)
        /\ forall skipped j,
             skipped ∈ take (Z.to_nat 1) (crawl_jobs sample_store) ->
             j ∈ jobs -> created_at j <= created_at skipped).
Proof.
  apply (X15_jobs_newest_first (fun l => l) sample_store 1 1).
  - reflexivity.
  - repeat constructor. simpl. discriminate.
  - split; discriminate.
  - discriminate.
Defined.

Lemma X16_witness :
  let cutoff := 1700604800000001 - flask_app.seven_days in
  let db' := flask_app.cleanup_old_jobs 1700604800000001 sample_store in
  crawl_jobs db'
  = filter (fun j => cutoff <= created_at j) (crawl_jobs sample_store)
  /\ crawled_url_rows db' `sublist_of` crawled_url_rows sample_store
  /\ (forall r,
         r ∈ crawled_url_rows db' <->
         r ∈ crawled_url_rows sample_store
         /\ forall j, j ∈ crawl_jobs sample_store ->
                      id (job_row j) = crawl_job_id (url_row r) ->
                      cutoff <= created_at j)
  /\ ((forall r, r ∈ crawled_url_rows sample_store ->
                 exists j, j ∈ crawl_jobs sample_store
                           /\ id (job_row j) = crawl_job_id (url_row r)) ->
      forall r, r ∈ crawled_url_rows db' ->
                exists j, j ∈ crawl_jobs db'
                          /\ id (job_row j) = crawl_job_id (url_row r)).
Proof.
  apply (X16_cleanup_removes_old_jobs 1700604800000001 sample_store).
  simpl. repeat constructor; set_solver.
Defined.

Lemma X17_witness :
  flask_app.cleanup_old_jobs 1700604800000001
    (flask_app.cleanup_old_jobs 1700000000000000 sample_store)
  = flask_app.cleanup_old_jobs 1700604800000001 sample_store.
Proof.
  apply (X17_cleanup_absorbs_earlier 1700000000000000 1700604800000001
           sample_store).
  discriminate.
Defined.

Lemma X19_witness :
  let tasks := [mkItem (lit "https://example.com") 0;
                mkItem (lit "https://example.com/page1") 1] in
  let order := [mkItem (lit "https://example.com/page1") 1;
                mkItem (lit "https://example.com") 0] in
  is_active (gather balanced_brackets mock_site default_crawler 1 tasks
               fresh_session).2 = true
  /\ is_active (gather balanced_brackets mock_site default_crawler 1 order
                  fresh_session).2 = true
  /\ (gather balanced_brackets mock_site default_crawler 1 order
        fresh_session).1
     ≡ₚ (gather balanced_brackets mock_site default_crawler 1 tasks
           fresh_session).1
  /\ crawled_urls (gather balanced_brackets mock_site default_crawler 1 order
                     fresh_session).2
     ≡ₚ crawled_urls (gather balanced_brackets mock_site default_crawler 1
                        tasks fresh_session).2.
Proof.
  intros tasks order.
  assert (Hact : is_active (gather balanced_brackets mock_site default_crawler
                              1 tasks fresh_session).2 = true)
    by (vm_compute; reflexivity).
  destruct (X19_completion_order_irrelevant balanced_brackets mock_site
              default_crawler 1 tasks order fresh_session
              (Permutation_swap _ _ _) Hact)
    as (H1 & _ & H3 & H4 & _).
  split; [exact Hact|]. split; [exact H1|]. split; [exact H3|exact H4].
Defined.


(** * Checks of the endpoints on the sample store *)

(** the second page of two of the first job holds its third URL *)
Example second_page :
  api.get_crawled_urls sample_store 1 (Int 2) (Int 2)
  = api.Json 200
      (mkPaginatedUrls 3 2 2
         [mkUrlRow 4 (mkCrawledUrl (lit "https://example.com/page2") None 1)]).
Proof. vm_compute. reflexivity. Qed.

(** a week and a microsecond after the first job was created it is cleaned
    up with its URLs, finished or not; the younger job stays *)
Example cleanup_sample :
  flask_app.cleanup_old_jobs 1700604800000001 sample_store
  = mkStore
      [mkJobRow (mkCrawlJob 2 (lit "https://example.org") IN_PROGRESS None)
                1700000600000000]
      [mkUrlRow 3 (mkCrawledUrl (lit "https://example.org") None 2)].
Proof. vm_compute. reflexivity. Qed.

(** [POST /crawl] with a seed of upper-case scheme is refused by the
    schema, and accepted by the check of the Flask route *)
Example front_doors_differ :
  validate_url (lit "HTTP://example.com")
  = Raise (ValueError (lit "URL must start with http:// or https://"))
  /\ flask_app.check_request balanced_brackets
       (flask_app.SeedUrl (lit "HTTP://example.com")) = None.
Proof. split; vm_compute; reflexivity. Qed.

(** * Checks against the library and the test suite *)

(** [urlparse("HTTP://A/b;p?q#f")] *)
Example urlparse_components :
  urlparse balanced_brackets (lit "HTTP://A/b;p?q#f") []
  = Some (mkParse (lit "http") (lit "A") (lit "/b") (lit "p") (lit "q")
                  (lit "f")).
Proof. vm_compute. reflexivity. Qed.

(** [urlparse("http://a/b?").geturl()] drops the empty query *)
Example geturl_drops_empty_query :
  geturl <$> urlparse balanced_brackets (lit "http://a/b?") []
  = Some (lit "http://a/b").
Proof. vm_compute. reflexivity. Qed.

(** [urlparse("http:foo").geturl()] *)
Example geturl_without_authority :
  geturl <$> urlparse balanced_brackets (lit "http:foo") []
  = Some (lit "http:///foo").
Proof. vm_compute. reflexivity. Qed.

(** the reference resolutions of RFC 3986, section 5.4, that [urljoin]'s own
    tests use *)
Example urljoin_rfc3986 :
  map (urljoin balanced_brackets (lit "http://a/b/c/d;p?q"))
      (map lit ["g"; "./g"; "g/"; "/g"; "//g"; "?y"; "g?y"; "#s"; "g#s"; ";x";
                "g;x"; ""; "."; "./"; ".."; "../"; "../g"; "../.."; "../../g";
                "../../../g"; "/./g"; "g/./h"; "g/../h"; "g;x=1/./y";
                "g;x=1/../y"; "mailto:x@y"]%string)
  = map (fun s => Some (lit s))
      ["http://a/b/c/g"; "http://a/b/c/g"; "http://a/b/c/g/"; "http://a/g";
       "http://g"; "http://a/b/c/d;p?y"; "http://a/b/c/g?y";
       "http://a/b/c/d;p?q#s"; "http://a/b/c/g#s"; "http://a/b/c/;x";
       "http://a/b/c/g;x"; "http://a/b/c/d;p?q"; "http://a/b/c/";
       "http://a/b/c/"; "http://a/b/"; "http://a/b/"; "http://a/b/g";
       "http://a/"; "http://a/g"; "http://a/g"; "http://a/g";
       "http://a/b/c/g/h"; "http://a/b/c/h"; "http://a/b/c/g;x=1/y";
       "http://a/b/c/y"; "mailto:x@y"]%string.
Proof. vm_compute. reflexivity. Qed.

(** [tests/test_crawler.py], [test_process_url]: one row is stored, and the
    links of [MOCK_HTML] that stay on the site are returned *)
Example test_process_url :
  exists r,
    _process_url balanced_brackets mock_site default_crawler 1
      (lit "https://example.com") 0 fresh_session
    = (Ret r, add_row fresh_session
                (mkCrawledUrl (lit "https://example.com")
                              (Some (lit "Test Page")) 1))
    /\ depth r = 0
    /\ (list_to_set (new_urls r) : gset str)
       = list_to_set (map lit ["https://example.com/page1";
                               "https://example.com/page2";
                               "https://example.com/page3";
                               "https://example.com/relative-link"]%string)
    /\ lit "https://other-domain.com/page4" ∉ new_urls r.
Proof.
  eexists. split_and!.
  - vm_compute. reflexivity.
  - reflexivity.
  - vm_compute. reflexivity.
  - vm_compute. intros H.
    repeat (apply elem_of_cons in H as [H|H]; [discriminate H|]).
    by apply elem_of_nil in H.
Qed.
